(** * Insight back end: query cache and search ranking

    A shallow embedding of the in-process query cache of the papers routes
    and of [Back-End/routes/interactions.js] (the [getCacheKey] /
    [getCachedQuery] / [setCachedQuery] / [invalidateUserCache] helpers and
    the cache effects of the route handlers) and of the relevance ranking
    built by the [/search/query] handler, followed by the properties
    established about them.

    Conventions of the embedding:
    - [Date.now()] is an explicit argument [now : Z] (milliseconds);
    - a JavaScript [Map] is the list of its entries in insertion order;
    - a JavaScript string is a [string] whose characters are read as code
      units below 256;
    - a JavaScript number is [NaN], an infinity, zero, or the shortest
      decimal that denotes it, which is what [Number::toString] writes;
    - a [FLOAT] of the database is the rational a double denotes, and
      arithmetic on it rounds to the nearest double;
    - a handler is cut at its [await]s: what it does to the cache before the
      first one and what it does after the last one are separate steps,
      between which other handlers may run. *)

From Stdlib Require Import ZArith List String Ascii Bool Lia Arith.
From Stdlib Require Import QArith Qround Qabs Qpower Permutation Sorted.
From Stdlib Require Import DecimalString DecimalZ DecimalPos DecimalN.
Import ListNotations.

Local Open Scope list_scope.
Local Open Scope string_scope.
Local Open Scope Z_scope.

(** * Part I: the program *)

(** ** JavaScript strings and numbers *)

Module JsString.
Definition dquote : ascii := ascii_of_nat 34.
Definition backslash : ascii := ascii_of_nat 92.

(** [s.includes(sub)] *)
Fixpoint includes (s sub : string) {struct s} : bool :=
  String.prefix sub s
  || match s with
     | EmptyString => false
     | String _ s' => includes s' sub
     end.

(** White space and line terminators among the code units below 256:
    TAB, LF, VT, FF, CR, SP and NBSP. *)
Definition isWhiteSpace (c : ascii) : bool :=
  let n := nat_of_ascii c in
  ((9 <=? n) && (n <=? 13) || (n =? 32) || (n =? 160))%nat.

Fixpoint trimStart (s : string) : string :=
  match s with
  | EmptyString => EmptyString
  | String c s' => if isWhiteSpace c then trimStart s' else s
  end.

Fixpoint trimEnd (s : string) : string :=
  match s with
  | EmptyString => EmptyString
  | String c s' =>
      match trimEnd s' with
      | EmptyString => if isWhiteSpace c then EmptyString
                       else String c EmptyString
      | t => String c t
      end
  end.

(** [s.trim()] *)
Definition trim (s : string) : string := trimEnd (trimStart s).

(** [s.split(/\s+/)]: [cur] is the piece being read, [sep] tells that the
    previous character belonged to a separator. *)
Fixpoint splitWs (cur : string) (sep : bool) (s : string) : list string :=
  match s with
  | EmptyString => [cur]
  | String c s' =>
      if isWhiteSpace c
      then if sep then splitWs cur true s'
           else cur :: splitWs EmptyString true s'
      else splitWs (cur ++ String c EmptyString) false s'
  end.

Definition split (s : string) : list string := splitWs EmptyString false s.

(** Every character of [s] passes the test [f]. *)
Fixpoint allChars (f : ascii -> bool) (s : string) : bool :=
  match s with
  | EmptyString => true
  | String c s' => f c && allChars f s'
  end.

End JsString.

(** ** JavaScript numbers

    A number is [NaN], an infinity, zero, or a finite number other than
    zero.  A finite number is given the way [Number::toString] reads it:
    its sign, the digits [d1 ... dk] of the shortest decimal that denotes
    it (neither [d1] nor [dk] is 0) and the integer [n] with value
    [0.d1...dk * 10^n].  Every double has exactly one such reading, and
    different doubles have different readings; the type also holds decimals
    that are no double, which no statement below relies on.  Negative zero
    is not told apart from zero: [===] and [JSON.stringify] do not tell
    them apart either. *)

Module JsNumber.

Inductive nonzero := D1 | D2 | D3 | D4 | D5 | D6 | D7 | D8 | D9.

Inductive digit :=
| D0
| Dn (d : nonzero).

Record decimal := mkDecimal {
  negative : bool;
  lead : nonzero;                          (* d1 *)
  more : option (list digit * nonzero);    (* d2 ... d(k-1) and dk, if k > 1 *)
  point : Z                                (* n *)
}.

Inductive number :=
| NaN
| Infinity (negative : bool)
| Zero
| Finite (d : decimal).

Definition digits (d : decimal) : list digit :=
  Dn (lead d)
  :: match more d with
     | None => []
     | Some (middle, last) => (middle ++ [Dn last])%list
     end.

Definition nonzeroChar (d : nonzero) : ascii :=
  match d with
  | D1 => "1" | D2 => "2" | D3 => "3" | D4 => "4" | D5 => "5"
  | D6 => "6" | D7 => "7" | D8 => "8" | D9 => "9"
  end.

Definition digitChar (d : digit) : ascii :=
  match d with
  | D0 => "0"
  | Dn d' => nonzeroChar d'
  end.

Fixpoint digitsText (ds : list digit) : string :=
  match ds with
  | [] => EmptyString
  | d :: ds' => String (digitChar d) (digitsText ds')
  end.

Definition zeros (m : nat) : list digit := repeat D0 m.

(** The decimal numeral of a natural number, for the exponent. *)
Definition naturalText (a : Z) : string :=
  NilEmpty.string_of_uint (N.to_uint (Z.to_N a)).

(** [e], the sign of the exponent and its decimal numeral. *)
Definition exponentText (e : Z) : string :=
  "e" ++ (if e <? 0 then "-" else "+") ++ naturalText (Z.abs e).

(** [Number::toString] on a positive finite number with digits [ds] and
    decimal point position [n]: steps 6 to 10 of the algorithm. *)
Definition positiveText (d : decimal) : string :=
  let ds := digits d in
  let k := Z.of_nat (List.length ds) in
  let n := point d in
  if (k <=? n) && (n <=? 21) then
    digitsText (ds ++ zeros (Z.to_nat (n - k)))
  else if (0 <? n) && (n <=? 21) then
    digitsText (firstn (Z.to_nat n) ds) ++ "."
      ++ digitsText (skipn (Z.to_nat n) ds)
  else if (-6 <? n) && (n <=? 0) then
    "0." ++ digitsText (zeros (Z.to_nat (- n)) ++ ds)
  else
    match more d with
    | None => digitsText [Dn (lead d)] ++ exponentText (n - 1)
    | Some _ =>
        digitsText [Dn (lead d)] ++ "." ++ digitsText (tl ds)
          ++ exponentText (n - 1)
    end.

(** [Number::toString(x)] in radix 10, which [String(x)], a template
    literal and [JSON.stringify] (on a finite [x]) all use. *)
Definition toString (x : number) : string :=
  match x with
  | NaN => "NaN"
  | Infinity false => "Infinity"
  | Infinity true => "-Infinity"
  | Zero => "0"
  | Finite d =>
      if negative d then "-" ++ positiveText d else positiveText d
  end.

Definition isFinite (x : number) : bool :=
  match x with
  | NaN | Infinity _ => false
  | Zero | Finite _ => true
  end.

(** [!x] is false: every number but [NaN] and zero. *)
Definition truthy (x : number) : bool :=
  match x with
  | NaN | Zero => false
  | Infinity _ | Finite _ => true
  end.

(** The number an integer denotes.  For an integer in the safe range this
    is the double itself. *)
Definition digitOf (u : Z) : digit :=
  match u with
  | 1 => Dn D1 | 2 => Dn D2 | 3 => Dn D3 | 4 => Dn D4 | 5 => Dn D5
  | 6 => Dn D6 | 7 => Dn D7 | 8 => Dn D8 | 9 => Dn D9
  | _ => D0
  end.

(** The decimal digits of a positive integer, most significant first. *)
Fixpoint digitsOfPositive (fuel : nat) (p : Z) (acc : list digit)
  : list digit :=
  match fuel with
  | O => acc
  | S fuel' =>
      if p <=? 0 then acc
      else digitsOfPositive fuel' (p / 10) (digitOf (p mod 10) :: acc)
  end.

Fixpoint dropZeros (ds : list digit) : nat * list digit :=
  match ds with
  | D0 :: ds' => let (z, r) := dropZeros ds' in (S z, r)
  | _ => (O, ds)
  end.

Definition stripTrailingZeros (ds : list digit) : list digit :=
  rev (snd (dropZeros (rev ds))).

(** Splits a digit sequence that starts and ends with a digit other than 0
    into its first digit and the rest. *)
Definition canonical (ds : list digit)
  : option (nonzero * option (list digit * nonzero)) :=
  match ds with
  | Dn a :: rest =>
      match rev rest with
      | [] => Some (a, None)
      | Dn z :: m => Some (a, Some (rev m, z))
      | D0 :: _ => None
      end
  | _ => None
  end.

(** The number with sign [neg], digits [ds] (zeros allowed anywhere) and
    value [0.ds * 10^n]. *)
Definition ofDigits (neg : bool) (ds : list digit) (n : Z) : option number :=
  let (z, core) := dropZeros ds in
  match core with
  | [] => Some Zero
  | _ =>
      match canonical (stripTrailingZeros core) with
      | Some (a, t) =>
          Some (Finite (mkDecimal neg a t (n - Z.of_nat z)))
      | None => None
      end
  end.

Definition ofZ (z : Z) : number :=
  let ds := digitsOfPositive (S (Z.to_nat (Z.log2 (Z.abs z))))
              (Z.abs z) [] in
  match ofDigits (z <? 0) ds (Z.of_nat (List.length ds)) with
  | Some x => x
  | None => Zero
  end.

End JsNumber.

(** Integers are read as the numbers they denote. *)
Coercion JsNumber.ofZ : Z >-> JsNumber.number.

(** ** [JSON.stringify] on parameter objects *)

Module Json.
(** The values that reach a parameter object or a request body:
    [undefined] (an absent query parameter), [null], booleans, numbers
    (from [parseInt] and [parseFloat]), strings, and the arrays and objects
    the query-string parser builds for repeated and bracketed parameters.
    An object is the list of its properties in the order
    [JSON.stringify] visits them. *)
#[local] Unset Elimination Schemes.
Inductive value :=
| Undefined
| Null
| Bool (b : bool)
| Number (n : JsNumber.number)
| Str (s : string)
| Arr (items : list value)
| Obj (props : list (string * value)).
#[local] Set Elimination Schemes.

(** An object literal: its properties in the order they are written.
    Property names are identifiers, never array indices, so this is also
    the order in which [JSON.stringify] visits them. *)
Definition object := list (string * value).

(** A number that is an integer. *)
Definition Num (n : Z) : value := Number (JsNumber.ofZ n).

Definition NaN : value := Number JsNumber.NaN.

Definition hexDigit (n : nat) : ascii :=
  ascii_of_nat (if (n <? 10)%nat then 48 + n else 87 + n).

(** [QuoteJSONString], one code unit. *)
Definition quoteChar (c : ascii) : string :=
  let n := nat_of_ascii c in
  if (n =? 8)%nat then "\b"
  else if (n =? 9)%nat then "\t"
  else if (n =? 10)%nat then "\n"
  else if (n =? 12)%nat then "\f"
  else if (n =? 13)%nat then "\r"
  else if (n =? 34)%nat then String JsString.backslash (String c "")
  else if (n =? 92)%nat then String JsString.backslash (String c "")
  else if (n <? 32)%nat then
    "\u00" ++ String (hexDigit (n / 16)) (String (hexDigit (n mod 16)) "")
  else String c "".

Fixpoint escape (s : string) : string :=
  match s with
  | EmptyString => EmptyString
  | String c s' => quoteChar c ++ escape s'
  end.

Definition quote (s : string) : string :=
  String JsString.dquote (escape s ++ String JsString.dquote "").

(** A number as [JSON.stringify] writes it: [null] unless it is finite. *)
Definition numberText (n : JsNumber.number) : string :=
  if JsNumber.isFinite n then JsNumber.toString n else "null".

Definition orNull (text : option string) : string :=
  match text with
  | Some s => s
  | None => "null"
  end.

Definition memberText (name : string) (text : string) : string :=
  quote name ++ ":" ++ text.

(** [SerializeJSONProperty]: [None] stands for [undefined].  An array
    writes [null] for an element that is [undefined]; an object leaves out
    a property whose value is [undefined]. *)
Fixpoint serialize (v : value) : option string :=
  match v with
  | Undefined => None
  | Null => Some "null"
  | Bool true => Some "true"
  | Bool false => Some "false"
  | Number n => Some (numberText n)
  | Str s => Some (quote s)
  | Arr items =>
      Some ("[" ++ String.concat "," (map (fun x => orNull (serialize x)) items)
                ++ "]")
  | Obj props =>
      Some ("{" ++ String.concat ","
                     ((fix written (ps : list (string * value)) : list string :=
                         match ps with
                         | [] => []
                         | (name, x) :: ps' =>
                             match serialize x with
                             | Some text => memberText name text :: written ps'
                             | None => written ps'
                             end
                         end) props)
                ++ "}")
  end.

Definition serializeProperty (p : string * value) : option string :=
  match serialize (snd p) with
  | Some sv => Some (memberText (fst p) sv)
  | None => None
  end.

(** The members of the object that are written, in order. *)
Fixpoint members (o : object) : list string :=
  match o with
  | [] => []
  | p :: o' =>
      match serializeProperty p with
      | Some m => m :: members o'
      | None => members o'
      end
  end.

(** [JSON.stringify(params)] *)
Definition stringify (o : object) : string :=
  "{" ++ String.concat "," (members o) ++ "}".

(** The properties whose value is not [undefined]. *)
Definition defined (o : object) : object :=
  filter (fun p => match snd p with Undefined => false | _ => true end) o.

Fixpoint lookup (name : string) (o : object) : option value :=
  match o with
  | [] => None
  | (k, v) :: o' => if String.eqb k name then Some v else lookup name o'
  end.

(** Two parameter sets are value-equal when they give every name the same
    value, whatever the order in which the properties were written; a
    property set to [undefined] counts as absent. *)
Definition value_equal (o1 o2 : object) : Prop :=
  forall name, lookup name (defined o1) = lookup name (defined o2).

(** What is left of a value once written: a number that is not finite has
    become [null], so has an [undefined] array element, and an [undefined]
    property is gone. *)
Fixpoint written (v : value) : value :=
  match v with
  | Number n => if JsNumber.isFinite n then v else Null
  | Arr items =>
      Arr (map (fun x => match written x with
                         | Undefined => Null
                         | w => w
                         end) items)
  | Obj props =>
      Obj ((fix keep (ps : list (string * value)) : list (string * value) :=
              match ps with
              | [] => []
              | (name, x) :: ps' =>
                  match written x with
                  | Undefined => keep ps'
                  | w => (name, w) :: keep ps'
                  end
              end) props)
  | _ => v
  end.

Definition writtenItem (x : value) : value :=
  match written x with
  | Undefined => Null
  | w => w
  end.

Fixpoint writtenProperties (o : object) : object :=
  match o with
  | [] => []
  | (name, x) :: o' =>
      match written x with
      | Undefined => writtenProperties o'
      | w => (name, w) :: writtenProperties o'
      end
  end.

(** A value that is written as it is: it is not [undefined], and neither
    [undefined] nor a number that is not finite occurs in it. *)
Fixpoint plain (v : value) : bool :=
  match v with
  | Undefined => false
  | Number n => JsNumber.isFinite n
  | Arr items => forallb plain items
  | Obj props =>
      (fix all (ps : list (string * value)) : bool :=
         match ps with
         | [] => true
         | (_, x) :: ps' => plain x && all ps'
         end) props
  | _ => true
  end.

(** A parameter object whose defined properties are written as they
    are. *)
Definition plainObject (o : object) : bool :=
  forallb (fun p => match snd p with
                    | Undefined => true
                    | x => plain x
                    end) o.

(** The number of nodes of a value, counting each element and property. *)
Fixpoint size (v : value) : nat :=
  match v with
  | Arr items => S (fold_right (fun x acc => S (size x + acc)) O items)
  | Obj props =>
      S ((fix sum (ps : list (string * value)) : nat :=
            match ps with
            | [] => O
            | (_, x) :: ps' => S (size x + sum ps')
            end) props)
  | _ => 1%nat
  end.

Definition sizeProperties (o : object) : nat :=
  fold_right (fun p acc => S (size (snd p) + acc)) O o.

(** [v === text] for a string literal [text] *)
Definition strictEquals (v : value) (text : string) : bool :=
  match v with
  | Str s => String.eqb s text
  | _ => false
  end.

(** [!v] is false *)
Definition truthy (v : value) : bool :=
  match v with
  | Undefined | Null => false
  | Bool b => b
  | Number n => JsNumber.truthy n
  | Str s => negb (String.length s =? 0)%nat
  | Arr _ | Obj _ => true
  end.
End Json.

(** [getCacheKey(params)], the same in both route files. *)
Definition getCacheKey (params : Json.object) : string := Json.stringify params.

(** ** Reading a cache key back

    A reader for the strings [Json.stringify] produces.  It is not part of
    the program; it serves to show what a key determines of the parameters
    it was made from. *)

Module NumberRead.

Definition digitOfChar (c : ascii) : option JsNumber.digit :=
  if Ascii.eqb c "0" then Some JsNumber.D0
  else if Ascii.eqb c "1" then Some (JsNumber.Dn JsNumber.D1)
  else if Ascii.eqb c "2" then Some (JsNumber.Dn JsNumber.D2)
  else if Ascii.eqb c "3" then Some (JsNumber.Dn JsNumber.D3)
  else if Ascii.eqb c "4" then Some (JsNumber.Dn JsNumber.D4)
  else if Ascii.eqb c "5" then Some (JsNumber.Dn JsNumber.D5)
  else if Ascii.eqb c "6" then Some (JsNumber.Dn JsNumber.D6)
  else if Ascii.eqb c "7" then Some (JsNumber.Dn JsNumber.D7)
  else if Ascii.eqb c "8" then Some (JsNumber.Dn JsNumber.D8)
  else if Ascii.eqb c "9" then Some (JsNumber.Dn JsNumber.D9)
  else None.

(** The longest prefix of digits, and what follows it. *)
Fixpoint spanDigits (s : string) : list JsNumber.digit * string :=
  match s with
  | EmptyString => ([], EmptyString)
  | String c r =>
      match digitOfChar c with
      | Some d => let (ds, rest) := spanDigits r in (d :: ds, rest)
      | None => ([], s)
      end
  end.

(** The exponent part: nothing, or [e], a sign and a numeral. *)
Definition readExponent (s : string) : option Z :=
  match s with
  | EmptyString => Some 0
  | String c (String sign numeral) =>
      if Ascii.eqb c "e" then
        match NilEmpty.uint_of_string numeral with
        | Some u =>
            if Ascii.eqb sign "+" then Some (Z.of_N (N.of_uint u))
            else if Ascii.eqb sign "-" then Some (- Z.of_N (N.of_uint u))
            else None
        | None => None
        end
      else None
  | _ => None
  end.

Definition readUnsigned (neg : bool) (s : string) : option JsNumber.number :=
  let (whole, s1) := spanDigits s in
  let (fraction, s2) :=
    match s1 with
    | String c r => if Ascii.eqb c "." then spanDigits r else ([], s1)
    | EmptyString => ([], s1)
    end in
  match readExponent s2 with
  | Some e =>
      JsNumber.ofDigits neg (whole ++ fraction)
        (Z.of_nat (List.length whole) + e)
  | None => None
  end.

(** Reads the text [Number::toString] gives a finite number. *)
Definition ofString (s : string) : option JsNumber.number :=
  match s with
  | String c r =>
      if Ascii.eqb c "-" then readUnsigned true r else readUnsigned false s
  | EmptyString => None
  end.

Definition startsWithDigit (s : string) : bool :=
  match s with
  | EmptyString => false
  | String c _ =>
      match digitOfChar c with Some _ => true | None => false end
  end.

(** The text of a fraction and of an exponent, when there is one. *)
Definition fractionText (f : option (list JsNumber.digit)) : string :=
  match f with
  | Some ds => "." ++ JsNumber.digitsText ds
  | None => ""
  end.

Definition optionalExponent (e : option Z) : string :=
  match e with
  | Some x => JsNumber.exponentText x
  | None => ""
  end.

End NumberRead.

Module JsonRead.
Definition unhex (c : ascii) : option nat :=
  let n := nat_of_ascii c in
  if ((48 <=? n) && (n <=? 57))%nat then Some (n - 48)%nat
  else if ((97 <=? n) && (n <=? 102))%nat then Some (n - 87)%nat
  else None.

Definition unescapeShort (c : ascii) : option ascii :=
  if Ascii.eqb c "b" then Some (ascii_of_nat 8)
  else if Ascii.eqb c "t" then Some (ascii_of_nat 9)
  else if Ascii.eqb c "n" then Some (ascii_of_nat 10)
  else if Ascii.eqb c "f" then Some (ascii_of_nat 12)
  else if Ascii.eqb c "r" then Some (ascii_of_nat 13)
  else if Ascii.eqb c JsString.dquote then Some c
  else if Ascii.eqb c JsString.backslash then Some c
  else None.

(** Reads a quoted string after its opening quote: the string and what
    follows the closing quote. *)
Fixpoint unquote (s : string) : option (string * string) :=
  match s with
  | EmptyString => None
  | String c r =>
      if Ascii.eqb c JsString.dquote then Some (EmptyString, r)
      else if Ascii.eqb c JsString.backslash then
        match r with
        | String e r1 =>
            if Ascii.eqb e "u" then
              match r1 with
              | String _ (String _ (String h3 (String h4 r2))) =>
                  match unhex h3, unhex h4, unquote r2 with
                  | Some a, Some b, Some (x, rest) =>
                      Some (String (ascii_of_nat (16 * a + b)) x, rest)
                  | _, _, _ => None
                  end
              | _ => None
              end
            else
              match unescapeShort e, unquote r1 with
              | Some ch, Some (x, rest) => Some (String ch x, rest)
              | _, _ => None
              end
        | EmptyString => None
        end
      else
        match unquote r with
        | Some (x, rest) => Some (String c x, rest)
        | None => None
        end
  end.

(** The characters of a number's text: digits, sign, point and [e]. *)
Definition isNumeralChar (c : ascii) : bool :=
  let n := nat_of_ascii c in
  ((n =? 45) || (n =? 43) || (n =? 46) || (n =? 101)
   || (48 <=? n) && (n <=? 57))%nat.

Definition startsNumeral (s : string) : bool :=
  match s with
  | EmptyString => false
  | String c _ => isNumeralChar c
  end.

(** Splits off the longest prefix made of numeral characters. *)
Fixpoint spanNumeral (s : string) : string * string :=
  match s with
  | EmptyString => (EmptyString, EmptyString)
  | String c r =>
      if isNumeralChar c
      then let (d, rest) := spanNumeral r in (String c d, rest)
      else (EmptyString, s)
  end.

Fixpoint dropPrefix (p s : string) : option string :=
  match p, s with
  | EmptyString, _ => Some s
  | String a p', String b s' =>
      if Ascii.eqb a b then dropPrefix p' s' else None
  | String _ _, EmptyString => None
  end.

(** A value that is not an array or an object. *)
Definition readScalar (s : string) : option (Json.value * string) :=
  match s with
  | EmptyString => None
  | String c r =>
      if Ascii.eqb c JsString.dquote then
        match unquote r with
        | Some (x, rest) => Some (Json.Str x, rest)
        | None => None
        end
      else if Ascii.eqb c "t" then
        option_map (pair (Json.Bool true)) (dropPrefix "true" s)
      else if Ascii.eqb c "f" then
        option_map (pair (Json.Bool false)) (dropPrefix "false" s)
      else if Ascii.eqb c "n" then
        option_map (pair Json.Null) (dropPrefix "null" s)
      else
        let (d, rest) := spanNumeral s in
        match NumberRead.ofString d with
        | Some x => Some (Json.Number x, rest)
        | None => None
        end
  end.

Definition startsWith (c : ascii) (s : string) : option string :=
  match s with
  | String a r => if Ascii.eqb a c then Some r else None
  | EmptyString => None
  end.

(** Reads a value; [readItems] reads the elements of an array after the
    opening bracket or a comma, [readMembers] the members of an object
    after the opening brace or a comma. *)
Fixpoint readValue (fuel : nat) (s : string) {struct fuel}
  : option (Json.value * string) :=
  match fuel with
  | O => None
  | S fuel' =>
      match s with
      | EmptyString => None
      | String c r =>
          if Ascii.eqb c "[" then
            match startsWith "]" r with
            | Some rest => Some (Json.Arr [], rest)
            | None =>
                match readItems fuel' r with
                | Some (items, rest) => Some (Json.Arr items, rest)
                | None => None
                end
            end
          else if Ascii.eqb c "{" then
            match startsWith "}" r with
            | Some rest => Some (Json.Obj [], rest)
            | None =>
                match readMembers fuel' r with
                | Some (props, rest) => Some (Json.Obj props, rest)
                | None => None
                end
            end
          else readScalar s
      end
  end
with readItems (fuel : nat) (s : string) {struct fuel}
  : option (list Json.value * string) :=
  match fuel with
  | O => None
  | S fuel' =>
      match readValue fuel' s with
      | Some (v, String sep r) =>
          if Ascii.eqb sep "," then
            match readItems fuel' r with
            | Some (items, rest) => Some (v :: items, rest)
            | None => None
            end
          else if Ascii.eqb sep "]" then Some ([v], r)
          else None
      | _ => None
      end
  end
with readMembers (fuel : nat) (s : string) {struct fuel}
  : option (list (string * Json.value) * string) :=
  match fuel with
  | O => None
  | S fuel' =>
      match startsWith JsString.dquote s with
      | Some r =>
          match unquote r with
          | Some (name, afterName) =>
              match startsWith ":" afterName with
              | Some r1 =>
                  match readValue fuel' r1 with
                  | Some (v, String sep r2) =>
                      if Ascii.eqb sep "," then
                        match readMembers fuel' r2 with
                        | Some (props, rest) => Some ((name, v) :: props, rest)
                        | None => None
                        end
                      else if Ascii.eqb sep "}" then Some ([(name, v)], r2)
                      else None
                  | _ => None
                  end
              | None => None
              end
          | None => None
          end
      | None => None
      end
  end.

(** The reader gives back what was written of [v], with any text [rest]
    that follows it and does not start like a numeral. *)
Definition reads_back (v : Json.value) : Prop :=
  forall fuel sv rest,
    Json.serialize v = Some sv ->
    (Json.size v <= fuel)%nat ->
    startsNumeral rest = false ->
    readValue fuel (sv ++ rest) = Some (Json.written v, rest).

End JsonRead.

(** ** The JavaScript [Map] *)

Module JsMap.
Section Entries.
Context {E : Type}.

(** Entries in insertion order; keys are pairwise distinct in every map
    built from [empty] by [set] and [delete]. *)
Definition t := list (string * E).

Definition empty : t := [].

Definition keys (m : t) : list string := map fst m.

Definition size (m : t) : nat := List.length m.

Fixpoint get (key : string) (m : t) : option E :=
  match m with
  | [] => None
  | (k, e) :: m' => if String.eqb k key then Some e else get key m'
  end.

Definition has (key : string) (m : t) : bool :=
  match get key m with Some _ => true | None => false end.

(** Overwriting an existing key keeps its position. *)
Fixpoint replace (key : string) (e : E) (m : t) : t :=
  match m with
  | [] => []
  | (k, e') :: m' =>
      if String.eqb k key then (k, e) :: m' else (k, e') :: replace key e m'
  end.

Definition set (key : string) (e : E) (m : t) : t :=
  if has key m then replace key e m else (m ++ [(key, e)])%list.

Definition delete (key : string) (m : t) : t :=
  filter (fun ke => negb (String.eqb (fst ke) key)) m.

(** [m.keys().next().value] *)
Definition firstKey (m : t) : option string :=
  match m with
  | [] => None
  | (k, _) :: _ => Some k
  end.
End Entries.
Arguments t E : clear implicits.
End JsMap.

(** ** The query cache *)

Module QueryCache.
Section Cache.
Context {V : Type}.

(** The object [{ data, timestamp }] stored under each key. *)
Record entry := mkEntry { data : V; timestamp : Z }.

Definition cache := JsMap.t entry.

Variable CACHE_TTL : Z.
Variable MAX_SIZE : nat.

(** [getCachedQuery(key)]: the returned value ([None] is [null]) and the
    map afterwards. *)
Definition getCachedQuery (now : Z) (key : string) (queryCache : cache)
  : option V * cache :=
  match JsMap.get key queryCache with
  | Some cached =>
      if now - timestamp cached <? CACHE_TTL
      then (Some (data cached), queryCache)
      else (None, JsMap.delete key queryCache)
  | None => (None, JsMap.delete key queryCache)
  end.

(** [setCachedQuery(key, data)] *)
Definition setCachedQuery (now : Z) (key : string) (d : V)
    (queryCache : cache) : cache :=
  let queryCache1 := JsMap.set key (mkEntry d now) queryCache in
  if (MAX_SIZE <? JsMap.size queryCache1)%nat then
    match JsMap.firstKey queryCache1 with
    | Some firstKey => JsMap.delete firstKey queryCache1
    | None => queryCache1
    end
  else queryCache1.

(** A trace of cache calls, each at its own instant. *)
Inductive op :=
| Put (key : string) (d : V) (now : Z)
| Get (key : string) (now : Z).

Definition step (o : op) (c : cache) : cache :=
  match o with
  | Put key d now => setCachedQuery now key d c
  | Get key now => snd (getCachedQuery now key c)
  end.

Definition run (ops : list op) (c : cache) : cache :=
  fold_left (fun c o => step o c) ops c.

Definition puts (ops : list op) : list (string * V * Z) :=
  flat_map (fun o => match o with
                     | Put key d now => [(key, d, now)]
                     | Get _ _ => []
                     end) ops.

Definition reads (ops : list op) : list Z :=
  flat_map (fun o => match o with
                     | Put _ _ _ => []
                     | Get _ now => [now]
                     end) ops.

(** Maps reachable from the empty one: distinct keys, at most
    [MAX_SIZE] of them. *)
Definition cache_ok (c : cache) : Prop :=
  NoDup (JsMap.keys c) /\ (JsMap.size c <= MAX_SIZE)%nat.

(** One insertion [(key, data, instant)] of a trace. *)
Definition entry_of (p : string * V * Z) : string * entry :=
  let '(key, d, now) := p in (key, mkEntry d now).

Definition put_op (p : string * V * Z) : op :=
  let '(key, d, now) := p in Put key d now.

Definition get_op (p : string * Z) : op := Get (fst p) (snd p).

Definition put_key (p : string * V * Z) : string := fst (fst p).
Definition put_time (p : string * V * Z) : Z := snd p.

(** The instants at which the stored entries were written. *)
Definition stamps (c : cache) : list Z :=
  map (fun ke => timestamp (snd ke)) c.
End Cache.
Arguments entry V : clear implicits.
Arguments cache V : clear implicits.
Arguments op V : clear implicits.
End QueryCache.

(** The two instances: the papers routes ([CACHE_TTL = 60000], at most 100
    entries) and [routes/interactions.js] ([CACHE_TTL = 300000], at most 200
    entries). *)

Module Papers.
Definition CACHE_TTL : Z := 60000.
Definition MAX_SIZE : nat := 100.
Definition getCachedQuery {V : Type} :=
  @QueryCache.getCachedQuery V CACHE_TTL.
Definition setCachedQuery {V : Type} :=
  @QueryCache.setCachedQuery V MAX_SIZE.
End Papers.

Module Interactions.
Definition CACHE_TTL : Z := 300000.
Definition MAX_SIZE : nat := 200.
Definition getCachedQuery {V : Type} :=
  @QueryCache.getCachedQuery V CACHE_TTL.
Definition setCachedQuery {V : Type} :=
  @QueryCache.setCachedQuery V MAX_SIZE.

(** The template literals that quote [userId] and [researcherId],
    followed by a colon and [${userId}].  The id is that of the
    authenticated user ([req.user.userId]), a number; the template writes
    it with [Number::toString]. *)
Definition userIdPattern (userId : JsNumber.number) : string :=
  String JsString.dquote
    ("userId" ++ String JsString.dquote (":" ++ JsNumber.toString userId)).

Definition researcherIdPattern (userId : JsNumber.number) : string :=
  String JsString.dquote
    ("researcherId"
       ++ String JsString.dquote (":" ++ JsNumber.toString userId)).

Definition mentionsUser (userId : JsNumber.number) (key : string) : bool :=
  JsString.includes key (userIdPattern userId)
  || JsString.includes key (researcherIdPattern userId).

(** [invalidateUserCache(userId)] *)
Definition invalidateUserCache {V : Type} (userId : JsNumber.number)
    (queryCache : QueryCache.cache V) : QueryCache.cache V :=
  let keysToDelete :=
    filter (mentionsUser userId) (JsMap.keys queryCache) in
  fold_left (fun c key => JsMap.delete key c) keysToDelete queryCache.
End Interactions.

(** ** Cache effects of the write handlers

    Each constructor is one write route on the path where the write is
    performed (validation passed, the statement succeeded); [apply] is what
    the handler then does, in one synchronous step, to the two module-level
    [queryCache] maps. *)

Module Routes.
Section Handlers.
Context {V : Type}.

Record caches := mkCaches {
  papersCache : QueryCache.cache V;        (* the papers routes *)
  interactionsCache : QueryCache.cache V   (* routes/interactions.js *)
}.

Inductive write :=
| PapersDownload (paperId : string) (researcherId : JsNumber.number)
    (* POST /:id/download, papers routes *)
| PapersReview (paperId : string) (researcherId : JsNumber.number)
    (* POST /:id/review, papers routes, update or insert *)
| RecordSearch (researcherId : JsNumber.number)        (* POST /search *)
| RecordDownload (paperId : Json.value) (researcherId : JsNumber.number)
    (* POST /downloads *)
| SubmitReview (paperId : Json.value) (researcherId : JsNumber.number)
    (* POST /reviews, update or insert *)
| UpdateReview (reviewId : string) (userId : JsNumber.number)
    (* PUT /reviews/:id *)
| DeleteReview (reviewId : string) (userId : JsNumber.number).
    (* DELETE /reviews/:id *)

Definition apply (w : write) (s : caches) : caches :=
  match w with
  | PapersDownload paperId _
  | PapersReview paperId _ =>
      mkCaches
        (JsMap.delete (getCacheKey [("paperId", Json.Str paperId)])
           (papersCache s))
        (interactionsCache s)
  | RecordSearch userId
  | RecordDownload _ userId
  | SubmitReview _ userId
  | UpdateReview _ userId
  | DeleteReview _ userId =>
      mkCaches (papersCache s)
        (Interactions.invalidateUserCache userId (interactionsCache s))
  end.

(** The user whose request performs the write. *)
Definition writer (w : write) : JsNumber.number :=
  match w with
  | PapersDownload _ u | PapersReview _ u | RecordSearch u
  | RecordDownload _ u | SubmitReview _ u | UpdateReview _ u
  | DeleteReview _ u => u
  end.

Definition inPapersRoutes (w : write) : bool :=
  match w with
  | PapersDownload _ _ | PapersReview _ _ => true
  | _ => false
  end.
End Handlers.
Arguments caches V : clear implicits.
Arguments write : clear implicits.
End Routes.

(** ** Doubles

    SQL Server's [FLOAT] and JavaScript's numbers are IEEE 754 binary64
    values.  A finite double is the rational it denotes; [round] is the
    double nearest to a rational, ties to the even significand, with 53
    significant bits and gradual underflow.  The largest double bounds no
    value here: [round] is used on averages of [INT] ratings, which it
    never comes near. *)

Module Double.

(** The integer [e] with [2^e <= |q| < 2^(e+1)], for [q] other than 0. *)
Definition exponent (q : Q) : Z :=
  let e := Z.log2 (Z.abs (Qnum q)) - Z.log2 (Zpos (Qden q)) in
  if Qle_bool (Qpower 2 e) (Qabs q) then e else e - 1.

(** The integer nearest to [m]; of two equally near, the even one. *)
Definition roundInteger (m : Q) : Z :=
  let f := Qfloor m in
  match Qcompare (m - inject_Z f) (1 # 2) with
  | Lt => f
  | Gt => f + 1
  | Eq => if Z.even f then f else f + 1
  end.

(** The distance between neighbouring doubles around [q]. *)
Definition ulp (q : Q) : Q := Qpower 2 (Z.max (exponent q) (-1022) - 52).

Definition round (q : Q) : Q :=
  if Qeq_bool q 0 then 0%Q
  else (inject_Z (roundInteger (q / ulp q)) * ulp q)%Q.

End Double.

(** ** The search query of [GET /search/query] *)

Module Search.

(** *** [LIKE] *)

(** A [LIKE] pattern: [%] stands for any string, [_] for any single
    character, every other character for itself, compared without regard
    to case (the default collation).  Bracket classes and [ESCAPE] are not
    modelled; statements about patterns are made for text without [%],
    [_] and the opening bracket. *)
Inductive likeToken :=
| AnyString
| AnyChar
| Literal (c : ascii).

Definition likeTokenOf (c : ascii) : likeToken :=
  if Ascii.eqb c "%" then AnyString
  else if Ascii.eqb c "_" then AnyChar
  else Literal c.

Fixpoint likeTokens (pattern : string) : list likeToken :=
  match pattern with
  | EmptyString => []
  | String c pattern' => likeTokenOf c :: likeTokens pattern'
  end.

Definition lowerChar (c : ascii) : ascii :=
  let n := nat_of_ascii c in
  if ((65 <=? n) && (n <=? 90))%nat then ascii_of_nat (n + 32) else c.

Fixpoint lowerCase (s : string) : string :=
  match s with
  | EmptyString => EmptyString
  | String c s' => String (lowerChar c) (lowerCase s')
  end.

Definition sameChar (a b : ascii) : bool :=
  Ascii.eqb (lowerChar a) (lowerChar b).

Fixpoint likeMatch (p : list likeToken) : string -> bool :=
  match p with
  | [] => fun s => match s with EmptyString => true | _ => false end
  | AnyString :: p' =>
      fix star (s : string) : bool :=
        likeMatch p' s
        || match s with
           | EmptyString => false
           | String _ s' => star s'
           end
  | AnyChar :: p' =>
      fun s => match s with
               | EmptyString => false
               | String _ s' => likeMatch p' s'
               end
  | Literal c :: p' =>
      fun s => match s with
               | EmptyString => false
               | String d s' => sameChar c d && likeMatch p' s'
               end
  end.

(** Text without pattern characters, and the tokens it stands for. *)
Definition plainChar (c : ascii) : bool :=
  negb (Ascii.eqb c "%" || Ascii.eqb c "_" || Ascii.eqb c "[").

Definition plain (s : string) : bool := JsString.allChars plainChar s.

Fixpoint literals (s : string) : list likeToken :=
  match s with
  | EmptyString => []
  | String c s' => Literal c :: literals s'
  end.

(** [text LIKE pattern] *)
Definition like (text pattern : string) : bool :=
  likeMatch (likeTokens pattern) text.

(** [LIKE] on a column that may be [NULL]: unknown, which neither a [WHERE]
    nor a [CASE WHEN] takes. *)
Definition likeNullable (text : option string) (pattern : string) : bool :=
  match text with
  | Some t => like t pattern
  | None => false
  end.

(** *** Rows of the store *)

(** A [Paper] row with what the query joins to it: its [Field] (absent when
    [Field_ID] is [NULL] or dangling), its [Paper_Keywords] rows, its
    authors' first and last names, the ratings of its [Review] rows and the
    number of its [Download] rows.  Dates are day numbers. *)
Record paper := mkPaper {
  Paper_ID : Z;
  Title : string;
  Abstract : string;
  Publication_Date : Z;
  Field_ID : option Z;
  Field_Name : option string;
  Field_Description : option string;
  Keywords : list string;
  Authors : list (string * string);
  Ratings : list Z;
  Downloads : nat
}.

(** What the statement receives from the handler: the query text that
    passed the guard, the values bound by [request.input] ([@fieldId],
    [@dateFrom] and [@dateTo] only when the parameter is truthy,
    [@minRating] when it is above 0, [@offset] and [@limit] always, both
    [sql.Int] and neither checked by the handler), and [sortBy], which
    selects the [ORDER BY] text.  Dates are day numbers; [minRating] is the
    double [parseFloat(...) || 0], given as the rational it denotes (an
    infinite one is no [FLOAT] value).  A request whose parameter values
    the driver or the server refuses never gets an answer from the
    statement: the handler answers it from its [catch]. *)
Record request := mkRequest {
  query : string;
  fieldId : option Z;
  minRating : Q;
  dateFrom : option Z;
  dateTo : option Z;
  sortBy : Json.value;
  offset : Z;
  limit : Z
}.

(** [query.trim().split(/\s+/).filter(term => term.length > 0)] *)
Definition searchTerms (query : string) : list string :=
  filter (fun term => (0 <? String.length term)%nat)
         (JsString.split (JsString.trim query)).

Definition searchPattern (query : string) : string :=
  "%" ++ JsString.trim query ++ "%".

Definition termPattern (term : string) : string := "%" ++ term ++ "%".

Definition keywordsMatch (p : paper) (pattern : string) : bool :=
  existsb (fun k => like k pattern) (Keywords p).

Definition authorsMatch (p : paper) (pattern : string) : bool :=
  existsb (fun a => like (fst a) pattern || like (snd a) pattern)
          (Authors p).

(** The base search condition of [whereConditions]. *)
Definition baseCondition (query : string) (p : paper) : bool :=
  let pat := searchPattern query in
  like (Title p) pat
  || like (Abstract p) pat
  || likeNullable (Field_Name p) pat
  || likeNullable (Field_Description p) pat
  || keywordsMatch p pat
  || authorsMatch p pat.

Definition whereConditions (r : request) (p : paper) : bool :=
  baseCondition (query r) p
  && match fieldId r with
     | Some f => match Field_ID p with
                 | Some f' => Z.eqb f' f
                 | None => false
                 end
     | None => true
     end
  && match dateFrom r with
     | Some d => d <=? Publication_Date p
     | None => true
     end
  && match dateTo r with
     | Some d => Publication_Date p <=? d
     | None => true
     end.

Definition caseWhen (b : bool) (weight : Z) : Z := if b then weight else 0.

(** [relevanceScoreParts], each [CASE] evaluated on the paper. *)
Definition relevanceScoreParts (query : string) (p : paper) : list Z :=
  let pat := searchPattern query in
  ([caseWhen (like (Title p) pat) 1000]
     ++ map (fun term => caseWhen (like (Title p) (termPattern term)) 100)
            (searchTerms query)
     ++ [caseWhen (keywordsMatch p pat) 500;
         caseWhen (like (Abstract p) pat) 200;
         caseWhen (likeNullable (Field_Name p) pat) 150;
         caseWhen (authorsMatch p pat) 300])%list.

(** [relevanceScoreParts.join(' + ')] *)
Definition relevanceScore (query : string) (p : paper) : Z :=
  fold_right Z.add 0 (relevanceScoreParts query p).

(** [ISNULL(AVG(CAST(Rating as FLOAT)), 0)]: the sum of the ratings, which
    are [INT] values and add up without rounding, divided by their number
    in [FLOAT] arithmetic, that is, rounded to the nearest double. *)
Definition averageRating (ratings : list Z) : Q :=
  match ratings with
  | [] => 0%Q
  | _ => Double.round
           (Qdiv (inject_Z (fold_right Z.add 0 ratings))
                 (inject_Z (Z.of_nat (List.length ratings))))
  end.

(** A row of [SearchResults]. *)
Record row := mkRow {
  source : paper;
  Relevance_Score : Z;
  Download_Count : Z;
  Average_Rating : Q;
  Review_Count : Z
}.

Definition searchRow (query : string) (p : paper) : row :=
  mkRow p (relevanceScore query p) (Z.of_nat (Downloads p))
        (averageRating (Ratings p)) (Z.of_nat (List.length (Ratings p))).

(** [havingConditions]: [HAVING ... >= @minRating] when [minRating > 0], a
    comparison of two doubles. *)
Definition havingConditions (r : request) (x : row) : bool :=
  if Qle_bool (minRating r) 0 then true
  else Qle_bool (minRating r) (Average_Rating x).

(** The rows the query orders: the papers that pass the [WHERE] clause,
    scored, then the rating floor. *)
Definition searchResults (r : request) (papers : list paper) : list row :=
  filter (havingConditions r)
         (map (searchRow (query r)) (filter (whereConditions r) papers)).

(** *** [ORDER BY] *)

Inductive column :=
| Col_Relevance_Score
| Col_Average_Rating
| Col_Download_Count
| Col_Publication_Date.

Inductive direction := DESC | ASC.


(** [orderByClause]: the [switch (sortBy)], whose cases compare with [===],
    so that only a string selects a case other than the default. *)
Definition orderByClause (sortBy : Json.value) : list (column * direction) :=
  if Json.strictEquals sortBy "date" then
    [(Col_Publication_Date, DESC); (Col_Relevance_Score, DESC)]
  else if Json.strictEquals sortBy "rating" then
    [(Col_Average_Rating, DESC); (Col_Relevance_Score, DESC);
     (Col_Publication_Date, DESC)]
  else if Json.strictEquals sortBy "downloads" then
    [(Col_Download_Count, DESC); (Col_Relevance_Score, DESC);
     (Col_Publication_Date, DESC)]
  else
    [(Col_Relevance_Score, DESC); (Col_Average_Rating, DESC);
     (Col_Download_Count, DESC); (Col_Publication_Date, DESC)].

Definition columnValue (c : column) (x : row) : Q :=
  match c with
  | Col_Relevance_Score => inject_Z (Relevance_Score x)
  | Col_Average_Rating => Average_Rating x
  | Col_Download_Count => inject_Z (Download_Count x)
  | Col_Publication_Date => inject_Z (Publication_Date (source x))
  end.

(** Comparison of two rows under a list of sort keys: [Lt] when [a] sorts
    before [b], [Eq] when the keys do not tell them apart. *)
Fixpoint compareRows (keys : list (column * direction)) (a b : row)
  : comparison :=
  match keys with
  | [] => Eq
  | (c, d) :: keys' =>
      match (match d with
             | DESC => Qcompare (columnValue c b) (columnValue c a)
             | ASC => Qcompare (columnValue c a) (columnValue c b)
             end) with
      | Eq => compareRows keys' a b
      | r => r
      end
  end.

Definition notAfter (keys : list (column * direction)) (a b : row) : Prop :=
  compareRows keys a b <> Gt.

(** What [ORDER BY] promises of its output: the same rows, none placed
    after a row it sorts strictly before.  Rows the keys do not tell apart
    may come in either order. *)
Definition orderedBy (keys : list (column * direction))
    (input output : list row) : Prop :=
  Permutation input output /\ StronglySorted (notAfter keys) output.

(** The largest value of [sql.Int], a 32-bit integer. *)
Definition maxInt : Z := 2147483647.

(** The requests the statement runs for.  [@offset] and [@limit] are bound
    as [sql.Int], which holds no value beyond 32 bits, and
    [OFFSET @offset ROWS FETCH NEXT @limit ROWS ONLY] raises an error when
    the offset is negative or the number of rows to fetch is not above 0.
    For any other request the handler answers from its [catch]. *)
Definition pageable (r : request) : bool :=
  (0 <=? offset r) && (offset r <=? maxInt)
  && (0 <? limit r) && (limit r <=? maxInt).

Definition page (r : request) (ordered : list row) : list row :=
  firstn (Z.to_nat (limit r)) (skipn (Z.to_nat (offset r)) ordered).

(** A result of the statement for a request over the stored papers: the
    rows the handler puts in its successful response. *)
Definition answers (r : request) (papers : list paper) (out : list row)
  : Prop :=
  pageable r = true
  /\ exists ordered,
       orderedBy (orderByClause (sortBy r)) (searchResults r papers) ordered
       /\ out = page r ordered.

End Search.

(** ** The guards of the two search handlers *)

Module Guard.

Record response := mkResponse {
  status : Z;
  success : bool;
  message : string
}.

(** [res.status(400).json({ success: false, message: 'Search query is
    required', data: null })] *)
Definition invalidQuery : response :=
  mkResponse 400 false "Search query is required".

(** The answer of the [catch] of [GET /search/query]. *)
Definition searchFailed : response := mkResponse 500 false "Search failed".

(** What evaluating a guard comes to: the request is rejected, the
    evaluation throws, or the text goes on to the rest of the handler. *)
Inductive verdict :=
| Rejected
| Thrown
| Passed (text : string).

(** [!query || query.trim().length === 0] on [req.query.q], which is
    [undefined], a string, or an array or object when the parameter is
    repeated or bracketed.  A truthy value that is not a string has no
    [trim] method: the call throws a [TypeError]. *)
Definition queryParamVerdict (q : Json.value) : verdict :=
  if negb (Json.truthy q) then Rejected
  else match q with
       | Json.Str s =>
           if (String.length (JsString.trim s) =? 0)%nat then Rejected
           else Passed s
       | _ => Thrown
       end.

Definition rejectsQueryParam (q : Json.value) : bool :=
  match queryParamVerdict q with
  | Rejected => true
  | _ => false
  end.

(** [GET /search/query] of the papers routes: the guard, inside the
    handler's [try], then the rest of the handler. *)
Definition getSearchQuery (q : Json.value)
    (rest : string -> response) : response :=
  match queryParamVerdict q with
  | Rejected => invalidQuery
  | Thrown => searchFailed
  | Passed s => rest s
  end.

(** [!query || typeof query !== 'string' || !query.trim()] on
    [req.body.query]: nothing is called on a value that is not a string. *)
Definition rejectsBodyQuery (v : Json.value) : bool :=
  negb (Json.truthy v)
  || match v with
     | Json.Str s => (String.length (JsString.trim s) =? 0)%nat
     | _ => true
     end.

(** [POST /search] of interactions.js: the guard, then the rest of the
    handler. *)
Definition postSearch (v : Json.value)
    (rest : string -> response) : response :=
  if rejectsBodyQuery v then invalidQuery
  else match v with
       | Json.Str s => rest s
       | _ => invalidQuery
       end.

End Guard.

(** ** Owner tags

    The entity-scoped tags of the data model ([user:<id>], [paper:<id>]),
    read off the parameter object a key is made from.  The program stores
    no tags; these definitions follow the specification and are what the
    invalidation statements are compared with. *)

Module Spec.
Inductive tag :=
| UserTag (id : JsNumber.number)
| PaperTag (id : string).

Definition idText (v : Json.value) : option string :=
  match v with
  | Json.Str s => Some s
  | Json.Number n => Some (JsNumber.toString n)
  | _ => None
  end.

Definition userTagOf (name : string) (params : Json.object) : list tag :=
  match Json.lookup name (Json.defined params) with
  | Some (Json.Number u) => [UserTag u]
  | _ => []
  end.

Definition paperTagOf (params : Json.object) : list tag :=
  match Json.lookup "paperId" (Json.defined params) with
  | Some v => match idText v with
              | Some s => [PaperTag s]
              | None => []
              end
  | None => []
  end.

Definition ownerTags (params : Json.object) : list tag :=
  (userTagOf "userId" params ++ userTagOf "researcherId" params
     ++ paperTagOf params)%list.

Definition tag_eqb (a b : tag) : bool :=
  match a, b with
  | UserTag x, UserTag y =>
      String.eqb (JsNumber.toString x) (JsNumber.toString y)
  | PaperTag x, PaperTag y => String.eqb x y
  | _, _ => false
  end.

Definition hasTag (t : tag) (params : Json.object) : bool :=
  existsb (tag_eqb t) (ownerTags params).

(** The entities a write affects. *)
Definition affected (w : Routes.write) : list tag :=
  match w with
  | Routes.PapersDownload p u | Routes.PapersReview p u =>
      [PaperTag p; UserTag u]
  | Routes.RecordSearch u => [UserTag u]
  | Routes.RecordDownload p u | Routes.SubmitReview p u =>
      (match idText p with Some s => [PaperTag s] | None => [] end
         ++ [UserTag u])%list
  | Routes.UpdateReview _ u | Routes.DeleteReview _ u => [UserTag u]
  end.

(** The text is empty or white space only. *)
Definition blank (s : string) : bool :=
  JsString.allChars JsString.isWhiteSpace s.

(** [sub] occurs in [text], letter case disregarded. *)
Definition containsCI (text sub : string) : bool :=
  JsString.includes (Search.lowerCase text) (Search.lowerCase sub).

Definition containsCINullable (text : option string) (sub : string) : bool :=
  match text with
  | Some t => containsCI t sub
  | None => false
  end.

Definition weight (b : bool) (w : Z) : Z := if b then w else 0.

(** The terms of a query: its maximal runs of characters other than white
    space, in order.  [cur] is the run being read. *)
Fixpoint termsFrom (cur : string) (s : string) : list string :=
  match s with
  | EmptyString => if (0 <? String.length cur)%nat then [cur] else []
  | String c s' =>
      if JsString.isWhiteSpace c
      then if (0 <? String.length cur)%nat
           then cur :: termsFrom EmptyString s'
           else termsFrom EmptyString s'
      else termsFrom (cur ++ String c EmptyString) s'
  end.

Definition terms (rawText : string) : list string :=
  termsFrom EmptyString rawText.

(** The relevance score of the specification: independent all-or-nothing
    signals, summed. *)
Definition relevanceScore (rawText : string) (p : Search.paper) : Z :=
  let q := JsString.trim rawText in
  weight (containsCI (Search.Title p) q) 1000
  + 100 * Z.of_nat (List.length
                      (filter (containsCI (Search.Title p))
                              (terms rawText)))
  + weight (existsb (fun k => containsCI k q) (Search.Keywords p)) 500
  + weight (existsb (fun a => containsCI (fst a) q || containsCI (snd a) q)
                    (Search.Authors p)) 300
  + weight (containsCI (Search.Abstract p) q) 200
  + weight (containsCINullable (Search.Field_Name p) q) 150.

(** The matching predicate of the specification. *)
Definition eligible (rawText : string) (p : Search.paper) : bool :=
  let q := JsString.trim rawText in
  containsCI (Search.Title p) q
  || containsCI (Search.Abstract p) q
  || containsCINullable (Search.Field_Name p) q
  || containsCINullable (Search.Field_Description p) q
  || existsb (fun k => containsCI k q) (Search.Keywords p)
  || existsb (fun a => containsCI (fst a) q || containsCI (snd a) q)
             (Search.Authors p).

Inductive sortMode := relevance | date | rating | downloads.

(** The mode a [sortBy] value selects: one of the three other names, or
    [relevance], the default. *)
Definition modeOf (sortBy : Json.value) : sortMode :=
  match sortBy with
  | Json.Str s =>
      if String.eqb s "date" then date
      else if String.eqb s "rating" then rating
      else if String.eqb s "downloads" then downloads
      else relevance
  | _ => relevance
  end.

(** The key chain of each mode, every key descending. *)
Definition keyChain (m : sortMode) : list Search.column :=
  match m with
  | relevance => [Search.Col_Relevance_Score; Search.Col_Average_Rating;
                  Search.Col_Download_Count; Search.Col_Publication_Date]
  | date => [Search.Col_Publication_Date; Search.Col_Relevance_Score]
  | rating => [Search.Col_Average_Rating; Search.Col_Relevance_Score;
               Search.Col_Publication_Date]
  | downloads => [Search.Col_Download_Count; Search.Col_Relevance_Score;
                  Search.Col_Publication_Date]
  end.

Definition descending (chain : list Search.column)
  : list (Search.column * Search.direction) :=
  map (fun c => (c, Search.DESC)) chain.


(** The two rows agree on every key of the chain. *)
Definition tied (chain : list Search.column) (a b : Search.row) : Prop :=
  Forall (fun c => (Search.columnValue c a == Search.columnValue c b)%Q)
         chain.
End Spec.

(** Pairwise distinctness of a list of keys, as a test. *)
Fixpoint distinctb (l : list string) : bool :=
  match l with
  | [] => true
  | k :: l' => negb (existsb (String.eqb k) l') && distinctb l'
  end.

(** ** The read routes and their cache keys *)

Module Reads.

(** [parseInt(...) || fallback] and [parseFloat(...) || fallback]:
    [parsed] is what the parse returned, any number, [NaN] included. *)
Definition orDefault (parsed : JsNumber.number) (fallback : Z)
  : JsNumber.number :=
  if JsNumber.truthy parsed then parsed else JsNumber.ofZ fallback.

(** [req.query.sortBy || fallback] *)
Definition orText (raw : Json.value) (fallback : string) : Json.value :=
  if Json.truthy raw then raw else Json.Str fallback.

(** The cached reads of the papers routes, with what their handlers read
    from the request: [page], [limit] and [minRating] are the results of
    [parseInt] and [parseFloat]; [fieldId], [search], [dateFrom], [dateTo]
    and [sortBy] are query parameters as the parser delivers them
    ([undefined], a string, an array or an object); [query] is the text that
    passed the guard and [paperId] a path parameter, both strings. *)
Inductive papersRead :=
| PaperList (page limit : JsNumber.number) (fieldId search : Json.value)
    (* GET / *)
| PaperSearch (query : string) (page limit : JsNumber.number)
    (fieldId : Json.value) (minRating : JsNumber.number)
    (dateFrom dateTo sortBy : Json.value)
    (* GET /search/query *)
| PaperDetail (paperId : string)
    (* GET /:id *)
| TopRated (limit : JsNumber.number).
    (* GET /top-rated/by-field *)

(** The object literal each handler passes to [getCacheKey]. *)
Definition papersParams (r : papersRead) : Json.object :=
  match r with
  | PaperList page limit fieldId search =>
      [("page", Json.Number (orDefault page 1));
       ("limit", Json.Number (orDefault limit 12));
       ("fieldId", fieldId); ("search", search)]
  | PaperSearch query page limit fieldId minRating dateFrom dateTo sortBy =>
      [("search", Json.Str query);
       ("page", Json.Number (orDefault page 1));
       ("limit", Json.Number (orDefault limit 12));
       ("fieldId", fieldId);
       ("minRating", Json.Number (orDefault minRating 0));
       ("dateFrom", dateFrom); ("dateTo", dateTo);
       ("sortBy", orText sortBy "relevance")]
  | PaperDetail paperId => [("paperId", Json.Str paperId)]
  | TopRated limit =>
      [("topRated", Json.Bool true);
       ("limit", Json.Number (orDefault limit 3))]
  end.

(** The cached reads of [routes/interactions.js]; [userId] is
    [parseInt(req.params.userId)]. *)
Inductive interactionsRead :=
| UserSearches (userId page limit : JsNumber.number)
    (dateFrom dateTo : Json.value)
    (* GET /searches/user/:userId *)
| PopularSearches (limit days : JsNumber.number)
    (* GET /searches/popular *)
| UserDownloads (userId page limit : JsNumber.number)
    (fieldId dateFrom dateTo : Json.value)
    (* GET /downloads/user/:userId *)
| DownloadStats (userId : JsNumber.number)
    (* GET /downloads/user/:userId/stats *)
| PaperReviews (paperId : string) (page limit : JsNumber.number)
    (sortBy : Json.value)
    (* GET /reviews/paper/:paperId *)
| UserReviews (userId page limit : JsNumber.number).
    (* GET /reviews/user/:userId *)

Definition interactionsParams (r : interactionsRead) : Json.object :=
  match r with
  | UserSearches userId page limit dateFrom dateTo =>
      [("userId", Json.Number userId);
       ("page", Json.Number (orDefault page 1));
       ("limit", Json.Number (orDefault limit 10));
       ("dateFrom", dateFrom); ("dateTo", dateTo);
       ("type", Json.Str "searches")]
  | PopularSearches limit days =>
      [("popular", Json.Bool true);
       ("limit", Json.Number (orDefault limit 10));
       ("days", Json.Number (orDefault days 30))]
  | UserDownloads userId page limit fieldId dateFrom dateTo =>
      [("userId", Json.Number userId);
       ("page", Json.Number (orDefault page 1));
       ("limit", Json.Number (orDefault limit 10));
       ("fieldId", fieldId);
       ("dateFrom", dateFrom); ("dateTo", dateTo);
       ("type", Json.Str "downloads")]
  | DownloadStats userId =>
      [("userId", Json.Number userId); ("type", Json.Str "downloadStats")]
  | PaperReviews paperId page limit sortBy =>
      [("paperId", Json.Str paperId);
       ("page", Json.Number (orDefault page 1));
       ("limit", Json.Number (orDefault limit 10));
       ("sortBy", orText sortBy "date");
       ("type", Json.Str "paperReviews")]
  | UserReviews userId page limit =>
      [("userId", Json.Number userId);
       ("page", Json.Number (orDefault page 1));
       ("limit", Json.Number (orDefault limit 10));
       ("type", Json.Str "userReviews")]
  end.

(** The user whose data a read returns, for the four per-user reads. *)
Definition userOf (r : interactionsRead) : option JsNumber.number :=
  match r with
  | UserSearches userId _ _ _ _ => Some userId
  | UserDownloads userId _ _ _ _ _ => Some userId
  | DownloadStats userId => Some userId
  | UserReviews userId _ _ => Some userId
  | PopularSearches _ _ => None
  | PaperReviews _ _ _ _ => None
  end.

(** The route of a cached read. *)
Definition papersRoute (r : papersRead) : string :=
  match r with
  | PaperList _ _ _ _ => "GET /"
  | PaperSearch _ _ _ _ _ _ _ _ => "GET /search/query"
  | PaperDetail _ => "GET /:id"
  | TopRated _ => "GET /top-rated/by-field"
  end.

Definition interactionsRoute (r : interactionsRead) : string :=
  match r with
  | UserSearches _ _ _ _ _ => "GET /searches/user/:userId"
  | PopularSearches _ _ => "GET /searches/popular"
  | UserDownloads _ _ _ _ _ _ => "GET /downloads/user/:userId"
  | DownloadStats _ => "GET /downloads/user/:userId/stats"
  | PaperReviews _ _ _ _ => "GET /reviews/paper/:paperId"
  | UserReviews _ _ _ => "GET /reviews/user/:userId"
  end.

(** Two parameter objects with the same property names whose values are
    written the same, one by one. *)
Definition writtenAlike (P1 P2 : Json.object) : Prop :=
  Forall2 (fun p q => fst p = fst q
                      /\ Json.written (snd p) = Json.written (snd q)) P1 P2.

End Reads.

(** ** The cached read handler

    Every cached [GET] handler has the same shape: build the key, ask the
    cache, answer from it on a hit; otherwise [await] the database, compute
    the response and, on the success path, store it before answering.  The
    paths that answer without storing (404, and 500 from the [catch]) are
    [Failed].  The handler is cut where it awaits: [lookup] is what it does
    before the first [await] and [store] what it does after the last one, on
    the cache as the other handlers have left it by then.  [serve] is the
    run in which no other handler touches the cache in between. *)

Module CachedRoute.
Section Route.
Context {V : Type}.
Variable CACHE_TTL : Z.
Variable MAX_SIZE : nat.

Inductive outcome :=
| Computed (response : V)
| Failed (response : V).

(** Up to the first [await]: [getCachedQuery(getCacheKey(params))] at
    instant [t1].  The payloads are objects, so [if (cached)] holds exactly
    on a hit. *)
Definition lookup (params : Json.object) (t1 : Z)
    (queryCache : QueryCache.cache V) : option V * QueryCache.cache V :=
  QueryCache.getCachedQuery CACHE_TTL t1 (getCacheKey params) queryCache.

(** After the last [await], at instant [t2], on the cache as it is then. *)
Definition store (params : Json.object) (t2 : Z) (compute : outcome)
    (queryCache : QueryCache.cache V) : V * QueryCache.cache V :=
  match compute with
  | Computed response =>
      (response,
       QueryCache.setCachedQuery MAX_SIZE t2 (getCacheKey params) response
         queryCache)
  | Failed response => (response, queryCache)
  end.

(** A handler that runs with no other handler in between. *)
Definition serve (params : Json.object) (t1 t2 : Z) (compute : outcome)
    (queryCache : QueryCache.cache V) : V * QueryCache.cache V :=
  match lookup params t1 queryCache with
  | (Some cached, queryCache1) => (cached, queryCache1)
  | (None, queryCache1) => store params t2 compute queryCache1
  end.
End Route.
Arguments outcome V : clear implicits.
End CachedRoute.

(** ** Paging *)

Module Paging.

(** [const offset = (page - 1) * limit] *)
Definition offsetOf (page limit : Z) : Z := (page - 1) * limit.

(** [OFFSET @offset ROWS FETCH NEXT @limit ROWS ONLY] on an ordered result,
    for [page >= 1] and [limit >= 1]. *)
Definition pageRows {A : Type} (page limit : Z) (ordered : list A) : list A :=
  firstn (Z.to_nat limit) (skipn (Z.to_nat (offsetOf page limit)) ordered).


End Paging.

(** ** The count query of [GET /search/query] *)

Module CountQuery.

(** [AVG(CAST(Rating as FLOAT))] without [ISNULL]: [NULL] over no rows. *)
Definition averageRatingNullable (ratings : list Z) : option Q :=
  match ratings with
  | [] => None
  | _ => Some (Search.averageRating ratings)
  end.

(** The [WHERE] clause of [countQuery]: [whereConditions], and the rating
    floor on the raw average when [minRating > 0]. *)
Definition countCondition (r : Search.request) (p : Search.paper) : bool :=
  Search.whereConditions r p
  && (if Qle_bool (Search.minRating r) 0 then true
      else match averageRatingNullable (Search.Ratings p) with
           | Some a => Qle_bool (Search.minRating r) a
           | None => false
           end).

(** [COUNT(DISTINCT p.Paper_ID)] *)
Definition total (r : Search.request) (papers : list Search.paper) : nat :=
  List.length
    (nodup Z.eq_dec
       (map Search.Paper_ID (filter (countCondition r) papers))).

End CountQuery.

(** ** Keys that mention no user

    A scan of a key for a quote followed by a given character; used to show
    which keys [invalidateUserCache] leaves alone. *)

Module Scan.

(** No quote of [s] is followed by [c]. *)
Fixpoint noQuoteThen (c : ascii) (s : string) : bool :=
  match s with
  | EmptyString => true
  | String a s' =>
      negb (Ascii.eqb a JsString.dquote
            && match s' with
               | EmptyString => false
               | String b _ => Ascii.eqb b c
               end)
      && noQuoteThen c s'
  end.

(** The text holds no quote. *)
Definition quoteless (s : string) : bool :=
  JsString.allChars (fun a => negb (Ascii.eqb a JsString.dquote)) s.

(** The characters of the text of a number, finite or not: those of a
    numeral, and letters. *)
Definition isNumberChar (c : ascii) : bool :=
  let n := nat_of_ascii c in
  JsonRead.isNumeralChar c
  || ((65 <=? n) && (n <=? 90) || (97 <=? n) && (n <=? 122))%nat.

End Scan.

(** ** Devices for the statements about traces and orderings

    [lastPut] reads a trace; [sortRows] builds one admissible order.
    Neither is part of the program. *)

Module Trace.
Section LastPut.
Context {V : Type}.

(** The value and instant of the latest [setCachedQuery(key, ...)] of a
    trace, if there is one. *)
Fixpoint lastPut (key : string) (ops : list (QueryCache.op V))
  : option (V * Z) :=
  match ops with
  | [] => None
  | o :: ops' =>
      match lastPut key ops' with
      | Some x => Some x
      | None =>
          match o with
          | QueryCache.Put k d t =>
              if String.eqb k key then Some (d, t) else None
          | QueryCache.Get _ _ => None
          end
      end
  end.

(** The calls of a trace made by other handlers while the entry stored
    under [key] at instant [t] is live: none stores under [key], and every
    read of [key] is made before the entry expires. *)
Definition leavesAlone (CACHE_TTL : Z) (key : string) (t : Z)
    (ops : list (QueryCache.op V)) : bool :=
  forallb (fun o => match o with
                    | QueryCache.Put k _ _ => negb (String.eqb k key)
                    | QueryCache.Get k now =>
                        negb (String.eqb k key) || (now - t <? CACHE_TTL)
                    end) ops.

(** No call of the trace stores under [key]. *)
Definition neverStores (key : string) (ops : list (QueryCache.op V)) : bool :=
  forallb (fun o => match o with
                    | QueryCache.Put k _ _ => negb (String.eqb k key)
                    | QueryCache.Get _ _ => true
                    end) ops.

(** The entry [e] of [key] stands in the map with at most [a] entries
    behind it. *)
Definition holds (key : string) (e : QueryCache.entry V) (a : nat)
    (c : QueryCache.cache V) : Prop :=
  exists before rest,
    c = (before ++ (key, e) :: rest)%list /\ (List.length rest <= a)%nat.
End LastPut.
End Trace.

Module Order.




End Order.

(** Sample traces on which the statements below are exercised. *)
Module Samples.
Definition key_of (i : nat) : string :=
  NilZero.string_of_uint (Nat.to_uint i).

(** [n] insertions of distinct keys, the [i]-th at instant [i]. *)
Definition inserts (n : nat) : list (QueryCache.op nat) :=
  map (fun i => QueryCache.Put (key_of i) i (Z.of_nat i)) (seq 0 n).

(** Parameter objects as the handlers write them. *)
Definition downloadStats (userId : Z) : Json.object :=
  [("userId", Json.Num userId); ("type", Json.Str "downloadStats")].

Definition userReviews (userId page limit : Z) : Json.object :=
  [("userId", Json.Num userId); ("page", Json.Num page);
   ("limit", Json.Num limit); ("type", Json.Str "userReviews")].

Definition paperReviews (paperId : string) (page limit : Z) : Json.object :=
  [("paperId", Json.Str paperId); ("page", Json.Num page);
   ("limit", Json.Num limit); ("sortBy", Json.Str "date");
   ("type", Json.Str "paperReviews")].

Definition paperDetail (paperId : string) : Json.object :=
  [("paperId", Json.Str paperId)].

Definition entryAt (d : nat) (t : Z) : QueryCache.entry nat :=
  QueryCache.mkEntry d t.

(** A paper with a title and an abstract and nothing else. *)
Definition bare (id : Z) (title abstract : string) : Search.paper :=
  Search.mkPaper id title abstract 0 None None None [] [] [] 0.

Definition titled : Search.paper := bare 1 "Neural Networks" "".

(** [neural] alone in the abstract. *)
Definition abstractWord : Search.paper :=
  bare 2 "Learning systems" "A neural approach to control".

(** The whole query text in the abstract. *)
Definition abstractPhrase : Search.paper :=
  bare 3 "Learning systems" "We train neural networks for control".

(** The first page of twelve, no filter. *)
Definition unfiltered (q sortBy : string) : Search.request :=
  Search.mkRequest q None 0%Q None None (Json.Str sortBy) 0 12.

(** Two stored papers alike in everything but their id. *)
Definition twin (id : Z) : Search.paper := bare id "Neural Networks" "".



(** Papers with the query text as their title and the given ratings. *)
Definition rated (id : Z) (ratings : list Z) : Search.paper :=
  Search.mkPaper id "Neural Networks" "" 0 None None None [] [] ratings 0.

(** Ten reviews that average 3.9, two that average 4, ten that average
    3.7. *)
Definition average39 : Search.paper := rated 6 [4; 4; 4; 4; 4; 4; 4; 4; 4; 3].
Definition average40 : Search.paper := rated 7 [5; 3].
Definition average37 : Search.paper := rated 8 [4; 4; 4; 4; 4; 4; 4; 3; 3; 3].

(** The first page of twelve under a rating floor. *)
Definition rated_at_least (minRating : Q) : Search.request :=
  Search.mkRequest "neural networks" None minRating None None
    (Json.Str "relevance") 0 12.

(** 100 insertions, a read of the first key, a 101st insertion. *)
Definition overflow_trace : list (QueryCache.op nat) :=
  (inserts 100 ++ [QueryCache.Get (key_of 0) 500;
                   QueryCache.Put (key_of 100) 100%nat 600])%list.
End Samples.

(** * Part II: properties *)

Lemma distinctb_NoDup l : distinctb l = true -> NoDup l.
Proof.
  induction l as [|k l IH]; simpl; [constructor|].
  intros H. apply andb_true_iff in H as [Hk Hl].
  constructor; [|now apply IH].
  intros Hin. apply negb_true_iff in Hk.
  assert (existsb (String.eqb k) l = true); [|congruence].
  apply existsb_exists. exists k. split; [assumption | apply String.eqb_refl].
Qed.

(** ** Strings and cache keys *)

Lemma append_assoc (a b c : string) : (a ++ b) ++ c = a ++ (b ++ c).
Proof. induction a as [|x a IH]; simpl; [reflexivity | now rewrite IH]. Qed.

Lemma append_nil_r (a : string) : a ++ "" = a.
Proof. induction a as [|x a IH]; simpl; [reflexivity | now rewrite IH]. Qed.


(** ** Numbers and their text *)

Lemma digitOfChar_digitChar (d : JsNumber.digit) :
  NumberRead.digitOfChar (JsNumber.digitChar d) = Some d.
Proof. destruct d as [|[]]; reflexivity. Qed.

Lemma spanDigits_text (ds : list JsNumber.digit) (rest : string) :
  NumberRead.startsWithDigit rest = false ->
  NumberRead.spanDigits (JsNumber.digitsText ds ++ rest) = (ds, rest).
Proof.
  intros Hrest. induction ds as [|d ds IH]; simpl.
  - destruct rest as [|c r]; [reflexivity|]. simpl in *.
    now destruct (NumberRead.digitOfChar c).
  - now rewrite digitOfChar_digitChar, IH.
Qed.

Lemma dropZeros_zeros (m : nat) (ds : list JsNumber.digit) :
  JsNumber.dropZeros (JsNumber.zeros m ++ ds)
  = ((m + fst (JsNumber.dropZeros ds))%nat, snd (JsNumber.dropZeros ds)).
Proof.
  induction m as [|m IH]; simpl.
  - now destruct (JsNumber.dropZeros ds).
  - unfold JsNumber.zeros in IH. now rewrite IH.
Qed.

Lemma rev_zeros (m : nat) : rev (JsNumber.zeros m) = JsNumber.zeros m.
Proof.
  unfold JsNumber.zeros. induction m as [|m IH]; [reflexivity|].
  simpl. rewrite IH. clear IH.
  induction m as [|m IH]; [reflexivity|]. simpl. now rewrite IH.
Qed.

Lemma digits_shape (d : JsNumber.decimal) :
  exists body z,
    JsNumber.digits d = (body ++ [JsNumber.Dn z])%list
    /\ JsNumber.canonical (JsNumber.digits d)
       = Some (JsNumber.lead d, JsNumber.more d).
Proof.
  destruct d as [neg a [[middle last]|] n]; unfold JsNumber.digits; simpl.
  - exists (JsNumber.Dn a :: middle), last. split; [reflexivity|].
    rewrite rev_app_distr. simpl. now rewrite rev_involutive.
  - exists [], a. split; reflexivity.
Qed.

Lemma stripTrailingZeros_digits (d : JsNumber.decimal) (m : nat) :
  JsNumber.stripTrailingZeros (JsNumber.digits d ++ JsNumber.zeros m)
  = JsNumber.digits d.
Proof.
  destruct (digits_shape d) as [body [z [Hd _]]].
  unfold JsNumber.stripTrailingZeros.
  rewrite rev_app_distr, rev_zeros, dropZeros_zeros, Hd.
  rewrite rev_app_distr. simpl. now rewrite rev_involutive.
Qed.

Lemma dropZeros_digits (d : JsNumber.decimal) (tail : list JsNumber.digit) :
  JsNumber.dropZeros (JsNumber.digits d ++ tail)
  = (O, (JsNumber.digits d ++ tail)%list).
Proof. reflexivity. Qed.

(** Digits with zeros before and after denote the number of the digits. *)
Lemma ofDigits_padded (neg : bool) (d : JsNumber.decimal) (before after : nat)
    (n : Z) :
  JsNumber.ofDigits neg
    (JsNumber.zeros before ++ JsNumber.digits d ++ JsNumber.zeros after) n
  = Some (JsNumber.Finite
            (JsNumber.mkDecimal neg (JsNumber.lead d) (JsNumber.more d)
               (n - Z.of_nat before))).
Proof.
  unfold JsNumber.ofDigits. rewrite dropZeros_zeros, dropZeros_digits.
  cbn [fst snd]. rewrite Nat.add_0_r.
  rewrite stripTrailingZeros_digits.
  destruct (digits_shape d) as [_ [_ [_ ->]]].
  unfold JsNumber.digits at 1. cbn [app]. reflexivity.
Qed.

Lemma naturalText_read (a : Z) :
  0 <= a ->
  NilEmpty.uint_of_string (JsNumber.naturalText a)
  = Some (N.to_uint (Z.to_N a)).
Proof. intros _. unfold JsNumber.naturalText. apply NilEmpty.usu. Qed.

Lemma readExponent_text (e : Z) :
  NumberRead.readExponent (JsNumber.exponentText e) = Some e.
Proof.
  unfold JsNumber.exponentText.
  destruct (Z.ltb_spec e 0) as [Hneg|Hpos]; cbn [append];
    unfold NumberRead.readExponent;
    change (Ascii.eqb "e" "e") with true; cbv iota;
    rewrite naturalText_read by lia;
    rewrite DecimalN.Unsigned.of_to, Z2N.id by lia;
    [change (Ascii.eqb "-" "+") with false;
     change (Ascii.eqb "-" "-") with true
    | change (Ascii.eqb "+" "+") with true]; cbv iota; f_equal; lia.
Qed.

Lemma length_digits_pos (d : JsNumber.decimal) :
  (1 <= List.length (JsNumber.digits d))%nat.
Proof. unfold JsNumber.digits. simpl. lia. Qed.

Lemma digits_tl (d : JsNumber.decimal) :
  JsNumber.digits d = JsNumber.Dn (JsNumber.lead d) :: tl (JsNumber.digits d).
Proof. reflexivity. Qed.

Lemma app_nil_zeros (l : list JsNumber.digit) :
  l = (JsNumber.zeros 0 ++ l ++ JsNumber.zeros 0)%list.
Proof. simpl. now rewrite app_nil_r. Qed.

Lemma startsWithDigit_exponent (e : option Z) :
  NumberRead.startsWithDigit (NumberRead.optionalExponent e) = false.
Proof. destruct e; reflexivity. Qed.

Lemma fraction_first_char (e : option Z) :
  match NumberRead.optionalExponent e with
  | String c _ => Ascii.eqb c "." = false
  | EmptyString => True
  end.
Proof. destruct e; simpl; auto. Qed.

(** Reading a numeral: whole part, optional fraction, optional exponent. *)
Lemma readUnsigned_text (neg : bool) (whole : list JsNumber.digit)
    (f : option (list JsNumber.digit)) (e : option Z) :
  NumberRead.readUnsigned neg
    (JsNumber.digitsText whole ++ NumberRead.fractionText f ++ NumberRead.optionalExponent e)
  = JsNumber.ofDigits neg
      (whole ++ match f with Some ds => ds | None => [] end)
      (Z.of_nat (List.length whole)
       + match e with Some x => x | None => 0 end).
Proof.
  unfold NumberRead.readUnsigned.
  rewrite spanDigits_text
    by (destruct f; [reflexivity | apply startsWithDigit_exponent]).
  destruct f as [ds|]; cbn [NumberRead.fractionText append].
  - change (Ascii.eqb "." ".") with true. cbv iota.
    rewrite spanDigits_text by apply startsWithDigit_exponent.
    destruct e as [x|]; cbn [NumberRead.optionalExponent];
      [now rewrite readExponent_text | reflexivity].
  - pose proof (fraction_first_char e) as Hc.
    destruct e as [x|]; cbn [NumberRead.optionalExponent] in *.
    + unfold JsNumber.exponentText in Hc |- *. cbn [append] in Hc |- *.
      rewrite Hc. fold (JsNumber.exponentText x).
      change (String "e" ((if x <? 0 then "-" else "+")
                          ++ JsNumber.naturalText (Z.abs x)))
        with (JsNumber.exponentText x).
      now rewrite readExponent_text.
    + reflexivity.
Qed.

Lemma text_whole (a : string) : a = a ++ NumberRead.fractionText None ++ NumberRead.optionalExponent None.
Proof. simpl. now rewrite append_nil_r. Qed.

(** The text of a positive finite number reads back as the number. *)
Lemma readUnsigned_positiveText (neg : bool) (d : JsNumber.decimal) :
  NumberRead.readUnsigned neg (JsNumber.positiveText d)
  = Some (JsNumber.Finite
            (JsNumber.mkDecimal neg (JsNumber.lead d) (JsNumber.more d)
               (JsNumber.point d))).
Proof.
  unfold JsNumber.positiveText.
  pose proof (length_digits_pos d) as Hk.
  set (k := Z.of_nat (List.length (JsNumber.digits d))).
  set (n := JsNumber.point d).
  assert (Hexp : forall tail : option (list JsNumber.digit),
            JsNumber.digits d
            = (JsNumber.Dn (JsNumber.lead d)
               :: match tail with Some ds => ds | None => [] end) ->
            NumberRead.readUnsigned neg
              (JsNumber.digitsText [JsNumber.Dn (JsNumber.lead d)]
                 ++ NumberRead.fractionText tail ++ NumberRead.optionalExponent (Some (n - 1)))
            = Some (JsNumber.Finite
                      (JsNumber.mkDecimal neg (JsNumber.lead d)
                         (JsNumber.more d) n))).
  { intros tail Hd. rewrite readUnsigned_text. cbn [app]. rewrite <- Hd.
    rewrite (app_nil_zeros (JsNumber.digits d)), ofDigits_padded.
    repeat f_equal. cbn [List.length]. lia. }
  destruct ((k <=? n) && (n <=? 21)) eqn:Hint.
  - apply andb_true_iff in Hint as [Hkn Hn].
    apply Z.leb_le in Hkn, Hn.
    rewrite (text_whole (JsNumber.digitsText _)), readUnsigned_text.
    rewrite app_nil_r, length_app. unfold JsNumber.zeros at 2.
    rewrite repeat_length.
    change (JsNumber.digits d ++ JsNumber.zeros (Z.to_nat (n - k)))%list
      with (JsNumber.zeros 0 ++ JsNumber.digits d
              ++ JsNumber.zeros (Z.to_nat (n - k)))%list.
    rewrite ofDigits_padded. repeat f_equal. fold k. cbn [List.length]. lia.
  - destruct ((0 <? n) && (n <=? 21)) eqn:Hfrac.
    + apply andb_true_iff in Hfrac as [Hn0 Hn].
      apply Z.ltb_lt in Hn0. apply Z.leb_le in Hn.
      assert (Hkn : n < k).
      { destruct (Z.leb_spec k n) as [Hle|Hlt]; [|exact Hlt].
        apply Z.leb_le in Hn. rewrite Hn in Hint. discriminate. }
      change (JsNumber.digitsText (firstn (Z.to_nat n) (JsNumber.digits d))
                ++ "." ++ JsNumber.digitsText
                            (skipn (Z.to_nat n) (JsNumber.digits d)))
        with (JsNumber.digitsText (firstn (Z.to_nat n) (JsNumber.digits d))
                ++ NumberRead.fractionText (Some (skipn (Z.to_nat n) (JsNumber.digits d)))).
      rewrite <- (append_nil_r (NumberRead.fractionText _)).
      change "" with (NumberRead.optionalExponent None).
      rewrite readUnsigned_text, firstn_skipn, length_firstn.
      rewrite (app_nil_zeros (JsNumber.digits d)), ofDigits_padded.
      repeat f_equal. unfold k in Hkn. rewrite <- app_nil_zeros. lia.
    + destruct ((-6 <? n) && (n <=? 0)) eqn:Hsmall.
      * apply andb_true_iff in Hsmall as [Hn6 Hn0].
        apply Z.ltb_lt in Hn6. apply Z.leb_le in Hn0.
        change ("0." ++ JsNumber.digitsText
                          (JsNumber.zeros (Z.to_nat (- n)) ++ JsNumber.digits d))
          with (JsNumber.digitsText [JsNumber.D0]
                  ++ NumberRead.fractionText
                       (Some (JsNumber.zeros (Z.to_nat (- n))
                                ++ JsNumber.digits d)%list)).
        rewrite <- (append_nil_r (NumberRead.fractionText _)).
        change "" with (NumberRead.optionalExponent None).
        rewrite readUnsigned_text.
        change ([JsNumber.D0] ++ JsNumber.zeros (Z.to_nat (- n))
                  ++ JsNumber.digits d)%list
          with (JsNumber.zeros (S (Z.to_nat (- n))) ++ JsNumber.digits d)%list.
        rewrite <- (app_nil_r (JsNumber.digits d)) at 1.
        change (@nil JsNumber.digit) with (JsNumber.zeros 0).
        rewrite ofDigits_padded. repeat f_equal.
        cbn [List.length JsNumber.zeros repeat].
        rewrite ?Nat2Z.inj_succ, Z2Nat.id by lia. simpl Z.of_nat. lia.
      * destruct (JsNumber.more d) as [t|] eqn:Hmore.
        -- apply (Hexp (Some (tl (JsNumber.digits d)))). apply digits_tl.
        -- apply (Hexp None). unfold JsNumber.digits. now rewrite Hmore.
Qed.

Lemma positiveText_first (d : JsNumber.decimal) :
  exists c r, JsNumber.positiveText d = String c r
              /\ NumberRead.digitOfChar c <> None.
Proof.
  unfold JsNumber.positiveText.
  destruct ((_ <=? _) && (_ <=? 21)).
  - rewrite digits_tl. cbn [app JsNumber.digitsText]. eexists _, _.
    split; [reflexivity|]. now rewrite digitOfChar_digitChar.
  - destruct ((0 <? JsNumber.point d) && (_ <=? 21)) eqn:H.
    + apply andb_true_iff in H as [H _]. apply Z.ltb_lt in H.
      rewrite digits_tl.
      destruct (Z.to_nat (JsNumber.point d)) eqn:Hn; [lia|].
      cbn [firstn JsNumber.digitsText append]. eexists _, _.
      split; [reflexivity|]. now rewrite digitOfChar_digitChar.
    + destruct ((-6 <? _) && _).
      * eexists _, _. split; [reflexivity | discriminate].
      * destruct (JsNumber.more d); cbn [JsNumber.digitsText append];
          eexists _, _; (split; [reflexivity|]);
          now rewrite digitOfChar_digitChar.
Qed.

(** [Number::toString] is one-to-one on the finite numbers: the text reads
    back as the number it was written from. *)
Lemma ofString_toString (x : JsNumber.number) :
  JsNumber.isFinite x = true ->
  NumberRead.ofString (JsNumber.toString x) = Some x.
Proof.
  destruct x as [|neg| |d]; try discriminate; intros _; [reflexivity|].
  unfold JsNumber.toString. destruct d as [[|] a t n]; cbn [JsNumber.negative].
  - cbn [append NumberRead.ofString].
    change (Ascii.eqb "-" "-") with true. cbv iota.
    apply readUnsigned_positiveText.
  - destruct (positiveText_first (JsNumber.mkDecimal false a t n))
      as [c [r [Hc Hd]]].
    rewrite Hc. cbn [NumberRead.ofString].
    assert (Hm : Ascii.eqb c "-" = false).
    { destruct (Ascii.eqb_spec c "-") as [->|]; [now elim Hd | reflexivity]. }
    rewrite Hm, <- Hc. apply readUnsigned_positiveText.
Qed.

(** ** Reading back what [JSON.stringify] wrote *)

Section ValueInduction.
Variable P : Json.value -> Prop.
Hypothesis HUndefined : P Json.Undefined.
Hypothesis HNull : P Json.Null.
Hypothesis HBool : forall b, P (Json.Bool b).
Hypothesis HNumber : forall n, P (Json.Number n).
Hypothesis HStr : forall s, P (Json.Str s).
Hypothesis HArr : forall items, Forall P items -> P (Json.Arr items).
Hypothesis HObj :
  forall props, Forall (fun p => P (snd p)) props -> P (Json.Obj props).

(** Induction on a value, with the property at hand for every element of
    an array and every property value of an object. *)
Lemma value_induction (v : Json.value) : P v.
Proof.
  revert v. fix IH 1.
  intros [| |b|n|s|items|props];
    [exact HUndefined | exact HNull | apply HBool | apply HNumber
    | apply HStr | | ].
  - apply HArr. induction items as [|x items IHitems]; constructor;
      [apply IH | exact IHitems].
  - apply HObj. induction props as [|[name x] props IHprops]; constructor;
      [apply IH | exact IHprops].
Qed.
End ValueInduction.

Lemma serialize_Obj (o : Json.object) :
  Json.serialize (Json.Obj o) = Some (Json.stringify o).
Proof.
  unfold Json.stringify. cbn [Json.serialize].
  match goal with
  | |- Some ("{" ++ String.concat "," ?l ++ "}") = _ =>
      assert (H : l = Json.members o); [|now rewrite H]
  end.
  induction o as [|[name x] o IH]; [reflexivity|].
  cbn [Json.members]. unfold Json.serializeProperty. cbn [fst snd].
  destruct (Json.serialize x); [f_equal|]; exact IH.
Qed.

Lemma written_Obj (o : Json.object) :
  Json.written (Json.Obj o) = Json.Obj (Json.writtenProperties o).
Proof. reflexivity. Qed.

Lemma size_Obj (o : Json.object) :
  Json.size (Json.Obj o) = S (Json.sizeProperties o).
Proof.
  cbn [Json.size]. f_equal.
  induction o as [|[name x] o IH]; [reflexivity|].
  cbn [Json.sizeProperties fold_right snd]. f_equal. f_equal. exact IH.
Qed.

Lemma unquote_quoteChar c tail s rest :
  JsonRead.unquote tail = Some (s, rest) ->
  JsonRead.unquote (Json.quoteChar c ++ tail) = Some (String c s, rest).
Proof.
  intros H.
  destruct c as [[] [] [] [] [] [] [] []];
    match goal with
    | |- context [Json.quoteChar ?c] =>
        let q := eval vm_compute in (Json.quoteChar c) in
        change (Json.quoteChar c) with q
    end; simpl; rewrite H; reflexivity.
Qed.

Lemma unquote_escape s rest :
  JsonRead.unquote (Json.escape s ++ String JsString.dquote rest)
  = Some (s, rest).
Proof.
  induction s as [|c s IH]; [reflexivity|].
  simpl Json.escape. rewrite append_assoc. now apply unquote_quoteChar.
Qed.

Lemma quote_shape (s rest : string) :
  Json.quote s ++ rest
  = String JsString.dquote (Json.escape s ++ String JsString.dquote rest).
Proof. unfold Json.quote. simpl. now rewrite append_assoc. Qed.

Lemma spanNumeral_text (d rest : string) :
  JsString.allChars JsonRead.isNumeralChar d = true ->
  JsonRead.startsNumeral rest = false ->
  JsonRead.spanNumeral (d ++ rest) = (d, rest).
Proof.
  intros Hd Hrest. induction d as [|c d IH]; cbn [append].
  - destruct rest as [|c r]; [reflexivity|].
    cbn [JsonRead.startsNumeral] in Hrest. cbn [JsonRead.spanNumeral].
    now rewrite Hrest.
  - cbn [JsString.allChars] in Hd. apply andb_true_iff in Hd as [Hc Hd].
    cbn [JsonRead.spanNumeral]. now rewrite Hc, IH.
Qed.

Lemma allChars_app f (a b : string) :
  JsString.allChars f (a ++ b)
  = JsString.allChars f a && JsString.allChars f b.
Proof.
  induction a as [|c a IH]; simpl; [reflexivity|].
  now rewrite IH, andb_assoc.
Qed.

Lemma digitsText_numeral (ds : list JsNumber.digit) :
  JsString.allChars JsonRead.isNumeralChar (JsNumber.digitsText ds) = true.
Proof.
  induction ds as [|d ds IH]; [reflexivity|].
  simpl. rewrite IH. now destruct d as [|[]].
Qed.

Lemma uint_numeral (d : Decimal.uint) :
  JsString.allChars JsonRead.isNumeralChar (NilEmpty.string_of_uint d) = true.
Proof. induction d; simpl; auto. Qed.

Lemma exponentText_numeral (e : Z) :
  JsString.allChars JsonRead.isNumeralChar (JsNumber.exponentText e) = true.
Proof.
  unfold JsNumber.exponentText, JsNumber.naturalText.
  rewrite !allChars_app, uint_numeral. now destruct (e <? 0).
Qed.

Lemma positiveText_numeral (d : JsNumber.decimal) :
  JsString.allChars JsonRead.isNumeralChar (JsNumber.positiveText d) = true.
Proof.
  unfold JsNumber.positiveText.
  repeat match goal with
         | |- context [if ?b then _ else _] => destruct b
         | |- context [match JsNumber.more d with _ => _ end] =>
             destruct (JsNumber.more d)
         end;
    rewrite ?allChars_app, ?digitsText_numeral, ?exponentText_numeral;
    reflexivity.
Qed.

(** The text of a finite number is made of numeral characters. *)
Lemma toString_numeral (x : JsNumber.number) :
  JsNumber.isFinite x = true ->
  JsString.allChars JsonRead.isNumeralChar (JsNumber.toString x) = true.
Proof.
  destruct x as [|neg| |d]; try discriminate; intros _; [reflexivity|].
  unfold JsNumber.toString. destruct (JsNumber.negative d).
  - rewrite allChars_app, positiveText_numeral. reflexivity.
  - apply positiveText_numeral.
Qed.

Lemma toString_first (x : JsNumber.number) :
  JsNumber.isFinite x = true ->
  exists c r, JsNumber.toString x = String c r
              /\ JsonRead.isNumeralChar c = true.
Proof.
  intros Hx. pose proof (toString_numeral x Hx) as Hall.
  destruct (JsNumber.toString x) as [|c r] eqn:Ht.
  - destruct x as [|neg| |d]; try discriminate.
    unfold JsNumber.toString in Ht.
    destruct (positiveText_first d) as [c [r [Hc _]]].
    rewrite Hc in Ht. destruct (JsNumber.negative d); discriminate.
  - simpl in Hall. apply andb_true_iff in Hall as [Hc _]. now exists c, r.
Qed.

Lemma numeralChar_not_keyword c :
  JsonRead.isNumeralChar c = true ->
  Ascii.eqb c JsString.dquote = false /\ Ascii.eqb c "t" = false
  /\ Ascii.eqb c "f" = false /\ Ascii.eqb c "n" = false
  /\ Ascii.eqb c "[" = false /\ Ascii.eqb c "{" = false.
Proof.
  destruct c as [[] [] [] [] [] [] [] []]; vm_compute; intros H;
    try discriminate H; repeat split.
Qed.

(** A value that is neither array nor object reads back as written. *)
Lemma readScalar_serialize (v : Json.value) (sv rest : string) :
  match v with Json.Arr _ | Json.Obj _ => False | _ => True end ->
  Json.serialize v = Some sv ->
  JsonRead.startsNumeral rest = false ->
  JsonRead.readScalar (sv ++ rest) = Some (Json.written v, rest).
Proof.
  intros Hv Hser Hrest.
  destruct v as [| |[|]|n|s|items|props]; try contradiction;
    cbn [Json.serialize] in Hser; try discriminate;
    injection Hser as <-; try reflexivity.
  - unfold Json.numberText. cbn [Json.written].
    destruct (JsNumber.isFinite n) eqn:Hfin; [|reflexivity].
    destruct (toString_first n Hfin) as [c [r [Hshape Hc]]].
    destruct (numeralChar_not_keyword c Hc) as [H1 [H2 [H3 [H4 _]]]].
    pose proof (spanNumeral_text _ rest (toString_numeral n Hfin) Hrest)
      as Hspan.
    rewrite Hshape in Hspan |- *. cbn [append] in *.
    unfold JsonRead.readScalar.
    rewrite H1, H2, H3, H4, Hspan, <- Hshape.
    now rewrite ofString_toString.
  - rewrite quote_shape. cbn [JsonRead.readScalar].
    change (Ascii.eqb JsString.dquote JsString.dquote) with true. cbv iota.
    now rewrite unquote_escape.
Qed.

Lemma written_undefined (v : Json.value) :
  Json.serialize v = None <-> v = Json.Undefined.
Proof.
  split; [|now intros ->].
  destruct v as [| |[|]|n|s|items|props]; cbn [Json.serialize];
    congruence.
Qed.

Lemma written_of_serialized (v : Json.value) (sv : string) :
  Json.serialize v = Some sv -> Json.writtenItem v = Json.written v.
Proof.
  unfold Json.writtenItem.
  destruct v as [| |[|]|n|s|items|props]; cbn [Json.serialize Json.written];
    try discriminate; try reflexivity.
  now destruct (JsNumber.isFinite n).
Qed.

Lemma written_not_undefined (v : Json.value) (sv : string) :
  Json.serialize v = Some sv -> Json.written v <> Json.Undefined.
Proof.
  destruct v as [| |[|]|n|s|items|props]; cbn [Json.serialize Json.written];
    try discriminate.
  now destruct (JsNumber.isFinite n).
Qed.

Lemma itemText_first (x : Json.value) :
  exists c r, Json.orNull (Json.serialize x) = String c r
              /\ Ascii.eqb c "]" = false.
Proof.
  destruct x as [| |[|]|n|s|items|props]; cbn [Json.serialize Json.orNull];
    try (eexists _, _; split; [reflexivity | reflexivity]).
  unfold Json.numberText. destruct (JsNumber.isFinite n) eqn:Hfin.
  - destruct (toString_first n Hfin) as [c [r [-> Hc]]].
    exists c, r. split; [reflexivity|].
    destruct c as [[] [] [] [] [] [] [] []]; try reflexivity;
      vm_compute in Hc; discriminate Hc.
  - now exists "n"%char, "ull".
Qed.

Lemma reads_back_scalar (v : Json.value) :
  match v with Json.Arr _ | Json.Obj _ => False | _ => True end ->
  JsonRead.reads_back v.
Proof.
  intros Hv fuel sv rest Hser Hfuel Hrest.
  pose proof (readScalar_serialize v sv rest Hv Hser Hrest) as Hread.
  destruct fuel as [|fuel];
    [destruct v; try contradiction; cbn [Json.size] in Hfuel; lia|].
  assert (Hfirst : exists c r, sv ++ rest = String c r
                               /\ Ascii.eqb c "[" = false
                               /\ Ascii.eqb c "{" = false).
  { destruct v as [| |[|]|n|s|items|props]; try contradiction;
      cbn [Json.serialize] in Hser; try discriminate;
      injection Hser as <-;
      try (eexists _, _; split; [reflexivity | split; reflexivity]).
    unfold Json.numberText. destruct (JsNumber.isFinite n) eqn:Hfin.
    - destruct (toString_first n Hfin) as [c [r [-> Hc]]].
      destruct (numeralChar_not_keyword c Hc) as [_ [_ [_ [_ [H5 H6]]]]].
      exists c, (r ++ rest). now split.
    - eexists _, _. split; [reflexivity | split; reflexivity]. }
  destruct Hfirst as [c [r [Heq [Hb Hc]]]].
  rewrite Heq in Hread |- *. cbn [JsonRead.readValue].
  now rewrite Hb, Hc.
Qed.

Lemma concat_cons (m : string) (ms : list string) (tail : string) :
  String.concat "," (m :: ms) ++ tail
  = m ++ match ms with
         | [] => tail
         | _ => String "," (String.concat "," ms ++ tail)
         end.
Proof.
  destruct ms as [|m' ms]; [reflexivity|].
  change (String.concat "," (m :: m' :: ms))
    with (m ++ "," ++ String.concat "," (m' :: ms)).
  now rewrite !append_assoc.
Qed.

(** Reading one array element. *)
Lemma readValue_item (x : Json.value) (fuel : nat) (rest : string) :
  JsonRead.reads_back x ->
  (Json.size x <= fuel)%nat ->
  JsonRead.startsNumeral rest = false ->
  JsonRead.readValue fuel (Json.orNull (Json.serialize x) ++ rest)
  = Some (Json.writtenItem x, rest).
Proof.
  intros Hx Hfuel Hrest.
  destruct (Json.serialize x) as [sv|] eqn:Hser.
  - rewrite (written_of_serialized x sv Hser). now apply Hx.
  - apply written_undefined in Hser. subst x.
    now apply (reads_back_scalar Json.Null).
Qed.

Lemma readItems_items (items : list Json.value) :
  Forall JsonRead.reads_back items ->
  forall fuel rest,
    items <> [] ->
    (fold_right (fun x acc => S (Json.size x + acc)) O items <= fuel)%nat ->
    JsonRead.readItems fuel
      (String.concat "," (map (fun x => Json.orNull (Json.serialize x)) items)
         ++ String "]" rest)
    = Some (map Json.writtenItem items, rest).
Proof.
  induction 1 as [|x items Hx Hitems IH]; intros fuel rest Hne Hfuel;
    [now elim Hne|].
  cbn [fold_right] in Hfuel. destruct fuel as [|fuel]; [lia|].
  cbn [map]. rewrite concat_cons. cbn [JsonRead.readItems].
  destruct items as [|y items].
  - cbn [map]. rewrite (readValue_item x fuel _ Hx) by (lia || reflexivity).
    reflexivity.
  - cbn [map]. rewrite (readValue_item x fuel _ Hx) by (lia || reflexivity).
    change (Ascii.eqb "," ",") with true. cbv iota.
    specialize (IH fuel rest). cbn [map] in IH.
    rewrite IH; [reflexivity | discriminate | cbn [fold_right] in *; lia].
Qed.

Lemma readMembers_members (props : list (string * Json.value)) :
  Forall (fun p => JsonRead.reads_back (snd p)) props ->
  forall fuel rest,
    Json.members props <> [] ->
    (Json.sizeProperties props <= fuel)%nat ->
    JsonRead.readMembers fuel
      (String.concat "," (Json.members props) ++ String "}" rest)
    = Some (Json.writtenProperties props, rest).
Proof.
  induction 1 as [|[name x] props Hx Hprops IH]; intros fuel rest Hne Hfuel;
    [now elim Hne|].
  cbn [Json.sizeProperties fold_right snd] in Hfuel.
  fold (Json.sizeProperties props) in Hfuel.
  cbn [Json.members Json.writtenProperties] in Hne |- *.
  unfold Json.serializeProperty in Hne |- *. cbn [fst snd] in *.
  destruct (Json.serialize x) as [sv|] eqn:Hser.
  - destruct fuel as [|fuel]; [lia|].
    pose proof (written_not_undefined x sv Hser) as Hw.
    assert (Hkeep : match Json.written x with
                    | Json.Undefined => Json.writtenProperties props
                    | w => (name, w) :: Json.writtenProperties props
                    end = (name, Json.written x) :: Json.writtenProperties props)
      by (destruct (Json.written x); congruence).
    rewrite Hkeep. clear Hkeep.
    rewrite concat_cons. unfold Json.memberText.
    rewrite !append_assoc, quote_shape. cbn [JsonRead.readMembers].
    cbn [JsonRead.startsWith].
    change (Ascii.eqb JsString.dquote JsString.dquote) with true. cbv iota.
    rewrite unquote_escape. cbn [append JsonRead.startsWith].
    change (Ascii.eqb ":" ":") with true. cbv iota.
    destruct (Json.members props) as [|m ms] eqn:Hms.
    + rewrite (Hx fuel sv _ Hser) by (lia || reflexivity).
      change (Ascii.eqb "}" ",") with false.
      change (Ascii.eqb "}" "}") with true. cbv iota.
      assert (Hnone : Json.writtenProperties props = []).
      { clear - Hms. induction props as [|[k y] props IH]; [reflexivity|].
        cbn [Json.members] in Hms. unfold Json.serializeProperty in Hms.
        cbn [fst snd] in Hms. cbn [Json.writtenProperties].
        destruct (Json.serialize y) eqn:Hy; [discriminate|].
        apply written_undefined in Hy. subst y. now apply IH. }
      now rewrite Hnone.
    + rewrite (Hx fuel sv _ Hser) by (lia || reflexivity).
      change (Ascii.eqb "," ",") with true. cbv iota.
      rewrite IH; [reflexivity | discriminate | lia].
  - apply written_undefined in Hser. subst x. cbn [Json.written].
    apply IH; [exact Hne | cbn [Json.size] in Hfuel; lia].
Qed.

(** Every value reads back as it was written. *)
Lemma readValue_serialize (v : Json.value) : JsonRead.reads_back v.
Proof.
  induction v as [| | b | n | s | items IH | props IH] using value_induction;
    try (apply reads_back_scalar; exact I).
  - intros fuel sv rest Hser Hfuel Hrest.
    cbn [Json.serialize] in Hser. injection Hser as <-.
    cbn [Json.size] in Hfuel. destruct fuel as [|fuel]; [lia|].
    cbn [append JsonRead.readValue].
    change (Ascii.eqb "[" "[") with true. cbv iota.
    rewrite append_assoc. cbn [append]. cbn [Json.written].
    fold Json.writtenItem.
    change (map (fun x => match Json.written x with
                          | Json.Undefined => Json.Null
                          | w => w
                          end) items)
      with (map Json.writtenItem items).
    destruct items as [|x items]; [reflexivity|].
    destruct (itemText_first x) as [c [r [Hc Hne]]].
    assert (Hstart : JsonRead.startsWith "]"
              (String.concat ","
                 (map (fun x => Json.orNull (Json.serialize x)) (x :: items))
                 ++ String "]" rest) = None).
    { cbn [map]. rewrite concat_cons, Hc. cbn [append JsonRead.startsWith].
      now rewrite Hne. }
    rewrite Hstart.
    rewrite (readItems_items (x :: items) IH); [reflexivity | discriminate|].
    lia.
  - intros fuel sv rest Hser Hfuel Hrest.
    rewrite serialize_Obj in Hser. injection Hser as <-.
    rewrite size_Obj in Hfuel. destruct fuel as [|fuel]; [lia|].
    rewrite written_Obj. unfold Json.stringify.
    cbn [append JsonRead.readValue].
    change (Ascii.eqb "{" "[") with false.
    change (Ascii.eqb "{" "{") with true. cbv iota.
    rewrite append_assoc. cbn [append].
    destruct (Json.members props) as [|m ms] eqn:Hms.
    + cbn [String.concat append JsonRead.startsWith].
      change (Ascii.eqb "}" "}") with true. cbv iota.
      assert (Hnone : Json.writtenProperties props = []).
      { clear - Hms. induction props as [|[k y] props IH]; [reflexivity|].
        cbn [Json.members] in Hms. unfold Json.serializeProperty in Hms.
        cbn [fst snd] in Hms. cbn [Json.writtenProperties].
        destruct (Json.serialize y) eqn:Hy; [discriminate|].
        apply written_undefined in Hy. subst y. now apply IH. }
      now rewrite Hnone.
    + assert (Hstart : JsonRead.startsWith "}"
                (String.concat "," (m :: ms) ++ String "}" rest) = None).
      { assert (Hq : exists r, m = String JsString.dquote r).
        { clear - Hms. induction props as [|[k y] props IH]; [discriminate|].
          cbn [Json.members] in Hms. unfold Json.serializeProperty in Hms.
          cbn [fst snd] in Hms.
          destruct (Json.serialize y); [|now apply IH].
          injection Hms as <- _. unfold Json.memberText, Json.quote.
          cbn [append]. eauto. }
        destruct Hq as [r ->]. rewrite concat_cons. reflexivity. }
      rewrite Hstart, <- Hms.
      rewrite (readMembers_members props IH);
        [reflexivity | rewrite Hms; discriminate | lia].
Qed.

(** [JSON.stringify] on parameter objects is one-to-one up to what it
    leaves out: two objects get the same text exactly when their written
    properties are the same. *)
Lemma stringify_written (o : Json.object) :
  Json.stringify (Json.writtenProperties o) = Json.stringify o.
Proof.
  unfold Json.stringify.
  assert (Hab : Json.members (Json.writtenProperties o) = Json.members o);
    [|now rewrite Hab].
  assert (Hv : forall v, Json.serialize (Json.written v) = Json.serialize v
                         /\ Json.orNull (Json.serialize (Json.writtenItem v))
                            = Json.orNull (Json.serialize v)).
  { induction v as [| | b | n | s | items IH | props IH]
      using value_induction; try (split; reflexivity).
    - unfold Json.writtenItem. cbn [Json.written].
      destruct (JsNumber.isFinite n) eqn:Hfin; [split; reflexivity|].
      cbn [Json.serialize]. unfold Json.numberText. rewrite Hfin.
      split; reflexivity.
    - assert (H : Json.serialize (Json.written (Json.Arr items))
                  = Json.serialize (Json.Arr items)).
      { cbn [Json.written Json.serialize]. rewrite map_map.
        match goal with
        | |- Some ("[" ++ String.concat "," ?a ++ "]") = _ =>
            assert (Hab : a = map (fun x => Json.orNull (Json.serialize x))
                                items); [|now rewrite Hab]
        end.
        apply map_ext_Forall.
        rewrite Forall_forall in IH |- *. intros x Hx.
        exact (proj2 (IH x Hx)). }
      split; [exact H|]. unfold Json.writtenItem.
      change (match Json.written (Json.Arr items) with
              | Json.Undefined => Json.Null
              | w => w
              end) with (Json.written (Json.Arr items)).
      now rewrite H.
    - assert (H : Json.serialize (Json.written (Json.Obj props))
                  = Json.serialize (Json.Obj props)).
      { rewrite written_Obj, !serialize_Obj. unfold Json.stringify.
        assert (Hab : Json.members (Json.writtenProperties props)
                      = Json.members props); [|now rewrite Hab].
        induction IH as [|[name x] props Hx Hprops IHp]; [reflexivity|].
        cbn [Json.writtenProperties Json.members].
        unfold Json.serializeProperty. cbn [fst snd] in *.
        destruct Hx as [Hx _].
        destruct (Json.serialize x) as [sv|] eqn:Hser.
        - pose proof (written_not_undefined x sv Hser) as Hw.
          assert (Hkeep : match Json.written x with
                          | Json.Undefined => Json.writtenProperties props
                          | w => (name, w) :: Json.writtenProperties props
                          end
                          = (name, Json.written x)
                              :: Json.writtenProperties props)
            by (destruct (Json.written x); congruence).
          rewrite Hkeep. cbn [Json.members]. unfold Json.serializeProperty.
          cbn [fst snd]. rewrite Hx. now rewrite IHp.
        - apply written_undefined in Hser. subst x. cbn [Json.written].
          exact IHp. }
      split; [exact H|]. unfold Json.writtenItem.
      change (match Json.written (Json.Obj props) with
              | Json.Undefined => Json.Null
              | w => w
              end) with (Json.written (Json.Obj props)).
      now rewrite H. }
  induction o as [|[name x] o IH]; [reflexivity|].
  cbn [Json.writtenProperties Json.members].
  unfold Json.serializeProperty. cbn [fst snd].
  destruct (Json.serialize x) as [sv|] eqn:Hser.
  - pose proof (written_not_undefined x sv Hser) as Hw.
    assert (Hkeep : match Json.written x with
                    | Json.Undefined => Json.writtenProperties o
                    | w => (name, w) :: Json.writtenProperties o
                    end = (name, Json.written x) :: Json.writtenProperties o)
      by (destruct (Json.written x); congruence).
    rewrite Hkeep. cbn [Json.members]. unfold Json.serializeProperty.
    cbn [fst snd]. rewrite (proj1 (Hv x)), Hser. now rewrite IH.
  - apply written_undefined in Hser. subst x. cbn [Json.written]. exact IH.
Qed.

Lemma written_of_key (P1 P2 : Json.object) :
  getCacheKey P1 = getCacheKey P2 ->
  Json.writtenProperties P1 = Json.writtenProperties P2.
Proof.
  unfold getCacheKey. intros Heq.
  pose proof (readValue_serialize (Json.Obj P1)
                (Nat.max (Json.size (Json.Obj P1)) (Json.size (Json.Obj P2)))
                (Json.stringify P1) "" (serialize_Obj P1)
                (Nat.le_max_l _ _) eq_refl) as H1.
  pose proof (readValue_serialize (Json.Obj P2)
                (Nat.max (Json.size (Json.Obj P1)) (Json.size (Json.Obj P2)))
                (Json.stringify P2) "" (serialize_Obj P2)
                (Nat.le_max_r _ _) eq_refl) as H2.
  rewrite Heq, H2 in H1. rewrite !written_Obj in H1. congruence.
Qed.

Lemma key_of_written (P1 P2 : Json.object) :
  Json.writtenProperties P1 = Json.writtenProperties P2 ->
  getCacheKey P1 = getCacheKey P2.
Proof.
  intros H. unfold getCacheKey.
  now rewrite <- (stringify_written P1), <- (stringify_written P2), H.
Qed.

Section JsMapFacts.
Context {E : Type}.
Implicit Types (m : JsMap.t E) (k key : string) (e : E).

Lemma get_none_notin key m :
  JsMap.get key m = None <-> ~ In key (JsMap.keys m).
Proof.
  induction m as [|[k e] m IH]; simpl.
  - tauto.
  - destruct (String.eqb_spec k key) as [->|Hne].
    + split; [discriminate | intros H; exfalso; apply H; now left].
    + rewrite IH. split.
      * intros H [Hk|Hin]; [now apply Hne | now apply H].
      * intros H Hin. apply H. now right.
Qed.

Lemma get_some_in key m e :
  JsMap.get key m = Some e -> In (key, e) m.
Proof.
  induction m as [|[k e'] m IH]; simpl; [discriminate|].
  destruct (String.eqb_spec k key) as [->|Hne].
  - intros [= ->]. now left.
  - intros H. right. now apply IH.
Qed.

Lemma in_get_nodup key m e :
  NoDup (JsMap.keys m) -> In (key, e) m -> JsMap.get key m = Some e.
Proof.
  induction m as [|[k e'] m IH]; simpl; [tauto|].
  intros Hnd [Heq|Hin].
  - injection Heq as -> ->. now rewrite String.eqb_refl.
  - apply NoDup_cons_iff in Hnd as [Hnotin Hnd].
    destruct (String.eqb_spec k key) as [->|Hne].
    + exfalso. apply Hnotin. change key with (fst (key, e)).
      now apply in_map.
    + now apply IH.
Qed.

Lemma delete_notin key m :
  ~ In key (JsMap.keys m) -> JsMap.delete key m = m.
Proof.
  induction m as [|[k e] m IH]; simpl; [reflexivity|].
  intros H. destruct (String.eqb_spec k key) as [->|Hne]; simpl.
  - exfalso. apply H. now left.
  - f_equal. apply IH. intros Hin. apply H. now right.
Qed.

Lemma get_delete_same key m : JsMap.get key (JsMap.delete key m) = None.
Proof.
  induction m as [|[k e] m IH]; simpl; [reflexivity|].
  destruct (String.eqb_spec k key) as [->|Hne]; simpl; [exact IH|].
  destruct (String.eqb_spec k key); [contradiction | exact IH].
Qed.

Lemma get_delete_other key k m :
  k <> key -> JsMap.get key (JsMap.delete k m) = JsMap.get key m.
Proof.
  intros Hne. induction m as [|[k' e] m IH]; simpl; [reflexivity|].
  destruct (String.eqb_spec k' k) as [->|Hne']; simpl.
  - destruct (String.eqb_spec k key); [contradiction | exact IH].
  - destruct (String.eqb_spec k' key); [reflexivity | exact IH].
Qed.

Lemma keys_delete_incl key m k :
  In k (JsMap.keys (JsMap.delete key m)) -> In k (JsMap.keys m).
Proof.
  unfold JsMap.keys, JsMap.delete. rewrite !in_map_iff.
  intros [x [Hx Hin]]. apply filter_In in Hin as [Hin _]. now exists x.
Qed.

Lemma nodup_delete key m :
  NoDup (JsMap.keys m) -> NoDup (JsMap.keys (JsMap.delete key m)).
Proof.
  induction m as [|[k e] m IH]; simpl; [auto|].
  intros Hnd. apply NoDup_cons_iff in Hnd as [Hnotin Hnd].
  destruct (String.eqb k key); simpl; [now apply IH|].
  constructor; [|now apply IH].
  intros Hin. apply Hnotin. eapply keys_delete_incl. exact Hin.
Qed.

Lemma size_delete_le key m :
  (JsMap.size (JsMap.delete key m) <= JsMap.size m)%nat.
Proof. apply filter_length_le. Qed.

Lemma keys_replace key e m :
  JsMap.keys (JsMap.replace key e m) = JsMap.keys m.
Proof.
  induction m as [|[k e'] m IH]; simpl; [reflexivity|].
  destruct (String.eqb k key); simpl; [reflexivity | now rewrite IH].
Qed.

Lemma set_absent key e m :
  ~ In key (JsMap.keys m) -> JsMap.set key e m = (m ++ [(key, e)])%list.
Proof.
  intros H. unfold JsMap.set, JsMap.has.
  apply get_none_notin in H. now rewrite H.
Qed.

Lemma get_replace_same key e m :
  In key (JsMap.keys m) -> JsMap.get key (JsMap.replace key e m) = Some e.
Proof.
  induction m as [|[k e'] m IH]; simpl; [tauto|].
  intros H. destruct (String.eqb_spec k key) as [->|Hne]; simpl.
  - now rewrite String.eqb_refl.
  - destruct (String.eqb_spec k key); [contradiction|].
    apply IH. destruct H; [contradiction | assumption].
Qed.

Lemma get_app key m1 m2 :
  JsMap.get key (m1 ++ m2)%list =
  match JsMap.get key m1 with
  | Some e => Some e
  | None => JsMap.get key m2
  end.
Proof.
  induction m1 as [|[k e] m1 IH]; simpl; [reflexivity|].
  destruct (String.eqb k key); [reflexivity | exact IH].
Qed.

Lemma get_set_same key e m : JsMap.get key (JsMap.set key e m) = Some e.
Proof.
  unfold JsMap.set, JsMap.has.
  destruct (JsMap.get key m) eqn:Hg.
  - apply get_replace_same.
    apply get_some_in in Hg. change key with (fst (key, e0)).
    now apply in_map.
  - rewrite get_app, Hg. simpl. now rewrite String.eqb_refl.
Qed.

Lemma size_set_present key e m :
  In key (JsMap.keys m) -> JsMap.size (JsMap.set key e m) = JsMap.size m.
Proof.
  intros H. unfold JsMap.set, JsMap.has.
  destruct (JsMap.get key m) eqn:Hg.
  - unfold JsMap.size.
    rewrite <- (length_map fst (JsMap.replace key e m)).
    fold (JsMap.keys (JsMap.replace key e m)).
    rewrite keys_replace. apply length_map.
  - apply get_none_notin in Hg. contradiction.
Qed.

Lemma nodup_set key e m :
  NoDup (JsMap.keys m) -> NoDup (JsMap.keys (JsMap.set key e m)).
Proof.
  intros Hnd. unfold JsMap.set, JsMap.has.
  destruct (JsMap.get key m) eqn:Hg.
  - now rewrite keys_replace.
  - apply get_none_notin in Hg. unfold JsMap.keys in *.
    rewrite map_app. simpl.
    apply NoDup_app; [assumption | repeat constructor; tauto |].
    intros x Hx [<-|[]]. contradiction.
Qed.
End JsMapFacts.

Section CacheFacts.
Context {V : Type}.
Variable CACHE_TTL : Z.
Variable MAX_SIZE : nat.
Implicit Types (c : QueryCache.cache V) (key k : string) (d : V).

Local Abbreviation getCachedQuery := (QueryCache.getCachedQuery CACHE_TTL).
Local Abbreviation setCachedQuery := (QueryCache.setCachedQuery MAX_SIZE).
Local Abbreviation run := (QueryCache.run CACHE_TTL MAX_SIZE).
Local Abbreviation cache_ok := (QueryCache.cache_ok MAX_SIZE).

Lemma get_hit now key c d c' :
  getCachedQuery now key c = (Some d, c') ->
  c' = c /\ exists e, JsMap.get key c = Some e /\ QueryCache.data e = d
                      /\ now - QueryCache.timestamp e < CACHE_TTL.
Proof.
  unfold QueryCache.getCachedQuery.
  destruct (JsMap.get key c) as [e|]; [|discriminate].
  destruct (Z.ltb_spec (now - QueryCache.timestamp e) CACHE_TTL);
    [|discriminate].
  intros [= <- <-]. split; [reflexivity|]. now exists e.
Qed.

Lemma get_miss now key c :
  fst (getCachedQuery now key c) = None ->
  snd (getCachedQuery now key c) = JsMap.delete key c.
Proof.
  unfold QueryCache.getCachedQuery.
  destruct (JsMap.get key c) as [e|]; [|reflexivity].
  destruct (now - QueryCache.timestamp e <? CACHE_TTL);
    [discriminate | reflexivity].
Qed.

Lemma get_live now key c e :
  JsMap.get key c = Some e ->
  now - QueryCache.timestamp e < CACHE_TTL ->
  getCachedQuery now key c = (Some (QueryCache.data e), c).
Proof.
  intros Hg Hlt. unfold QueryCache.getCachedQuery. rewrite Hg.
  apply Z.ltb_lt in Hlt. now rewrite Hlt.
Qed.

Lemma get_expired now key c e :
  JsMap.get key c = Some e ->
  CACHE_TTL <= now - QueryCache.timestamp e ->
  getCachedQuery now key c = (None, JsMap.delete key c).
Proof.
  intros Hg Hge. unfold QueryCache.getCachedQuery. rewrite Hg.
  apply Z.ltb_ge in Hge. now rewrite Hge.
Qed.

Lemma get_absent now key c :
  JsMap.get key c = None -> getCachedQuery now key c = (None, c).
Proof.
  intros Hg. unfold QueryCache.getCachedQuery. rewrite Hg.
  f_equal. apply delete_notin. now apply get_none_notin.
Qed.

Lemma getCachedQuery_ok now key c :
  cache_ok c -> cache_ok (snd (getCachedQuery now key c)).
Proof.
  intros [Hnd Hsz]. unfold QueryCache.getCachedQuery.
  assert (Hdel : cache_ok (JsMap.delete key c)).
  { split; [now apply nodup_delete|].
    eapply Nat.le_trans; [apply size_delete_le | exact Hsz]. }
  destruct (JsMap.get key c) as [e|]; [|exact Hdel].
  destruct (now - QueryCache.timestamp e <? CACHE_TTL);
    [now split | exact Hdel].
Qed.

Lemma size_set_absent key (e : QueryCache.entry V) c :
  ~ In key (JsMap.keys c) ->
  JsMap.size (JsMap.set key e c) = S (JsMap.size c).
Proof.
  intros H. rewrite set_absent by assumption.
  unfold JsMap.size. rewrite length_app. simpl. lia.
Qed.

(** The invariant of the data model: [size <= capacity] after every
    insertion. *)
Lemma setCachedQuery_ok now key d c :
  cache_ok c -> cache_ok (setCachedQuery now key d c).
Proof.
  intros [Hnd Hsz]. unfold QueryCache.setCachedQuery.
  set (e := QueryCache.mkEntry d now).
  assert (Hnd1 : NoDup (JsMap.keys (JsMap.set key e c)))
    by now apply nodup_set.
  destruct (Nat.ltb_spec MAX_SIZE (JsMap.size (JsMap.set key e c)))
    as [Hgt|Hle]; [|now split].
  destruct (in_dec string_dec key (JsMap.keys c)) as [Hin|Hnotin].
  { rewrite size_set_present in Hgt by assumption. lia. }
  rewrite size_set_absent in Hgt by assumption.
  destruct (JsMap.set key e c) as [|[k0 e0] c1] eqn:Hset; simpl.
  { split; [apply NoDup_nil | unfold JsMap.size; simpl; lia]. }
  assert (Hsz1 : JsMap.size ((k0, e0) :: c1) = S (JsMap.size c)).
  { rewrite <- Hset. now apply size_set_absent. }
  simpl in Hnd1. apply NoDup_cons_iff in Hnd1 as [Hk0 Hnd1].
  rewrite String.eqb_refl. simpl.
  rewrite delete_notin by assumption.
  split; [assumption|]. simpl in Hsz1. unfold JsMap.size in *. lia.
Qed.

Lemma setCachedQuery_get now key d c :
  cache_ok c -> (0 < MAX_SIZE)%nat ->
  JsMap.get key (setCachedQuery now key d c) =
    Some (QueryCache.mkEntry d now).
Proof.
  intros [Hnd Hsz] Hpos. unfold QueryCache.setCachedQuery.
  set (e := QueryCache.mkEntry d now).
  destruct (Nat.ltb_spec MAX_SIZE (JsMap.size (JsMap.set key e c)))
    as [Hgt|Hle]; [|apply get_set_same].
  destruct (in_dec string_dec key (JsMap.keys c)) as [Hin|Hnotin].
  { rewrite size_set_present in Hgt by assumption. lia. }
  rewrite size_set_absent in Hgt by assumption.
  rewrite set_absent by assumption.
  destruct c as [|[k0 e0] c1]; [simpl in *; lia|].
  cbn [app JsMap.firstKey].
  assert (Hne : k0 <> key).
  { intros ->. apply Hnotin. now left. }
  rewrite get_delete_other by assumption.
  change (JsMap.get key (((k0, e0) :: c1) ++ [(key, e)])%list = Some e).
  rewrite <- (set_absent key e ((k0, e0) :: c1)) by assumption.
  apply get_set_same.
Qed.
End CacheFacts.

Section TraceFacts.
Context {V : Type}.
Variable CACHE_TTL : Z.
Variable MAX_SIZE : nat.
Implicit Types (c : QueryCache.cache V) (key k : string) (d : V).

Local Abbreviation getCachedQuery := (QueryCache.getCachedQuery CACHE_TTL).
Local Abbreviation setCachedQuery := (QueryCache.setCachedQuery MAX_SIZE).
Local Abbreviation run := (QueryCache.run CACHE_TTL MAX_SIZE).
Local Abbreviation stamps := (@QueryCache.stamps V).
Local Abbreviation entry_of := (@QueryCache.entry_of V).
Local Abbreviation put_op := (@QueryCache.put_op V).
Local Abbreviation put_key := (@QueryCache.put_key V).
Local Abbreviation put_time := (@QueryCache.put_time V).

Lemma stamps_delete k c : incl (stamps (JsMap.delete k c)) (stamps c).
Proof.
  intros t Ht. unfold QueryCache.stamps, JsMap.delete in *.
  apply in_map_iff in Ht as [x [<- Hx]].
  apply filter_In in Hx as [Hx _].
  apply in_map_iff. now exists x.
Qed.

Lemma stamps_replace k (e : QueryCache.entry V) c :
  incl (stamps (JsMap.replace k e c)) (QueryCache.timestamp e :: stamps c).
Proof.
  induction c as [|[k' e'] c IH]; simpl; [apply incl_nil_l|].
  destruct (String.eqb k' k); simpl.
  - intros t [<-|Ht]; [now left | right; now right].
  - intros t [<-|Ht]; [right; now left|].
    destruct (IH t Ht) as [<-|H]; [now left | right; now right].
Qed.

Lemma stamps_set k (e : QueryCache.entry V) c :
  incl (stamps (JsMap.set k e c)) (QueryCache.timestamp e :: stamps c).
Proof.
  unfold JsMap.set. destruct (JsMap.has k c); [apply stamps_replace|].
  intros t Ht. unfold QueryCache.stamps in Ht.
  rewrite map_app in Ht. apply in_app_or in Ht as [Ht|[<-|[]]].
  - now right.
  - now left.
Qed.

Lemma stamps_setCachedQuery now key d c :
  incl (stamps (setCachedQuery now key d c)) (now :: stamps c).
Proof.
  unfold QueryCache.setCachedQuery.
  set (c1 := JsMap.set key _ c).
  assert (H1 : incl (stamps c1) (now :: stamps c))
    by apply (stamps_set key (QueryCache.mkEntry d now) c).
  destruct (MAX_SIZE <? JsMap.size c1)%nat; [|exact H1].
  destruct (JsMap.firstKey c1); [|exact H1].
  eapply incl_tran; [apply stamps_delete | exact H1].
Qed.

(** A read inside the TTL window of every stored entry changes nothing. *)
Lemma get_in_window now key c :
  (forall t, In t (stamps c) -> now - t < CACHE_TTL) ->
  snd (getCachedQuery now key c) = c.
Proof.
  intros Hw. destruct (JsMap.get key c) as [e|] eqn:Hg.
  - rewrite (get_live CACHE_TTL now key c e Hg); [reflexivity|].
    apply Hw. apply get_some_in in Hg. unfold QueryCache.stamps.
    apply in_map_iff. now exists (key, e).
  - now rewrite get_absent.
Qed.

Lemma run_reads_transparent ops : forall c,
  (forall r t, In r (QueryCache.reads ops) ->
               In t (stamps c ++ map put_time (QueryCache.puts ops)) ->
               r - t < CACHE_TTL) ->
  run ops c = run (map put_op (QueryCache.puts ops)) c.
Proof.
  induction ops as [|[key d now|key now] ops IH]; intros c Hw;
    [reflexivity| |].
  - simpl. apply IH. intros r t Hr Ht. apply Hw; [exact Hr|].
    apply in_app_or in Ht as [Ht|Ht].
    + apply stamps_setCachedQuery in Ht as [<-|Ht].
      * apply in_or_app. right. now left.
      * apply in_or_app. now left.
    + apply in_or_app. right. now right.
  - simpl. rewrite get_in_window.
    + apply IH. intros r t Hr Ht. apply Hw; [now right | exact Ht].
    + intros t Ht. apply Hw; [now left | apply in_or_app; now left].
Qed.

Lemma keys_entry_of l : JsMap.keys (map entry_of l) = map put_key l.
Proof.
  unfold JsMap.keys. rewrite map_map. apply map_ext.
  now intros [[k d] t].
Qed.

Lemma run_puts_fit l : forall c,
  NoDup (JsMap.keys c ++ map put_key l) ->
  (JsMap.size c + List.length l <= MAX_SIZE)%nat ->
  run (map put_op l) c = (c ++ map entry_of l)%list.
Proof.
  induction l as [|[[key d] now] l IH]; intros c Hnd Hsz; simpl.
  - now rewrite app_nil_r.
  - assert (Hnotin : ~ In key (JsMap.keys c)).
    { intros Hin. apply NoDup_remove_2 in Hnd. apply Hnd.
      apply in_or_app. now left. }
    unfold QueryCache.setCachedQuery.
    rewrite set_absent by assumption.
    assert (Hlen : JsMap.size (c ++ [(key, QueryCache.mkEntry d now)])%list
                   = S (JsMap.size c)).
    { unfold JsMap.size. rewrite length_app. simpl. lia. }
    rewrite Hlen.
    destruct (Nat.ltb_spec MAX_SIZE (S (JsMap.size c)));
      [simpl in Hsz; lia|].
    rewrite IH.
    + now rewrite <- app_assoc.
    + unfold JsMap.keys in *. rewrite map_app, <- app_assoc. exact Hnd.
    + rewrite Hlen. simpl in Hsz. lia.
Qed.

Lemma run_puts_overflow l :
  NoDup (map put_key l) -> List.length l = S MAX_SIZE ->
  run (map put_op l) [] = tl (map entry_of l).
Proof.
  intros Hnd Hlen.
  assert (Hne : l <> []) by (intros ->; discriminate).
  destruct (exists_last Hne) as [l0 [[[key d] now] ->]].
  rewrite length_app in Hlen. simpl in Hlen.
  rewrite map_app in Hnd.
  rewrite map_app. unfold QueryCache.run. rewrite fold_left_app.
  fold (run (map put_op l0) []).
  rewrite run_puts_fit; [|simpl; eapply NoDup_app_remove_r; exact Hnd
                         |simpl; lia].
  simpl. unfold QueryCache.setCachedQuery.
  assert (Hnotin : ~ In key (JsMap.keys (map entry_of l0))).
  { rewrite keys_entry_of. intros Hin.
    apply NoDup_remove_2 in Hnd. apply Hnd. now rewrite app_nil_r. }
  rewrite set_absent by assumption.
  assert (Hsz : JsMap.size
                  (map entry_of l0 ++ [(key, QueryCache.mkEntry d now)])%list
                = S MAX_SIZE).
  { unfold JsMap.size. rewrite length_app, length_map. simpl. lia. }
  rewrite Hsz.
  destruct (Nat.ltb_spec MAX_SIZE (S MAX_SIZE)); [|lia].
  rewrite map_app. simpl.
  destruct l0 as [|[[k0 d0] t0] l0]; simpl.
  - now rewrite String.eqb_refl.
  - rewrite String.eqb_refl. simpl. apply delete_notin.
    unfold JsMap.keys. rewrite map_app.
    change (map fst (map entry_of l0)) with (JsMap.keys (map entry_of l0)).
    rewrite keys_entry_of. simpl in Hnd.
    apply NoDup_cons_iff in Hnd as [Hk0 _]. exact Hk0.
Qed.
End TraceFacts.

(** ** Capacity and expiry *)

(** C3. Starting from the empty cache, a trace that inserts
    [MAX_SIZE + 1] distinct keys (100 + 1 in the papers cache, 200 + 1 in the
    interactions cache), all calls falling inside the TTL window of every
    insertion, leaves exactly the first-inserted key unreachable through
    [getCachedQuery]; each of the other [MAX_SIZE] keys is returned with its
    stored value.  Reads interleaved with the insertions, whatever keys they
    touch, do not change which key is evicted: eviction follows insertion
    order, not access recency. *)
Theorem fifo_eviction_of_first_inserted
    {V : Type} (CACHE_TTL : Z) (MAX_SIZE : nat)
    (ops : list (QueryCache.op V)) (now : Z)
    (first : string * V * Z) (rest : list (string * V * Z)) :
  QueryCache.puts ops = first :: rest ->
  List.length rest = MAX_SIZE ->
  NoDup (map QueryCache.put_key (QueryCache.puts ops)) ->
  (forall r t, In r (now :: QueryCache.reads ops) ->
               In t (map QueryCache.put_time (QueryCache.puts ops)) ->
               r - t < CACHE_TTL) ->
  let c := QueryCache.run CACHE_TTL MAX_SIZE ops JsMap.empty in
  fst (QueryCache.getCachedQuery CACHE_TTL now (QueryCache.put_key first) c)
    = None
  /\ forall key d t, In (key, d, t) rest ->
       fst (QueryCache.getCachedQuery CACHE_TTL now key c) = Some d.
Proof.
  intros Hputs Hlen Hnd Hwin c.
  assert (Hc : c = map QueryCache.entry_of rest).
  { unfold c, JsMap.empty. rewrite run_reads_transparent.
    - rewrite run_puts_overflow; [now rewrite Hputs | exact Hnd |].
      rewrite Hputs. simpl. now rewrite Hlen.
    - intros r t Hr Ht. apply Hwin; [now right | exact Ht]. }
  rewrite Hputs in Hnd. simpl in Hnd.
  apply NoDup_cons_iff in Hnd as [Hfirst Hnd].
  split.
  - rewrite get_absent; [reflexivity|].
    apply get_none_notin. now rewrite Hc, keys_entry_of.
  - intros key d t Hin.
    assert (Hg : JsMap.get key c = Some (QueryCache.mkEntry d t)).
    { apply in_get_nodup.
      - now rewrite Hc, keys_entry_of.
      - rewrite Hc. apply in_map_iff. now exists (key, d, t). }
    rewrite (get_live CACHE_TTL now key c _ Hg); [reflexivity|].
    simpl. apply Hwin; [now left|].
    rewrite Hputs. right. apply in_map_iff. now exists (key, d, t).
Qed.

Lemma fifo_eviction_of_first_inserted_witness :
  fst (Papers.getCachedQuery 700 (Samples.key_of 0)
         (QueryCache.run Papers.CACHE_TTL Papers.MAX_SIZE
            Samples.overflow_trace JsMap.empty)) = None
  /\ fst (Papers.getCachedQuery 700 (Samples.key_of 1)
            (QueryCache.run Papers.CACHE_TTL Papers.MAX_SIZE
               Samples.overflow_trace JsMap.empty)) = Some 1%nat.
Proof.
  assert (Hputs : QueryCache.puts Samples.overflow_trace
                  = (Samples.key_of 0, 0%nat, 0)
                      :: tl (QueryCache.puts Samples.overflow_trace))
    by (vm_compute; reflexivity).
  assert (Hlen : List.length (tl (QueryCache.puts Samples.overflow_trace))
                 = Papers.MAX_SIZE) by (vm_compute; reflexivity).
  assert (Hnd : NoDup (map QueryCache.put_key
                         (QueryCache.puts Samples.overflow_trace)))
    by (apply distinctb_NoDup; vm_compute; reflexivity).
  assert (Hwin : forall r t,
             In r (700 :: QueryCache.reads Samples.overflow_trace) ->
             In t (map QueryCache.put_time
                     (QueryCache.puts Samples.overflow_trace)) ->
             r - t < Papers.CACHE_TTL).
  { intros r t Hr Ht.
    assert (H : forallb (fun r => forallb (fun t => r - t <? Papers.CACHE_TTL)
                  (map QueryCache.put_time
                     (QueryCache.puts Samples.overflow_trace)))
                  (700 :: QueryCache.reads Samples.overflow_trace) = true)
      by (vm_compute; reflexivity).
    rewrite forallb_forall in H. specialize (H r Hr).
    rewrite forallb_forall in H. apply Z.ltb_lt. now apply H. }
  destruct (fifo_eviction_of_first_inserted Papers.CACHE_TTL Papers.MAX_SIZE
              Samples.overflow_trace 700 _ _ Hputs Hlen Hnd Hwin)
    as [H0 Hrest].
  unfold Papers.getCachedQuery.
  split; [exact H0|].
  apply (Hrest (Samples.key_of 1) 1%nat 1).
  vm_compute. left. reflexivity.
Defined.

Lemma reads_keep_entry {V : Type} (CACHE_TTL : Z) (MAX_SIZE : nat)
    (key : string) (e : QueryCache.entry V) (reads : list (string * Z)) :
  forall c : QueryCache.cache V,
    JsMap.get key c = Some e ->
    (forall r, In (key, r) reads -> r - QueryCache.timestamp e < CACHE_TTL) ->
    JsMap.get key
      (QueryCache.run CACHE_TTL MAX_SIZE (map QueryCache.get_op reads) c)
    = Some e.
Proof.
  induction reads as [|[k r] reads IH]; intros c Hg Hlive; [exact Hg|].
  simpl. apply IH.
  - destruct (String.eqb_spec k key) as [->|Hne].
    + rewrite (get_live CACHE_TTL r key c e Hg); [exact Hg|].
      apply Hlive. now left.
    + unfold QueryCache.getCachedQuery.
      destruct (JsMap.get k c) as [e'|]; simpl;
        [destruct (r - QueryCache.timestamp e' <? CACHE_TTL); simpl|];
        rewrite ?get_delete_other by assumption; exact Hg.
  - intros r' Hr'. apply Hlive. now right.
Qed.

(** C4. After [setCachedQuery(k, v)] at instant [t] on a cache built by the
    cache's own operations, and with no eviction or invalidation in between,
    [getCachedQuery(k)] returns [v] (leaving the cache as it is) at every
    instant [now] with [now - t < CACHE_TTL], and returns null at every
    instant with [now - t >= CACHE_TTL].  Reads made in between, of other
    keys at any instant or of [k] before its expiry, do not change this. *)
Theorem cached_value_until_ttl
    {V : Type} (CACHE_TTL : Z) (MAX_SIZE : nat)
    (c : QueryCache.cache V) (key : string) (d : V) (t now : Z) :
  QueryCache.cache_ok MAX_SIZE c ->
  (0 < MAX_SIZE)%nat ->
  let c' := QueryCache.setCachedQuery MAX_SIZE t key d c in
  (now - t < CACHE_TTL ->
     QueryCache.getCachedQuery CACHE_TTL now key c' = (Some d, c'))
  /\ (now - t >= CACHE_TTL ->
     fst (QueryCache.getCachedQuery CACHE_TTL now key c') = None)
  /\ (forall reads : list (string * Z),
        (forall r, In (key, r) reads -> r - t < CACHE_TTL) ->
        let c'' := QueryCache.run CACHE_TTL MAX_SIZE
                     (map QueryCache.get_op reads) c' in
        (now - t < CACHE_TTL ->
           fst (QueryCache.getCachedQuery CACHE_TTL now key c'') = Some d)
        /\ (now - t >= CACHE_TTL ->
           fst (QueryCache.getCachedQuery CACHE_TTL now key c'') = None)).
Proof.
  intros Hok Hpos c'.
  pose proof (setCachedQuery_get MAX_SIZE t key d c Hok Hpos) as Hg.
  fold c' in Hg. split; [|split].
  - intros Hnow. now rewrite (get_live CACHE_TTL now key c' _ Hg).
  - intros Hnow.
    rewrite (get_expired CACHE_TTL now key c' _ Hg); [reflexivity|].
    simpl. lia.
  - intros reads Hreads c''.
    pose proof (reads_keep_entry CACHE_TTL MAX_SIZE key _ reads c' Hg Hreads)
      as Hg'.
    fold c'' in Hg'. split; intros Hnow.
    + now rewrite (get_live CACHE_TTL now key c'' _ Hg').
    + rewrite (get_expired CACHE_TTL now key c'' _ Hg'); [reflexivity|].
      simpl. lia.
Qed.

Lemma cached_value_until_ttl_witness :
  let c' := Papers.setCachedQuery 1000 "{}" 7%nat
              [("[]"%string, QueryCache.mkEntry 5%nat 10)] in
  Papers.getCachedQuery 60999 "{}" c' = (Some 7%nat, c')
  /\ fst (Papers.getCachedQuery 61000 "{}" c') = None.
Proof.
  assert (Hok : QueryCache.cache_ok Papers.MAX_SIZE
            [("[]"%string, QueryCache.mkEntry 5%nat 10)]).
  { split; [apply distinctb_NoDup; reflexivity|].
    unfold JsMap.size, Papers.MAX_SIZE. simpl. lia. }
  assert (Hpos : (0 < Papers.MAX_SIZE)%nat)
    by (unfold Papers.MAX_SIZE; lia).
  intros c'. split.
  - destruct (cached_value_until_ttl Papers.CACHE_TTL Papers.MAX_SIZE
                _ "{}" 7%nat 1000 60999 Hok Hpos) as [H _].
    apply H. unfold Papers.CACHE_TTL. lia.
  - destruct (cached_value_until_ttl Papers.CACHE_TTL Papers.MAX_SIZE
                _ "{}" 7%nat 1000 61000 Hok Hpos) as [_ [H _]].
    apply H. unfold Papers.CACHE_TTL. lia.
Defined.

(** C5, as the code has it: a read that misses because the entry of [key]
    has expired deletes that entry.  Here the miss changes the key set. *)
Lemma getCachedQuery_miss_deletes_expired :
  let c := [("k"%string, QueryCache.mkEntry 7%nat 0)] in
  fst (Papers.getCachedQuery 60000 "k" c) = None
  /\ snd (Papers.getCachedQuery 60000 "k" c) <> c.
Proof. split; [reflexivity | discriminate]. Qed.

(** C5, amended. On a miss, [getCachedQuery(key)] leaves the cache without
    the entry of [key] and otherwise as it was: every other key keeps its
    entry (value and timestamp) and the insertion order of the remaining
    entries is unchanged.  When [key] is not stored (never stored, evicted
    or invalidated) the cache is identical before and after; only the entry
    of [key] itself, when present and expired, is deleted. *)
Theorem getCachedQuery_miss_frame
    {V : Type} (CACHE_TTL : Z) (now : Z) (key : string)
    (c : QueryCache.cache V) :
  fst (QueryCache.getCachedQuery CACHE_TTL now key c) = None ->
  let c' := snd (QueryCache.getCachedQuery CACHE_TTL now key c) in
  c' = JsMap.delete key c
  /\ (forall k, k <> key -> JsMap.get k c' = JsMap.get k c)
  /\ (JsMap.get key c = None -> c' = c)
  /\ (forall e, JsMap.get key c = Some e ->
        now - QueryCache.timestamp e >= CACHE_TTL).
Proof.
  intros Hmiss c'.
  assert (Hc' : c' = JsMap.delete key c) by now apply get_miss.
  split; [exact Hc'|]. split; [|split].
  - intros k Hne. rewrite Hc'. apply get_delete_other. congruence.
  - intros Hg. unfold c'. now rewrite get_absent.
  - intros e Hg. unfold QueryCache.getCachedQuery in Hmiss.
    rewrite Hg in Hmiss.
    destruct (Z.ltb_spec (now - QueryCache.timestamp e) CACHE_TTL);
      [discriminate | lia].
Qed.

Lemma getCachedQuery_miss_frame_witness :
  let c := [("a"%string, QueryCache.mkEntry 1%nat 0);
            ("k"%string, QueryCache.mkEntry 7%nat 0);
            ("b"%string, QueryCache.mkEntry 2%nat 50000)] in
  snd (Papers.getCachedQuery 60000 "k" c) = JsMap.delete "k" c.
Proof.
  intros c.
  apply (getCachedQuery_miss_frame Papers.CACHE_TTL 60000 "k" c).
  reflexivity.
Defined.

(** ** Substrings *)

Lemma prefix_app (p b : string) : String.prefix p (p ++ b) = true.
Proof.
  induction p as [|c p IH]; simpl; [now destruct b|].
  destruct (ascii_dec c c); [exact IH | contradiction].
Qed.

Lemma prefix_split (p s : string) :
  String.prefix p s = true -> exists b, s = p ++ b.
Proof.
  revert s. induction p as [|c p IH]; intros s H.
  - now exists s.
  - destruct s as [|d s]; simpl in H; [discriminate|].
    destruct (ascii_dec c d) as [->|]; [|discriminate].
    destruct (IH s H) as [b ->]. now exists b.
Qed.

(** [s.includes(sub)] holds exactly when [sub] occurs in [s]. *)
Lemma includes_iff (s sub : string) :
  JsString.includes s sub = true <-> exists a b, s = a ++ sub ++ b.
Proof.
  split.
  - induction s as [|c s IH]; cbn [JsString.includes]; intros H.
    + rewrite orb_false_r in H. apply prefix_split in H as [b Hb].
      exists "", b. exact Hb.
    + apply orb_true_iff in H as [H|H].
      * apply prefix_split in H as [b ->]. now exists "", b.
      * destruct (IH H) as [a [b ->]]. now exists (String c a), b.
  - intros [a [b ->]]. induction a as [|c a IH].
    + change ("" ++ sub ++ b) with (sub ++ b).
      destruct (sub ++ b) eqn:E; cbn [JsString.includes];
        rewrite <- E, prefix_app; reflexivity.
    + change (String c a ++ sub ++ b) with (String c (a ++ sub ++ b)).
      cbn [JsString.includes]. rewrite IH. apply orb_true_r.
Qed.

Lemma concat_member (ms : list string) (m : string) :
  In m ms -> exists a b, String.concat "," ms = a ++ m ++ b.
Proof.
  induction ms as [|x ms IH]; [intros []|].
  intros [->|Hin].
  - destruct ms as [|y ms].
    + exists "", "". simpl. now rewrite append_nil_r.
    + exists "", ("," ++ String.concat "," (y :: ms)). reflexivity.
  - destruct (IH Hin) as [a [b Hab]].
    destruct ms as [|y ms]; [destruct Hin|].
    exists (x ++ "," ++ a), b.
    change (String.concat "," (x :: y :: ms))
      with (x ++ "," ++ String.concat "," (y :: ms)).
    rewrite Hab. now rewrite !append_assoc.
Qed.

Lemma lookup_in name o v :
  Json.lookup name o = Some v -> In (name, v) o.
Proof.
  induction o as [|[k w] o IH]; simpl; [discriminate|].
  destruct (String.eqb_spec k name) as [->|Hne].
  - intros [= ->]. now left.
  - intros H. right. now apply IH.
Qed.

Lemma member_of_defined o k v sv :
  In (k, v) (Json.defined o) -> Json.serialize v = Some sv ->
  In (Json.quote k ++ ":" ++ sv) (Json.members o).
Proof.
  intros Hin Hser. induction o as [|[k' v'] o IH]; [destruct Hin|].
  cbn [Json.members]. unfold Json.serializeProperty. cbn [fst snd].
  destruct (Json.serialize v') as [sv'|] eqn:Hser'.
  - assert (Hd : Json.defined ((k', v') :: o) = (k', v') :: Json.defined o).
    { destruct v'; [discriminate | reflexivity ..]. }
    rewrite Hd in Hin. destruct Hin as [Heq|Hin].
    + injection Heq as -> ->. left. unfold Json.memberText. congruence.
    + right. now apply IH.
  - apply written_undefined in Hser'. subst v'. now apply IH.
Qed.

(** A key made from parameters whose [userId] is written [text] contains
    every pattern that ends in a prefix of [text]. *)
Lemma key_includes_userId params v (shown : string) :
  Json.lookup "userId" (Json.defined params) = Some (Json.Number v) ->
  String.prefix shown (Json.numberText v) = true ->
  JsString.includes (getCacheKey params)
    (String JsString.dquote
       ("userId" ++ String JsString.dquote (":" ++ shown))) = true.
Proof.
  intros Hl Hpre. apply lookup_in in Hl.
  pose proof (member_of_defined params "userId" (Json.Number v) _ Hl eq_refl)
    as Hm.
  destruct (concat_member _ _ Hm) as [a [b Hab]].
  apply prefix_split in Hpre as [rest Hrest].
  apply includes_iff. exists ("{" ++ a), (rest ++ b ++ "}").
  unfold getCacheKey, Json.stringify. rewrite Hab, Hrest.
  change (Json.quote "userId")
    with (String JsString.dquote ("userId" ++ String JsString.dquote "")).
  cbn [append]. rewrite !append_assoc. cbn [append].
  rewrite !append_assoc. reflexivity.
Qed.

(** A key made from parameters whose [userId] is the finite number [u]
    contains the pattern [invalidateUserCache(u)] looks for. *)
Lemma key_mentions_user params (u : JsNumber.number) :
  JsNumber.isFinite u = true ->
  Json.lookup "userId" (Json.defined params) = Some (Json.Number u) ->
  Interactions.mentionsUser u (getCacheKey params) = true.
Proof.
  intros Hfin Hl. unfold Interactions.mentionsUser. apply orb_true_iff. left.
  apply (key_includes_userId params u _ Hl).
  unfold Json.numberText. rewrite Hfin.
  rewrite <- (append_nil_r (JsNumber.toString u)) at 2. apply prefix_app.
Qed.

Section InvalidateFacts.
Context {V : Type}.
Implicit Types (c : QueryCache.cache V) (key k : string).

Lemma get_delete_all key ks : forall c,
  JsMap.get key (fold_left (fun c k => JsMap.delete k c) ks c)
  = if existsb (String.eqb key) ks then None else JsMap.get key c.
Proof.
  induction ks as [|k ks IH]; intros c; simpl; [reflexivity|].
  rewrite IH. destruct (String.eqb_spec key k) as [->|Hne]; simpl.
  - rewrite get_delete_same. now destruct (existsb _ ks).
  - rewrite get_delete_other by congruence. reflexivity.
Qed.

Lemma invalidate_get userId key c :
  JsMap.get key (Interactions.invalidateUserCache userId c)
  = if Interactions.mentionsUser userId key then None
    else JsMap.get key c.
Proof.
  unfold Interactions.invalidateUserCache. rewrite get_delete_all.
  destruct (existsb (String.eqb key)
              (filter (Interactions.mentionsUser userId) (JsMap.keys c)))
    eqn:Hex.
  - apply existsb_exists in Hex as [k [Hk Heq]].
    apply String.eqb_eq in Heq. subst k.
    apply filter_In in Hk as [_ ->]. reflexivity.
  - destruct (Interactions.mentionsUser userId key) eqn:Hm;
      [|reflexivity].
    destruct (JsMap.get key c) as [e|] eqn:Hg; [|reflexivity].
    exfalso. apply get_some_in in Hg.
    assert (Hin : In key (filter (Interactions.mentionsUser userId)
                            (JsMap.keys c))).
    { apply filter_In. split; [|exact Hm].
      change key with (fst (key, e)). now apply in_map. }
    assert (existsb (String.eqb key)
              (filter (Interactions.mentionsUser userId) (JsMap.keys c))
            = true); [|congruence].
    apply existsb_exists. exists key. split; [exact Hin|].
    apply String.eqb_refl.
Qed.
End InvalidateFacts.

(** ** Cache keys *)

Lemma members_defined o : Json.members (Json.defined o) = Json.members o.
Proof.
  induction o as [|[k v] o IH]; [reflexivity|].
  destruct v; cbn [Json.defined filter snd Json.members];
    unfold Json.serializeProperty; cbn [fst snd Json.serialize];
    fold (Json.defined o); rewrite ?IH; reflexivity.
Qed.

Lemma stringify_defined o : Json.stringify (Json.defined o) = Json.stringify o.
Proof. unfold Json.stringify. now rewrite members_defined. Qed.

Lemma key_of_defined (P1 P2 : Json.object) :
  Json.defined P1 = Json.defined P2 -> getCacheKey P1 = getCacheKey P2.
Proof.
  intros H. unfold getCacheKey.
  now rewrite <- (stringify_defined P1), <- (stringify_defined P2), H.
Qed.

Lemma written_plain (v : Json.value) :
  Json.plain v = true -> Json.written v = v.
Proof.
  induction v as [| | b | n | s | items IH | props IH] using value_induction;
    try reflexivity.
  - cbn [Json.plain Json.written]. now intros ->.
  - cbn [Json.plain Json.written]. intros Hall. f_equal.
    induction IH as [|x items Hx Hitems IHitems]; [reflexivity|].
    cbn [forallb] in Hall. apply andb_true_iff in Hall as [Hp Hall].
    cbn [map]. rewrite (IHitems Hall), (Hx Hp). f_equal.
    destruct x; try reflexivity. discriminate Hp.
  - rewrite written_Obj. intros Hall. f_equal.
    induction IH as [|[name x] props Hx Hprops IHprops]; [reflexivity|].
    cbn [Json.plain] in Hall. apply andb_true_iff in Hall as [Hp Hall].
    cbn [snd] in Hx. cbn [Json.writtenProperties].
    rewrite (Hx Hp), (IHprops Hall).
    destruct x; try reflexivity. discriminate Hp.
Qed.

Lemma writtenProperties_plain (o : Json.object) :
  Json.plainObject o = true -> Json.writtenProperties o = Json.defined o.
Proof.
  unfold Json.plainObject.
  induction o as [|[name x] o IH]; [reflexivity|].
  cbn [forallb snd]. intros H. apply andb_true_iff in H as [Hx Ho].
  cbn [Json.writtenProperties Json.defined filter snd].
  fold (Json.defined o). rewrite (IH Ho).
  destruct x; try reflexivity; rewrite (written_plain _ Hx); reflexivity.
Qed.

(** C2, as the code has it: [getCacheKey] is [JSON.stringify], which writes
    the properties in the order they were inserted and writes [null] for
    every number that is not finite.  Two value-equal parameter sets
    written in different orders get different keys; the value-unequal
    parameter sets with [minRating] [Infinity] and [-Infinity] get the same
    key. *)
Lemma getCacheKey_is_not_canonical :
  (let P1 := [("page", Json.Num 1); ("limit", Json.Num 12)] in
   let P2 := [("limit", Json.Num 12); ("page", Json.Num 1)] in
   Json.value_equal P1 P2 /\ getCacheKey P1 <> getCacheKey P2)
  /\ (let P1 := [("minRating", Json.Number (JsNumber.Infinity false))] in
      let P2 := [("minRating", Json.Number (JsNumber.Infinity true))] in
      ~ Json.value_equal P1 P2 /\ getCacheKey P1 = getCacheKey P2).
Proof.
  split; split.
  - intros name.
    cbv beta iota zeta delta [Json.defined filter snd Json.lookup Json.Num].
    destruct (String.eqb "page" name) eqn:Hp;
      destruct (String.eqb "limit" name) eqn:Hl; try reflexivity.
    apply String.eqb_eq in Hp, Hl. congruence.
  - vm_compute. discriminate.
  - intros H. specialize (H "minRating"). vm_compute in H. discriminate H.
  - reflexivity.
Qed.

(** C2, amended.  The key is the text [JSON.stringify] writes, and two
    parameter sets get the same key exactly when the same is written of
    both: the same property names in the same order with the same values,
    where a property set to [undefined] is not written and [NaN],
    [Infinity], [-Infinity] and an [undefined] array element are all
    written [null].  For parameter sets that hold none of the latter, what
    is written is the defined properties themselves, and value-unequal
    sets never share a key.  (Order independence is not provided:
    value-equal sets written in different orders get different keys.) *)
Theorem getCacheKey_determines_written_properties (P1 P2 : Json.object) :
  (getCacheKey P1 = getCacheKey P2
   <-> Json.writtenProperties P1 = Json.writtenProperties P2)
  /\ (Json.plainObject P1 = true ->
      Json.writtenProperties P1 = Json.defined P1)
  /\ (Json.plainObject P1 = true -> Json.plainObject P2 = true ->
      ~ Json.value_equal P1 P2 -> getCacheKey P1 <> getCacheKey P2).
Proof.
  split; [split; [apply written_of_key | apply key_of_written]|].
  split; [apply writtenProperties_plain|].
  intros H1 H2 Hne Heq. apply Hne. intros name.
  apply written_of_key in Heq.
  rewrite !writtenProperties_plain in Heq by assumption. now rewrite Heq.
Qed.

Lemma getCacheKey_determines_written_properties_witness :
  getCacheKey [("page", Json.Num 1); ("limit", Json.Num 12)]
  <> getCacheKey [("page", Json.Num 1); ("limit", Json.Num 10);
                  ("fieldId", Json.Undefined)].
Proof.
  destruct (getCacheKey_determines_written_properties
              [("page", Json.Num 1); ("limit", Json.Num 12)]
              [("page", Json.Num 1); ("limit", Json.Num 10);
               ("fieldId", Json.Undefined)]) as [_ [_ H]].
  apply H; [reflexivity | reflexivity |].
  intros Heq. specialize (Heq "limit"). vm_compute in Heq. discriminate Heq.
Defined.

(** ** Invalidation *)

(** C1, at a failing input: the interactions cache holds the download
    statistics of user 12 and of user 1.  The entry of user 12 carries no
    tag of user 1 and is live, yet [invalidateUserCache(1)] removes it: the
    key of user 12 contains the text the scan for user 1 looks for. *)
Theorem invalidateUserCache_removes_other_user :
  let key12 := getCacheKey (Samples.downloadStats 12) in
  let key1 := getCacheKey (Samples.downloadStats 1) in
  let c := [(key12, Samples.entryAt 120 0); (key1, Samples.entryAt 10 0)] in
  Spec.hasTag (Spec.UserTag 1) (Samples.downloadStats 12) = false
  /\ fst (Interactions.getCachedQuery 1 key12 c) = Some 120%nat
  /\ fst (Interactions.getCachedQuery 1 key12
            (Interactions.invalidateUserCache 1 c)) = None
  /\ Interactions.invalidateUserCache 1 c = [].
Proof. vm_compute. repeat split. Qed.

(** C9, at a failing input.  The papers cache holds the detail page of
    paper 7; the interactions cache holds the review list of user 3 and the
    reviews of paper 7.  Each of the three entries is tagged with an entity
    that a review of paper 7 by user 3 affects.  Recorded through
    [POST /:id/review] of the papers routes, the review removes the detail
    page and nothing else: both entries of the interactions cache are still
    served.  Recorded through [POST /reviews] of the interactions routes,
    the same review removes the review list of user 3 and nothing else: the
    detail page and the reviews of paper 7 are still served.  Each handler
    performs an invalidation the other one lacks, and neither removes the
    entries tagged with the paper in the interactions cache. *)
Theorem review_write_leaves_stale_entries :
  let detail := getCacheKey (Samples.paperDetail "7") in
  let userKey := getCacheKey (Samples.userReviews 3 1 10) in
  let paperKey := getCacheKey (Samples.paperReviews "7" 1 10) in
  let s := Routes.mkCaches
             [(detail, Samples.entryAt 1 0)]
             [(userKey, Samples.entryAt 2 0);
              (paperKey, Samples.entryAt 3 0)] in
  let viaPapers := Routes.PapersReview "7" 3 in
  let viaInteractions := Routes.SubmitReview (Json.Num 7) 3 in
  (Spec.affected viaPapers = [Spec.PaperTag "7"; Spec.UserTag 3]
   /\ Spec.affected viaInteractions = [Spec.PaperTag "7"; Spec.UserTag 3]
   /\ Spec.hasTag (Spec.PaperTag "7") (Samples.paperDetail "7") = true
   /\ Spec.hasTag (Spec.UserTag 3) (Samples.userReviews 3 1 10) = true
   /\ Spec.hasTag (Spec.PaperTag "7") (Samples.paperReviews "7" 1 10) = true)
  /\ (let s' := Routes.apply viaPapers s in
      fst (Papers.getCachedQuery 1 detail (Routes.papersCache s')) = None
      /\ fst (Interactions.getCachedQuery 1 userKey
                (Routes.interactionsCache s')) = Some 2%nat
      /\ fst (Interactions.getCachedQuery 1 paperKey
                (Routes.interactionsCache s')) = Some 3%nat)
  /\ (let s' := Routes.apply viaInteractions s in
      fst (Interactions.getCachedQuery 1 userKey
             (Routes.interactionsCache s')) = None
      /\ fst (Papers.getCachedQuery 1 detail (Routes.papersCache s'))
         = Some 1%nat
      /\ fst (Interactions.getCachedQuery 1 paperKey
                (Routes.interactionsCache s')) = Some 3%nat).
Proof. vm_compute. repeat split. Qed.

(** ** [LIKE] and substrings *)

Lemma likeTokens_app (a b : string) :
  Search.likeTokens (a ++ b)
  = (Search.likeTokens a ++ Search.likeTokens b)%list.
Proof. induction a as [|c a IH]; simpl; [reflexivity | now rewrite IH]. Qed.

Lemma likeTokens_plain (q : string) :
  Search.plain q = true -> Search.likeTokens q = Search.literals q.
Proof.
  induction q as [|c q IH]; [reflexivity|].
  unfold Search.plain. cbn [JsString.allChars]. intros H.
  apply andb_true_iff in H as [Hc Hq].
  cbn [Search.likeTokens Search.literals]. rewrite (IH Hq). f_equal.
  unfold Search.plainChar in Hc. apply negb_true_iff in Hc.
  apply orb_false_iff in Hc as [Hc _]. apply orb_false_iff in Hc as [H1 H2].
  unfold Search.likeTokenOf. now rewrite H1, H2.
Qed.

Lemma searchPattern_tokens (q : string) :
  Search.plain q = true ->
  Search.likeTokens ("%" ++ q ++ "%")
  = Search.AnyString :: (Search.literals q ++ [Search.AnyString])%list.
Proof.
  intros Hq.
  change ("%" ++ q ++ "%") with (String "%" (q ++ "%")).
  cbn [Search.likeTokens]. rewrite likeTokens_app, (likeTokens_plain q Hq).
  reflexivity.
Qed.

Lemma likeMatch_any (s : string) :
  Search.likeMatch [Search.AnyString] s = true.
Proof.
  induction s as [|c s IH]; [reflexivity|].
  simpl in *. exact IH.
Qed.

Lemma likeMatch_star (P : list Search.likeToken) (s : string) :
  Search.likeMatch (Search.AnyString :: P) s
  = Search.likeMatch P s
    || match s with
       | EmptyString => false
       | String _ s' => Search.likeMatch (Search.AnyString :: P) s'
       end.
Proof. destruct s; reflexivity. Qed.

Lemma likeMatch_literals (q s : string) :
  Search.likeMatch (Search.literals q ++ [Search.AnyString]) s
  = String.prefix (Search.lowerCase q) (Search.lowerCase s).
Proof.
  revert s. induction q as [|c q IH]; intros s.
  - rewrite likeMatch_any. now destruct s.
  - destruct s as [|d s]; [reflexivity|].
    cbn [Search.literals app Search.likeMatch Search.lowerCase String.prefix].
    rewrite IH. unfold Search.sameChar.
    destruct (ascii_dec (Search.lowerChar c) (Search.lowerChar d)) as [E|E].
    + rewrite E, Ascii.eqb_refl. reflexivity.
    + apply Ascii.eqb_neq in E. now rewrite E.
Qed.

(** For text without pattern characters, [LIKE '%text%'] is the
    case-insensitive substring test. *)
Lemma like_contains (text q : string) :
  Search.plain q = true ->
  Search.like text ("%" ++ q ++ "%") = Spec.containsCI text q.
Proof.
  intros Hq. unfold Search.like, Spec.containsCI.
  rewrite (searchPattern_tokens q Hq).
  induction text as [|c text IH].
  - rewrite likeMatch_star, likeMatch_literals. reflexivity.
  - rewrite likeMatch_star, likeMatch_literals, IH. reflexivity.
Qed.

Lemma splitWs_allChars f (s : string) : forall cur sep,
  JsString.allChars f cur = true -> JsString.allChars f s = true ->
  Forall (fun t => JsString.allChars f t = true)
         (JsString.splitWs cur sep s).
Proof.
  induction s as [|c s IH]; intros cur sep Hcur Hs; simpl.
  - now constructor.
  - simpl in Hs. apply andb_true_iff in Hs as [Hc Hs].
    destruct (JsString.isWhiteSpace c).
    + destruct sep; [now apply IH|].
      constructor; [exact Hcur | now apply IH].
    + apply IH; [|exact Hs].
      rewrite allChars_app, Hcur. simpl. now rewrite Hc.
Qed.

Lemma searchTerms_plain (q : string) :
  Search.plain (JsString.trim q) = true ->
  Forall (fun t => Search.plain t = true) (Search.searchTerms q).
Proof.
  intros Hq. unfold Search.searchTerms.
  apply Forall_forall. intros t Ht. apply filter_In in Ht as [Ht _].
  pose proof (splitWs_allChars Search.plainChar (JsString.trim q) "" false
                eq_refl Hq) as H.
  rewrite Forall_forall in H. now apply H.
Qed.

Lemma existsb_ext_in {A : Type} (f g : A -> bool) (l : list A) :
  (forall x, f x = g x) -> existsb f l = existsb g l.
Proof.
  intros H. induction l as [|x l IH]; simpl; [reflexivity|].
  now rewrite H, IH.
Qed.

Lemma splitWs_termsFrom (s : string) :
  (forall cur,
     filter (fun term => (0 <? String.length term)%nat)
            (JsString.splitWs cur false s)
     = Spec.termsFrom cur s)
  /\ filter (fun term => (0 <? String.length term)%nat)
            (JsString.splitWs "" true s)
     = Spec.termsFrom "" s.
Proof.
  induction s as [|c s [IH1 IH2]].
  - split; [intros cur|]; reflexivity.
  - split; [intros cur|]; cbn [JsString.splitWs Spec.termsFrom];
      destruct (JsString.isWhiteSpace c).
    + cbn [filter]. rewrite IH2. reflexivity.
    + apply IH1.
    + exact IH2.
    + apply IH1.
Qed.

Lemma termsFrom_trimStart (s : string) :
  Spec.termsFrom "" (JsString.trimStart s) = Spec.termsFrom "" s.
Proof.
  induction s as [|c s IH]; [reflexivity|].
  cbn [JsString.trimStart].
  destruct (JsString.isWhiteSpace c) eqn:Hc; [|reflexivity].
  cbn [Spec.termsFrom]. now rewrite Hc.
Qed.

Lemma termsFrom_cons (c : ascii) (x y : string) :
  (forall cur, Spec.termsFrom cur x = Spec.termsFrom cur y) ->
  forall cur, Spec.termsFrom cur (String c x) = Spec.termsFrom cur (String c y).
Proof.
  intros H cur. cbn [Spec.termsFrom]. now rewrite !H.
Qed.

Lemma termsFrom_trimEnd (s : string) : forall cur,
  Spec.termsFrom cur (JsString.trimEnd s) = Spec.termsFrom cur s.
Proof.
  induction s as [|c s IH]; intros cur; [reflexivity|].
  cbn [JsString.trimEnd].
  destruct (JsString.trimEnd s) as [|d t] eqn:Ht.
  - destruct (JsString.isWhiteSpace c) eqn:Hc.
    + cbn [Spec.termsFrom]. rewrite Hc, <- (IH "").
      cbn [Spec.termsFrom]. now destruct (0 <? String.length cur)%nat.
    + cbn [Spec.termsFrom]. rewrite Hc, <- IH. reflexivity.
  - apply termsFrom_cons. exact IH.
Qed.

(** The terms the handler extracts are the terms of the query text. *)
Lemma searchTerms_terms (q : string) :
  Search.searchTerms q = Spec.terms q.
Proof.
  unfold Search.searchTerms, JsString.split, Spec.terms, JsString.trim.
  destruct (splitWs_termsFrom (JsString.trimEnd (JsString.trimStart q)))
    as [H _].
  now rewrite H, termsFrom_trimEnd, termsFrom_trimStart.
Qed.

(** The score the query computes is the score of the specification, for
    query text without pattern characters. *)
Lemma relevanceScore_plain (q : string) (p : Search.paper) :
  Search.plain (JsString.trim q) = true ->
  Search.relevanceScore q p = Spec.relevanceScore q p.
Proof.
  intros Hq.
  unfold Search.relevanceScore, Search.relevanceScoreParts,
    Spec.relevanceScore, Search.searchPattern, Search.termPattern,
    Search.keywordsMatch, Search.authorsMatch.
  rewrite <- (searchTerms_terms q).
  rewrite fold_right_app. cbn [fold_right app].
  rewrite fold_right_app. cbn [fold_right].
  rewrite !(like_contains _ _ Hq).
  rewrite (existsb_ext_in
             (fun k => Search.like k ("%" ++ JsString.trim q ++ "%"))
             (fun k => Spec.containsCI k (JsString.trim q)))
    by (intros k; now apply like_contains).
  rewrite (existsb_ext_in
             (fun a => Search.like (fst a) ("%" ++ JsString.trim q ++ "%")
                       || Search.like (snd a) ("%" ++ JsString.trim q ++ "%"))
             (fun a => Spec.containsCI (fst a) (JsString.trim q)
                       || Spec.containsCI (snd a) (JsString.trim q)))
    by (intros a; now rewrite !(like_contains _ _ Hq)).
  assert (Hfield : Search.likeNullable (Search.Field_Name p)
                     ("%" ++ JsString.trim q ++ "%")
                   = Spec.containsCINullable (Search.Field_Name p)
                       (JsString.trim q)).
  { destruct (Search.Field_Name p); simpl; [now apply like_contains|].
    reflexivity. }
  rewrite Hfield.
  set (terms := Search.searchTerms q).
  assert (Hterms :
    forall acc,
      fold_right Z.add acc
        (map (fun term => Search.caseWhen
                (Search.like (Search.Title p) ("%" ++ term ++ "%")) 100)
             terms)
      = 100 * Z.of_nat (List.length
                          (filter (Spec.containsCI (Search.Title p)) terms))
        + acc).
  { intros acc.
    pose proof (searchTerms_plain q Hq) as Hpl. fold terms in Hpl.
    induction Hpl as [|t l Ht Hl IH]; [simpl; lia|].
    cbn [map fold_right filter]. rewrite IH, (like_contains _ _ Ht).
    destruct (Spec.containsCI (Search.Title p) t);
      cbn [Search.caseWhen List.length]; lia. }
  rewrite Hterms. unfold Search.caseWhen, Spec.weight. lia.
Qed.

Lemma baseCondition_plain (q : string) (p : Search.paper) :
  Search.plain (JsString.trim q) = true ->
  Search.baseCondition q p = Spec.eligible q p.
Proof.
  intros Hq.
  unfold Search.baseCondition, Spec.eligible, Search.searchPattern,
    Search.keywordsMatch, Search.authorsMatch.
  rewrite !(like_contains _ _ Hq).
  rewrite (existsb_ext_in
             (fun k => Search.like k ("%" ++ JsString.trim q ++ "%"))
             (fun k => Spec.containsCI k (JsString.trim q)))
    by (intros k; now apply like_contains).
  rewrite (existsb_ext_in
             (fun a => Search.like (fst a) ("%" ++ JsString.trim q ++ "%")
                       || Search.like (snd a) ("%" ++ JsString.trim q ++ "%"))
             (fun a => Spec.containsCI (fst a) (JsString.trim q)
                       || Spec.containsCI (snd a) (JsString.trim q)))
    by (intros a; now rewrite !(like_contains _ _ Hq)).
  assert (Hn : forall o, Search.likeNullable o
                           ("%" ++ JsString.trim q ++ "%")
                         = Spec.containsCINullable o (JsString.trim q)).
  { intros [t|]; simpl; [now apply like_contains | reflexivity]. }
  now rewrite !Hn.
Qed.

(** ** Ordering *)

Lemma compareRows_antisym keys (a b : Search.row) :
  Search.compareRows keys b a = CompOpp (Search.compareRows keys a b).
Proof.
  induction keys as [|[c d] keys IH]; [reflexivity|].
  cbn [Search.compareRows]. destruct d.
  - rewrite <- (Qcompare_antisym (Search.columnValue c b)
                                 (Search.columnValue c a)).
    destruct (Search.columnValue c b ?= Search.columnValue c a)%Q;
      simpl; auto.
  - rewrite <- (Qcompare_antisym (Search.columnValue c a)
                                 (Search.columnValue c b)).
    destruct (Search.columnValue c a ?= Search.columnValue c b)%Q;
      simpl; auto.
Qed.

Lemma notAfter_both keys (a b : Search.row) :
  Search.notAfter keys a b -> Search.notAfter keys b a ->
  Search.compareRows keys a b = Eq.
Proof.
  unfold Search.notAfter. rewrite (compareRows_antisym keys a b).
  destruct (Search.compareRows keys a b); simpl; congruence.
Qed.


Lemma compareRows_tied chain (a b : Search.row) :
  Search.compareRows (Spec.descending chain) a b = Eq <-> Spec.tied chain a b.
Proof.
  unfold Spec.tied.
  induction chain as [|c chain IH]; cbn [Spec.descending map Search.compareRows].
  - split; [constructor | reflexivity].
  - destruct (Search.columnValue c b ?= Search.columnValue c a)%Q eqn:E.
    + apply Qeq_alt in E. rewrite IH. split.
      * intros H. constructor; [now symmetry | exact H].
      * intros H. now inversion H.
    + split; [discriminate|]. intros H. inversion H as [|? ? Heq _]; subst.
      symmetry in Heq. apply Qeq_alt in Heq. congruence.
    + split; [discriminate|]. intros H. inversion H as [|? ? Heq _]; subst.
      symmetry in Heq. apply Qeq_alt in Heq. congruence.
Qed.

Lemma orderByClause_chain (sortBy : Json.value) :
  Search.orderByClause sortBy
  = Spec.descending (Spec.keyChain (Spec.modeOf sortBy)).
Proof.
  unfold Search.orderByClause, Spec.modeOf, Json.strictEquals.
  destruct sortBy as [| |b|n|s|items|props]; try reflexivity.
  destruct (String.eqb s "date"); [reflexivity|].
  destruct (String.eqb s "rating"); [reflexivity|].
  destruct (String.eqb s "downloads"); reflexivity.
Qed.


(** Rows that no key chain ties have one admissible order only. *)
Lemma orderedBy_unique keys (input : list Search.row) :
  (forall a b, In a input -> In b input ->
               Search.compareRows keys a b = Eq -> a = b) ->
  forall out1 out2,
    Search.orderedBy keys input out1 -> Search.orderedBy keys input out2 ->
    out1 = out2.
Proof.
  intros Hties out1 out2 [Hp1 Hs1] [Hp2 Hs2].
  assert (Hp : Permutation out1 out2)
    by (eapply Permutation_trans; [apply Permutation_sym; exact Hp1 | exact Hp2]).
  assert (Hin1 : forall x, In x out1 -> In x input)
    by (intros x Hx; eapply Permutation_in; [apply Permutation_sym; exact Hp1 | exact Hx]).
  clear Hp1 Hp2.
  revert out2 Hs2 Hp. induction Hs1 as [|x t1 Ht1 IH Hx]; intros out2 Hs2 Hp.
  - apply Permutation_nil in Hp. now subst.
  - destruct out2 as [|y t2].
    { apply Permutation_sym, Permutation_nil in Hp. discriminate. }
    inversion Hs2 as [|? ? Ht2 Hy]; subst.
    assert (Hxy : x = y).
    { assert (Hyin : In y (x :: t1))
        by (eapply Permutation_in; [apply Permutation_sym; exact Hp | now left]).
      assert (Hxin : In x (y :: t2))
        by (eapply Permutation_in; [exact Hp | now left]).
      destruct Hyin as [Heq|Hyin]; [exact Heq|].
      destruct Hxin as [Heq|Hxin]; [now symmetry|].
      rewrite Forall_forall in Hx, Hy.
      apply Hties.
      - apply Hin1. now left.
      - apply Hin1. now right.
      - apply notAfter_both; [now apply Hx | now apply Hy]. }
    subst y. f_equal. apply IH.
    + intros z Hz. apply Hin1. now right.
    + exact Ht2.
    + eapply Permutation_cons_inv. exact Hp.
Qed.


(** ** White space *)

Lemma trimStart_blank (s : string) :
  Spec.blank s = true -> JsString.trimStart s = "".
Proof.
  unfold Spec.blank. induction s as [|c s IH]; simpl; [reflexivity|].
  intros H. apply andb_true_iff in H as [Hc Hs]. rewrite Hc. now apply IH.
Qed.

Lemma trimStart_nonblank (s : string) :
  Spec.blank s = false ->
  exists c r, JsString.trimStart s = String c r
              /\ JsString.isWhiteSpace c = false.
Proof.
  unfold Spec.blank. induction s as [|c s IH]; simpl; [discriminate|].
  destruct (JsString.isWhiteSpace c) eqn:Hc; simpl.
  - exact IH.
  - intros _. now exists c, s.
Qed.

Lemma trimEnd_keeps_head (c : ascii) (r : string) :
  JsString.isWhiteSpace c = false ->
  exists t, JsString.trimEnd (String c r) = String c t.
Proof.
  intros Hc. cbn [JsString.trimEnd].
  destruct (JsString.trimEnd r) as [|d t].
  - rewrite Hc. now exists "".
  - now exists (String d t).
Qed.

(** The trimmed text is empty exactly when the text is empty or made of
    white space only. *)
Lemma trim_empty_iff_blank (s : string) :
  (String.length (JsString.trim s) =? 0)%nat = Spec.blank s.
Proof.
  unfold JsString.trim. destruct (Spec.blank s) eqn:Hb.
  - now rewrite (trimStart_blank s Hb).
  - destruct (trimStart_nonblank s Hb) as [c [r [-> Hc]]].
    destruct (trimEnd_keeps_head c r Hc) as [t ->]. reflexivity.
Qed.

Lemma blank_of_empty (s : string) :
  (String.length s =? 0)%nat = true -> Spec.blank s = true.
Proof. destruct s; [reflexivity | discriminate]. Qed.

(** ** The search handlers *)

(** C10, at a failing input: [GET /search/query?q=%20&q=%20].  The query
    parser delivers [q] as the array of the two texts, each a single space.
    The array is truthy and has no [trim] method: the guard throws inside
    the handler's [try], and the answer is the 500 [Search failed] of the
    [catch], not the 400 of a missing query.  The guard of [POST /search]
    in interactions.js tests [typeof query !== 'string'] before it trims
    and answers 400 to the same value. *)
Theorem repeated_blank_query_is_not_rejected
    (rest : string -> Guard.response) :
  let q := Json.Arr [Json.Str " "; Json.Str " "] in
  Guard.queryParamVerdict q = Guard.Thrown
  /\ Guard.getSearchQuery q rest = Guard.searchFailed
  /\ Guard.getSearchQuery q rest <> Guard.invalidQuery
  /\ Guard.status (Guard.getSearchQuery q rest) = 500
  /\ Guard.postSearch q rest = Guard.invalidQuery
  /\ Guard.status (Guard.postSearch q rest) = 400.
Proof. repeat split. discriminate. Qed.

(** ** Ranking *)









(** C6, as the code has it: two stored papers that differ in their id only
    match the query [neural] with equal score, rating, downloads and date.
    Under every one of the four modes the search has two answers, one for
    each order of the two rows: no record id breaks the tie. *)
Lemma tied_papers_have_two_answers :
  let papers := [Samples.twin 1; Samples.twin 2] in
  let row1 := Search.searchRow "neural" (Samples.twin 1) in
  let row2 := Search.searchRow "neural" (Samples.twin 2) in
  Forall (fun sortBy =>
            Search.answers (Samples.unfiltered "neural" sortBy) papers
              [row1; row2]
            /\ Search.answers (Samples.unfiltered "neural" sortBy) papers
                 [row2; row1])
         ["relevance"; "date"; "rating"; "downloads"]
  /\ [row1; row2] <> [row2; row1].
Proof.
  intros papers row1 row2.
  assert (Hres : forall sortBy,
            Search.searchResults (Samples.unfiltered "neural" sortBy) papers
            = [row1; row2]) by (intros sortBy; vm_compute; reflexivity).
  assert (Hany : forall sortBy out,
            Permutation [row1; row2] out ->
            StronglySorted
              (Search.notAfter (Search.orderByClause (Json.Str sortBy))) out ->
            Search.answers (Samples.unfiltered "neural" sortBy) papers out).
  { intros sortBy out Hperm Hs. split; [reflexivity|].
    exists out. split.
    - rewrite Hres. split; assumption.
    - unfold Search.page. simpl Z.to_nat. cbn [skipn].
      apply Permutation_length in Hperm. simpl in Hperm.
      destruct out as [|a [|b [|c out]]]; try discriminate Hperm.
      reflexivity. }
  split; [|discriminate].
  repeat constructor; apply Hany;
    try apply perm_swap; try apply Permutation_refl;
    repeat constructor; vm_compute; discriminate.
Qed.

(** C6, amended. The ordering is a function of [sortBy] alone, and two runs
    of the search over the same request and the same stored papers return
    the same page, in the same order, whenever no two different result rows
    agree on every key of the chain of the mode.  Rows that agree on every
    listed key are not ordered further. *)
Theorem ranking_deterministic_without_ties
    (r : Search.request) (papers : list Search.paper)
    (out1 out2 : list Search.row) :
  (forall a b, In a (Search.searchResults r papers) ->
               In b (Search.searchResults r papers) ->
               Spec.tied (Spec.keyChain (Spec.modeOf (Search.sortBy r))) a b ->
               a = b) ->
  Search.answers r papers out1 -> Search.answers r papers out2 ->
  out1 = out2.
Proof.
  intros Hties [_ [o1 [Ho1 ->]]] [_ [o2 [Ho2 ->]]]. f_equal.
  eapply orderedBy_unique; [|exact Ho1 | exact Ho2].
  intros a b Ha Hb Heq. apply Hties; [exact Ha | exact Hb|].
  rewrite orderByClause_chain in Heq. now apply compareRows_tied.
Qed.

Lemma neural_results :
  Search.searchResults (Samples.unfiltered "neural networks" "relevance")
    [Samples.abstractPhrase; Samples.titled]
  = [Search.searchRow "neural networks" Samples.abstractPhrase;
     Search.searchRow "neural networks" Samples.titled].
Proof. vm_compute. reflexivity. Qed.

Lemma neural_untied (a b : Search.row) :
  In a [Search.searchRow "neural networks" Samples.abstractPhrase;
        Search.searchRow "neural networks" Samples.titled] ->
  In b [Search.searchRow "neural networks" Samples.abstractPhrase;
        Search.searchRow "neural networks" Samples.titled] ->
  Spec.tied (Spec.keyChain Spec.relevance) a b -> a = b.
Proof.
  intros [<-|[<-|[]]] [<-|[<-|[]]] Ht; try reflexivity;
    inversion Ht as [|? ? Hq _]; subst; vm_compute in Hq; discriminate Hq.
Qed.

Lemma neural_untied_keys (a b : Search.row) :
  In a [Search.searchRow "neural networks" Samples.abstractPhrase;
        Search.searchRow "neural networks" Samples.titled] ->
  In b [Search.searchRow "neural networks" Samples.abstractPhrase;
        Search.searchRow "neural networks" Samples.titled] ->
  Search.compareRows (Search.orderByClause (Json.Str "relevance")) a b = Eq ->
  a = b.
Proof.
  intros Ha Hb Heq. apply (neural_untied a b Ha Hb).
  rewrite orderByClause_chain in Heq. now apply compareRows_tied.
Qed.

Lemma neural_ordered :
  Search.orderedBy (Search.orderByClause (Json.Str "relevance"))
    [Search.searchRow "neural networks" Samples.abstractPhrase;
     Search.searchRow "neural networks" Samples.titled]
    [Search.searchRow "neural networks" Samples.titled;
     Search.searchRow "neural networks" Samples.abstractPhrase].
Proof.
  split; [apply perm_swap|].
  repeat constructor. vm_compute. discriminate.
Qed.

Lemma ranking_deterministic_without_ties_witness :
  Search.page (Samples.unfiltered "neural networks" "relevance")
    [Search.searchRow "neural networks" Samples.titled;
     Search.searchRow "neural networks" Samples.abstractPhrase]
  = [Search.searchRow "neural networks" Samples.titled;
     Search.searchRow "neural networks" Samples.abstractPhrase].
Proof.
  assert (Hans : forall out,
            out = Search.page (Samples.unfiltered "neural networks" "relevance")
                    [Search.searchRow "neural networks" Samples.titled;
                     Search.searchRow "neural networks" Samples.abstractPhrase]
            -> Search.answers (Samples.unfiltered "neural networks" "relevance")
                 [Samples.abstractPhrase; Samples.titled] out).
  { intros out ->. split; [reflexivity|]. eexists. split; [|reflexivity].
    rewrite neural_results. exact neural_ordered. }
  apply (ranking_deterministic_without_ties
           (Samples.unfiltered "neural networks" "relevance")
           [Samples.abstractPhrase; Samples.titled]).
  - rewrite neural_results. exact neural_untied.
  - apply Hans. reflexivity.
  - apply Hans. reflexivity.
Defined.

(** C7, as the code has it: every signal outside the title terms asks for
    the whole query text.  A paper with the word [neural] alone in its
    abstract gets score 0 for the query [neural networks], fails the base
    search condition, and is not among the result rows. *)
Lemma abstract_word_alone_is_not_matched :
  Search.relevanceScore "neural networks" Samples.abstractWord = 0
  /\ Search.baseCondition "neural networks" Samples.abstractWord = false
  /\ Search.searchResults (Samples.unfiltered "neural networks" "relevance")
       [Samples.titled; Samples.abstractWord]
     = [Search.searchRow "neural networks" Samples.titled].
Proof. vm_compute. repeat split. Qed.

(** C7, amended. For every paper and every query whose trimmed text has no
    [LIKE] pattern character ([%], [_], opening bracket), the relevance score
    is the sum of the all-or-nothing signals: 1000 when the trimmed query
    text occurs in the title (case disregarded), 100 for each white-space
    separated term that occurs in the title, 500 for the query text in a
    keyword string, 300 in an author's first or last name, 200 in the
    abstract, 150 in the field name; and the papers that match are those
    with the query text in the title, abstract, field name, field
    description, a keyword string or an author name.  For the query
    [neural networks], a paper titled exactly [Neural Networks] scores 1200;
    a paper whose abstract contains the query text, and nothing else,
    scores 200; every answer lists both, the titled one first. *)
Theorem relevance_score_is_sum_of_signals :
  (forall q p, Search.plain (JsString.trim q) = true ->
     Search.relevanceScore q p = Spec.relevanceScore q p
     /\ Search.baseCondition q p = Spec.eligible q p)
  /\ Search.relevanceScore "neural networks" Samples.titled = 1200
  /\ Search.relevanceScore "neural networks" Samples.abstractPhrase = 200
  /\ forall out,
       Search.answers (Samples.unfiltered "neural networks" "relevance")
         [Samples.abstractPhrase; Samples.titled] out ->
       out = [Search.searchRow "neural networks" Samples.titled;
              Search.searchRow "neural networks" Samples.abstractPhrase].
Proof.
  split; [|split; [|split]].
  - intros q p Hq. split;
      [now apply relevanceScore_plain | now apply baseCondition_plain].
  - vm_compute. reflexivity.
  - vm_compute. reflexivity.
  - intros out [_ [ordered [Ho ->]]]. rewrite neural_results in Ho.
    change (Search.sortBy (Samples.unfiltered "neural networks" "relevance"))
      with (Json.Str "relevance") in Ho.
    rewrite (orderedBy_unique _ _ neural_untied_keys _ _ Ho neural_ordered).
    reflexivity.
Qed.

Lemma relevance_score_is_sum_of_signals_witness :
  Search.relevanceScore "  Deep Learning " Samples.titled
  = Spec.relevanceScore "  Deep Learning " Samples.titled.
Proof.
  destruct relevance_score_is_sum_of_signals as [H _].
  destruct (H "  Deep Learning " Samples.titled eq_refl) as [Hs _].
  exact Hs.
Defined.

(** ** Rounding to a double *)

Lemma roundInteger_between (m : Q) (A B : Z) :
  Qle (inject_Z A) m -> Qle m (inject_Z B) ->
  A <= Double.roundInteger m <= B.
Proof.
  intros HA HB. unfold Double.roundInteger.
  assert (Hf : A <= Qfloor m).
  { rewrite <- (Qfloor_Z A). now apply Qfloor_resp_le. }
  assert (Hc : Qfloor m <= B).
  { rewrite <- (Qfloor_Z B). now apply Qfloor_resp_le. }
  assert (Hup : Qlt (inject_Z (Qfloor m)) (inject_Z B) -> Qfloor m + 1 <= B).
  { intros H. rewrite <- Zlt_Qlt in H. lia. }
  assert (Hfrac : Qlt 0 (m - inject_Z (Qfloor m)) ->
                  Qlt (inject_Z (Qfloor m)) (inject_Z B)).
  { intros H. apply Qlt_le_trans with m; [|exact HB].
    apply Qlt_minus_iff. exact H. }
  destruct (Qcompare_spec (m - inject_Z (Qfloor m)) (1 # 2)) as [He|Hl|Hg].
  - destruct (Z.even (Qfloor m)); [lia|].
    split; [lia|]. apply Hup, Hfrac. rewrite He. reflexivity.
  - lia.
  - split; [lia|]. apply Hup, Hfrac.
    apply Qlt_trans with (1 # 2); [reflexivity | exact Hg].
Qed.

Lemma exponent_le (q : Q) (j : Z) :
  0 <= j -> Qlt 0 q -> Qle q (inject_Z (2 ^ j)) -> Double.exponent q <= j.
Proof.
  intros Hj Hpos Hq. destruct q as [n d].
  assert (Hn : 0 < n) by (unfold Qlt in Hpos; simpl in Hpos; lia).
  assert (Hle : n <= Zpos d * 2 ^ j)
    by (unfold Qle in Hq; simpl in Hq; lia).
  assert (Hlog : Z.log2 n <= Z.log2 (Zpos d) + j).
  { rewrite Z.add_comm, <- Z.log2_mul_pow2 by lia.
    now apply Z.log2_le_mono. }
  unfold Double.exponent. cbn [Qnum Qden].
  rewrite (Z.abs_eq n) by lia.
  destruct (Qle_bool _ _); lia.
Qed.

Lemma ulp_inverse (q : Q) :
  Double.exponent q <= 52 ->
  exists P : Z, 0 < P /\ Qeq (Double.ulp q) (/ inject_Z P).
Proof.
  intros He. unfold Double.ulp.
  set (k := Z.max (Double.exponent q) (-1022) - 52).
  assert (Hk : k <= 0) by (unfold k; lia).
  exists (2 ^ (- k)). split; [apply Z.pow_pos_nonneg; lia|].
  replace k with (- (- k)) at 1 by lia.
  rewrite Qpower_opp. apply Qinv_comp.
  rewrite Zpower_Qpower by lia. reflexivity.
Qed.

(** A rational between two integers rounds to a double between them, when
    its exponent leaves room for them in the significand. *)
Lemma round_between (q : Q) (a b : Z) :
  0 < a -> Double.exponent q <= 52 ->
  Qle (inject_Z a) q -> Qle q (inject_Z b) ->
  Qle (inject_Z a) (Double.round q) /\ Qle (Double.round q) (inject_Z b).
Proof.
  intros Ha He Hlo Hhi.
  assert (Hq : Qlt 0 q).
  { apply Qlt_le_trans with (inject_Z a); [|exact Hlo].
    change 0%Q with (inject_Z 0). now rewrite <- Zlt_Qlt. }
  unfold Double.round.
  destruct (Qeq_bool q 0) eqn:Hz.
  { apply Qeq_bool_iff in Hz. rewrite Hz in Hq. now apply Qlt_irrefl in Hq. }
  destruct (ulp_inverse q He) as [P [HP Hulp]].
  assert (HPQ : Qlt 0 (inject_Z P)).
  { change 0%Q with (inject_Z 0). now rewrite <- Zlt_Qlt. }
  assert (Hm : Qeq (q / Double.ulp q) (q * inject_Z P)).
  { rewrite Hulp. unfold Qdiv. now rewrite Qinv_involutive. }
  destruct (roundInteger_between (q / Double.ulp q) (a * P) (b * P))
    as [Hn1 Hn2].
  { rewrite Hm, inject_Z_mult. apply Qmult_le_compat_r; [exact Hlo|].
    now apply Qlt_le_weak. }
  { rewrite Hm, inject_Z_mult. apply Qmult_le_compat_r; [exact Hhi|].
    now apply Qlt_le_weak. }
  set (n := Double.roundInteger (q / Double.ulp q)) in *.
  rewrite Hulp. split.
  - apply Qle_shift_div_l; [exact HPQ|].
    rewrite <- inject_Z_mult. now rewrite <- Zle_Qle.
  - apply Qle_shift_div_r; [exact HPQ|].
    rewrite <- inject_Z_mult. now rewrite <- Zle_Qle.
Qed.

(** [round] on rationals whose doubles are known. *)
Lemma round_samples :
  Qeq_bool (Double.round (39 # 10)) (8782019273372467 # 2251799813685248)
  && Qeq_bool (Double.round 4) 4
  && Qeq_bool (Double.round (1 # 3)) (6004799503160661 # 18014398509481984)
  && Qeq_bool (Double.round (37 # 10)) (4165829655317709 # 1125899906842624)
  && Qeq_bool (Double.round (1 # 10)) (3602879701896397 # 36028797018963968)
  = true.
Proof. vm_compute. reflexivity. Qed.

(** * Part III: further properties of the code *)

(** ** The cache under arbitrary traces *)

Lemma step_ok {V : Type} (CACHE_TTL : Z) (MAX_SIZE : nat)
    (o : QueryCache.op V) (c : QueryCache.cache V) :
  QueryCache.cache_ok MAX_SIZE c ->
  QueryCache.cache_ok MAX_SIZE (QueryCache.step CACHE_TTL MAX_SIZE o c).
Proof.
  intros Hok. destruct o as [key d now|key now]; simpl.
  - now apply setCachedQuery_ok.
  - now apply getCachedQuery_ok.
Qed.

(** X1. Whatever sequence of [setCachedQuery] and [getCachedQuery] calls is
    made on the empty map, and at whatever instants, the map never holds
    two entries for one key and never more than [MAX_SIZE] entries. *)
Theorem cache_bounded_on_every_trace
    {V : Type} (CACHE_TTL : Z) (MAX_SIZE : nat) (ops : list (QueryCache.op V)) :
  let c := QueryCache.run CACHE_TTL MAX_SIZE ops JsMap.empty in
  NoDup (JsMap.keys c) /\ (JsMap.size c <= MAX_SIZE)%nat.
Proof.
  assert (H : forall (l : list (QueryCache.op V)) c0,
            QueryCache.cache_ok MAX_SIZE c0 ->
            QueryCache.cache_ok MAX_SIZE
              (QueryCache.run CACHE_TTL MAX_SIZE l c0)).
  { induction l as [|o l IH]; intros c0 Hok; [exact Hok|].
    simpl. apply IH. now apply step_ok. }
  apply H. split; [constructor | unfold JsMap.size; simpl; lia].
Qed.

Lemma delete_head {V : Type} (k : string) (e : QueryCache.entry V)
    (c : QueryCache.cache V) :
  ~ In k (JsMap.keys c) -> JsMap.delete k ((k, e) :: c) = c.
Proof.
  intros H. simpl. rewrite String.eqb_refl. simpl. now apply delete_notin.
Qed.

Lemma setCachedQuery_appends
    {V : Type} (MAX_SIZE : nat) (c : QueryCache.cache V)
    (key : string) (d : V) (now : Z) :
  QueryCache.cache_ok MAX_SIZE c ->
  ~ In key (JsMap.keys c) ->
  (0 < MAX_SIZE)%nat ->
  QueryCache.setCachedQuery MAX_SIZE now key d c
  = if (JsMap.size c <? MAX_SIZE)%nat
    then (c ++ [(key, QueryCache.mkEntry d now)])%list
    else (tl c ++ [(key, QueryCache.mkEntry d now)])%list.
Proof.
  intros [Hnd Hsz] Hnotin Hpos. unfold QueryCache.setCachedQuery.
  rewrite set_absent by assumption.
  assert (Hlen : JsMap.size (c ++ [(key, QueryCache.mkEntry d now)])%list
                 = S (JsMap.size c)).
  { unfold JsMap.size. rewrite length_app. simpl. lia. }
  rewrite Hlen.
  destruct (Nat.ltb_spec (JsMap.size c) MAX_SIZE) as [Hlt|Hge].
  - destruct (Nat.ltb_spec MAX_SIZE (S (JsMap.size c))); [lia | reflexivity].
  - destruct (Nat.ltb_spec MAX_SIZE (S (JsMap.size c))); [|lia].
    destruct c as [|[k0 e0] c]; [unfold JsMap.size in *; simpl in *; lia|].
    cbn [app JsMap.firstKey tl].
    apply delete_head.
    simpl in Hnd. apply NoDup_cons_iff in Hnd as [Hk0 _].
    unfold JsMap.keys. rewrite map_app. simpl.
    intros Hin. apply in_app_or in Hin as [Hin|[Heq|[]]].
    + now apply Hk0.
    + apply Hnotin. left. now symmetry.
Qed.

(** X2. Storing a key that is not in the cache appends it as the newest
    entry; when the cache is full the oldest-inserted entry is dropped to
    make room, whether or not it has expired and whether or not other
    entries have.  No other entry changes. *)
Theorem setCachedQuery_new_key
    {V : Type} (MAX_SIZE : nat) (c : QueryCache.cache V)
    (key : string) (d : V) (now : Z) :
  QueryCache.cache_ok MAX_SIZE c ->
  ~ In key (JsMap.keys c) ->
  (0 < MAX_SIZE)%nat ->
  QueryCache.setCachedQuery MAX_SIZE now key d c
  = if (JsMap.size c <? MAX_SIZE)%nat
    then (c ++ [(key, QueryCache.mkEntry d now)])%list
    else (tl c ++ [(key, QueryCache.mkEntry d now)])%list.
Proof. apply setCachedQuery_appends. Qed.

Lemma setCachedQuery_new_key_witness :
  Papers.setCachedQuery 5 "c" 3%nat
    [("a"%string, QueryCache.mkEntry 1%nat 0);
     ("b"%string, QueryCache.mkEntry 2%nat 1)]
  = [("a"%string, QueryCache.mkEntry 1%nat 0);
     ("b"%string, QueryCache.mkEntry 2%nat 1);
     ("c"%string, QueryCache.mkEntry 3%nat 5)].
Proof.
  apply (setCachedQuery_new_key Papers.MAX_SIZE
           [("a"%string, QueryCache.mkEntry 1%nat 0);
            ("b"%string, QueryCache.mkEntry 2%nat 1)] "c" 3%nat 5).
  - split; [apply distinctb_NoDup; reflexivity|].
    unfold JsMap.size, Papers.MAX_SIZE. simpl. lia.
  - simpl. intros [H|[H|[]]]; discriminate H.
  - unfold Papers.MAX_SIZE. lia.
Defined.

Lemma replace_get_other {E : Type} (key k : string) (e : E) (m : JsMap.t E) :
  k <> key -> JsMap.get k (JsMap.replace key e m) = JsMap.get k m.
Proof.
  intros Hne. induction m as [|[k' e'] m IH]; simpl; [reflexivity|].
  destruct (String.eqb_spec k' key) as [->|Hne']; simpl.
  - destruct (String.eqb_spec key k); [congruence | reflexivity].
  - destruct (String.eqb_spec k' k); [reflexivity | exact IH].
Qed.

(** X3. Storing a key that is already in the cache replaces its value and
    restarts its TTL, but leaves it where it stands in the eviction order:
    the keys and their order are unchanged, nothing is evicted, and every
    other key keeps its entry. *)
Theorem setCachedQuery_existing_key
    {V : Type} (MAX_SIZE : nat) (c : QueryCache.cache V)
    (key : string) (d : V) (now : Z) :
  QueryCache.cache_ok MAX_SIZE c ->
  In key (JsMap.keys c) ->
  let c' := QueryCache.setCachedQuery MAX_SIZE now key d c in
  JsMap.keys c' = JsMap.keys c
  /\ JsMap.get key c' = Some (QueryCache.mkEntry d now)
  /\ forall k, k <> key -> JsMap.get k c' = JsMap.get k c.
Proof.
  intros [Hnd Hsz] Hin c'.
  assert (Hc' : c' = JsMap.replace key (QueryCache.mkEntry d now) c).
  { unfold c', QueryCache.setCachedQuery.
    rewrite size_set_present by assumption.
    destruct (Nat.ltb_spec MAX_SIZE (JsMap.size c)); [lia|].
    unfold JsMap.set, JsMap.has.
    destruct (JsMap.get key c) eqn:Hg; [reflexivity|].
    apply get_none_notin in Hg. contradiction. }
  rewrite Hc'. split; [apply keys_replace|]. split.
  - now apply get_replace_same.
  - intros k Hne. now apply replace_get_other.
Qed.

Lemma setCachedQuery_existing_key_witness :
  JsMap.keys (Papers.setCachedQuery 9 "a" 7%nat
                [("a"%string, QueryCache.mkEntry 1%nat 0);
                 ("b"%string, QueryCache.mkEntry 2%nat 1)])
  = ["a"%string; "b"%string].
Proof.
  apply (setCachedQuery_existing_key Papers.MAX_SIZE
           [("a"%string, QueryCache.mkEntry 1%nat 0);
            ("b"%string, QueryCache.mkEntry 2%nat 1)] "a" 7%nat 9).
  - split; [apply distinctb_NoDup; reflexivity|].
    unfold JsMap.size, Papers.MAX_SIZE. simpl. lia.
  - simpl. now left.
Defined.

(** ** Invalidation as a filter *)

Lemma delete_all_filter {V : Type} (ks : list string) :
  forall c : QueryCache.cache V,
    fold_left (fun c k => JsMap.delete k c) ks c
    = filter (fun ke => negb (existsb (String.eqb (fst ke)) ks)) c.
Proof.
  induction ks as [|k ks IH]; intros c; simpl.
  - induction c as [|x c IHc]; simpl; [reflexivity | now rewrite <- IHc].
  - rewrite IH. unfold JsMap.delete.
    induction c as [|[k' e] c IHc]; simpl; [reflexivity|].
    destruct (String.eqb k' k); simpl; [exact IHc|].
    destruct (existsb (String.eqb k') ks); simpl; [exact IHc|].
    now rewrite IHc.
Qed.

Lemma invalidate_filter {V : Type} (userId : JsNumber.number)
    (c : QueryCache.cache V) :
  Interactions.invalidateUserCache userId c
  = filter (fun ke => negb (Interactions.mentionsUser userId (fst ke))) c.
Proof.
  unfold Interactions.invalidateUserCache. rewrite delete_all_filter.
  apply filter_ext_in. intros [k e] Hin. simpl. f_equal.
  destruct (Interactions.mentionsUser userId k) eqn:Hm.
  - apply existsb_exists. exists k. split; [|apply String.eqb_refl].
    apply filter_In. split; [|exact Hm].
    change k with (fst (k, e)). now apply in_map.
  - destruct (existsb (String.eqb k)
                (filter (Interactions.mentionsUser userId) (JsMap.keys c)))
      eqn:Hex; [|reflexivity].
    apply existsb_exists in Hex as [k' [Hk' Heq]].
    apply String.eqb_eq in Heq. subst k'.
    apply filter_In in Hk' as [_ Hk']. congruence.
Qed.

Lemma filter_twice {A : Type} (f : A -> bool) (l : list A) :
  filter f (filter f l) = filter f l.
Proof.
  induction l as [|x l IH]; simpl; [reflexivity|].
  destruct (f x) eqn:Hx; simpl; rewrite ?Hx, IH; reflexivity.
Qed.

Lemma filter_swap {A : Type} (f g : A -> bool) (l : list A) :
  filter f (filter g l) = filter g (filter f l).
Proof.
  induction l as [|x l IH]; simpl; [reflexivity|].
  destruct (f x) eqn:Hf; destruct (g x) eqn:Hg; simpl;
    rewrite ?Hf, ?Hg, IH; reflexivity.
Qed.

Lemma keys_filter_nodup {V : Type} (f : string * QueryCache.entry V -> bool)
    (c : QueryCache.cache V) :
  NoDup (JsMap.keys c) -> NoDup (JsMap.keys (filter f c)).
Proof.
  induction c as [|[k e] c IH]; simpl; [auto|].
  intros Hnd. apply NoDup_cons_iff in Hnd as [Hk Hnd].
  destruct (f (k, e)); simpl; [|now apply IH].
  constructor; [|now apply IH].
  intros Hin. apply Hk. unfold JsMap.keys in *.
  apply in_map_iff in Hin as [x [Hx Hin]].
  apply filter_In in Hin as [Hin _]. apply in_map_iff. now exists x.
Qed.

(** X4. [invalidateUserCache(userId)] keeps exactly the entries whose key
    does not contain one of the two texts it scans for, with their values,
    timestamps and order; all the others are removed.  Calling it twice is
    the same as calling it once, two invalidations give the same cache in
    either order, and the cache stays within its bounds. *)
Theorem invalidateUserCache_is_a_filter
    {V : Type} (u v : JsNumber.number) (c : QueryCache.cache V) :
  Interactions.invalidateUserCache u c
    = filter (fun ke => negb (Interactions.mentionsUser u (fst ke))) c
  /\ Interactions.invalidateUserCache u (Interactions.invalidateUserCache u c)
     = Interactions.invalidateUserCache u c
  /\ Interactions.invalidateUserCache u (Interactions.invalidateUserCache v c)
     = Interactions.invalidateUserCache v (Interactions.invalidateUserCache u c)
  /\ (forall MAX_SIZE, QueryCache.cache_ok MAX_SIZE c ->
        QueryCache.cache_ok MAX_SIZE (Interactions.invalidateUserCache u c)).
Proof.
  split; [apply invalidate_filter|]. split; [|split].
  - rewrite !invalidate_filter. apply filter_twice.
  - rewrite !invalidate_filter. apply filter_swap.
  - intros MAX_SIZE [Hnd Hsz]. rewrite invalidate_filter. split.
    + now apply keys_filter_nodup.
    + eapply Nat.le_trans; [apply filter_length_le | exact Hsz].
Qed.

Lemma invalidateUserCache_is_a_filter_witness :
  QueryCache.cache_ok Interactions.MAX_SIZE
    (Interactions.invalidateUserCache 3
       [(getCacheKey (Samples.userReviews 3 1 10), Samples.entryAt 2 0);
        (getCacheKey (Samples.paperReviews "7" 1 10), Samples.entryAt 3 0)]).
Proof.
  destruct (invalidateUserCache_is_a_filter 3 3
              [(getCacheKey (Samples.userReviews 3 1 10), Samples.entryAt 2 0);
               (getCacheKey (Samples.paperReviews "7" 1 10),
                Samples.entryAt 3 0)]) as [_ [_ [_ H]]].
  apply H. split; [apply distinctb_NoDup; vm_compute; reflexivity|].
  unfold JsMap.size, Interactions.MAX_SIZE. simpl. lia.
Defined.

(** ** The prefix collision in general *)

(** X5. Whenever the text of the number [u] is a prefix of the text
    written for [v] (1 and 12, 12 and 120, 1 and 1e+21, ...),
    [invalidateUserCache(u)] removes every entry whose parameters have
    [userId = v]. *)
Theorem invalidateUserCache_removes_longer_ids
    {V : Type} (u v : JsNumber.number) (params : Json.object)
    (c : QueryCache.cache V) :
  String.prefix (JsNumber.toString u) (Json.numberText v) = true ->
  Json.lookup "userId" (Json.defined params) = Some (Json.Number v) ->
  JsMap.get (getCacheKey params) (Interactions.invalidateUserCache u c) = None.
Proof.
  intros Hpre Hl. rewrite invalidate_get.
  assert (Hm : Interactions.mentionsUser u (getCacheKey params) = true);
    [|now rewrite Hm].
  unfold Interactions.mentionsUser. apply orb_true_iff. left.
  now apply (key_includes_userId params v).
Qed.

Lemma invalidateUserCache_removes_longer_ids_witness :
  JsMap.get (getCacheKey (Samples.userReviews 120 1 10))
    (Interactions.invalidateUserCache 12
       [(getCacheKey (Samples.userReviews 120 1 10), Samples.entryAt 2 0)])
  = None.
Proof.
  apply (invalidateUserCache_removes_longer_ids 12 120
           (Samples.userReviews 120 1 10)); reflexivity.
Defined.

(** ** The cached read handler *)

Section KeepsEntry.
Context {V : Type}.
Variable CACHE_TTL : Z.
Variable MAX_SIZE : nat.
Implicit Types (c before rest : QueryCache.cache V) (key k : string).

Lemma delete_app k before rest :
  JsMap.delete k (before ++ rest)%list
  = (JsMap.delete k before ++ JsMap.delete k rest)%list.
Proof. unfold JsMap.delete. apply filter_app. Qed.

Lemma replace_app_present k (e : QueryCache.entry V) before rest :
  In k (JsMap.keys before) ->
  JsMap.replace k e (before ++ rest)%list
  = (JsMap.replace k e before ++ rest)%list.
Proof.
  induction before as [|[k' e'] before IH]; [intros []|].
  simpl. destruct (String.eqb_spec k' k) as [->|Hne]; [reflexivity|].
  intros [Heq|Hin]; [congruence|]. now rewrite IH.
Qed.

Lemma replace_app_absent k (e : QueryCache.entry V) before rest :
  ~ In k (JsMap.keys before) ->
  JsMap.replace k e (before ++ rest)%list
  = (before ++ JsMap.replace k e rest)%list.
Proof.
  induction before as [|[k' e'] before IH]; [reflexivity|].
  simpl. intros H. destruct (String.eqb_spec k' k) as [->|Hne].
  - elim H. now left.
  - rewrite IH; [reflexivity | tauto].
Qed.

Lemma length_replace k (e : QueryCache.entry V) c :
  List.length (JsMap.replace k e c) = List.length c.
Proof.
  induction c as [|[k' e'] c IH]; [reflexivity|].
  simpl. destruct (String.eqb k' k); simpl; now rewrite ?IH.
Qed.

Lemma length_delete_le k c :
  (List.length (JsMap.delete k c) <= List.length c)%nat.
Proof. apply filter_length_le. Qed.

Lemma holds_get key e a c :
  NoDup (JsMap.keys c) -> Trace.holds key e a c -> JsMap.get key c = Some e.
Proof.
  intros Hnd [before [rest [-> _]]]. apply in_get_nodup; [exact Hnd|].
  apply in_or_app. right. now left.
Qed.

Lemma holds_delete key e a c k :
  k <> key -> Trace.holds key e a c -> Trace.holds key e a (JsMap.delete k c).
Proof.
  intros Hne [before [rest [-> Ha]]].
  exists (JsMap.delete k before), (JsMap.delete k rest). split.
  - rewrite delete_app. f_equal. simpl.
    destruct (String.eqb_spec key k); [congruence | reflexivity].
  - pose proof (length_delete_le k rest). lia.
Qed.

Lemma holds_step key e a c (o : QueryCache.op V) :
  QueryCache.cache_ok MAX_SIZE c ->
  Trace.holds key e a c ->
  (match o with
   | QueryCache.Put k _ _ => k <> key /\ (S (S a) <= MAX_SIZE)%nat
   | QueryCache.Get k now =>
       k <> key \/ now - QueryCache.timestamp e < CACHE_TTL
   end) ->
  Trace.holds key e (match o with QueryCache.Put _ _ _ => S a | _ => a end)
    (QueryCache.step CACHE_TTL MAX_SIZE o c).
Proof.
  intros [Hnd Hsz] Hh Ho. destruct o as [k d now | k now]; simpl.
  - destruct Ho as [Hne Hroom].
    destruct Hh as [before [rest [-> Ha]]].
    unfold QueryCache.setCachedQuery.
    set (e' := QueryCache.mkEntry d now).
    destruct (in_dec string_dec k
                (JsMap.keys (before ++ (key, e) :: rest)%list)) as [Hin|Hnotin].
    + (* an existing key is overwritten in place *)
      rewrite size_set_present by assumption.
      destruct (Nat.ltb_spec MAX_SIZE
                  (JsMap.size (before ++ (key, e) :: rest)%list));
        [unfold JsMap.size in *; lia|].
      unfold JsMap.set, JsMap.has.
      destruct (JsMap.get k (before ++ (key, e) :: rest)%list) eqn:Hg;
        [|apply get_none_notin in Hg; contradiction].
      destruct (in_dec string_dec k (JsMap.keys before)) as [Hb|Hb].
      * rewrite replace_app_present by assumption.
        exists (JsMap.replace k e' before), rest. split; [reflexivity | lia].
      * rewrite replace_app_absent by assumption. simpl.
        destruct (String.eqb_spec key k); [congruence|].
        exists before, (JsMap.replace k e' rest). split; [reflexivity|].
        rewrite length_replace. lia.
    + (* a new key is appended, and the first entry may go *)
      rewrite set_absent by assumption.
      destruct (Nat.ltb_spec MAX_SIZE
                  (JsMap.size ((before ++ (key, e) :: rest) ++ [(k, e')])%list))
        as [Hfull|Hfits].
      * destruct before as [|[k0 e0] before].
        { unfold JsMap.size in Hfull. simpl in Hfull.
          rewrite length_app in Hfull. simpl in Hfull. lia. }
        cbn [app JsMap.firstKey].
        assert (Hk0 : ~ In k0 (JsMap.keys
                                 ((before ++ (key, e) :: rest)
                                    ++ [(k, e')])%list)).
        { cbn [app JsMap.keys map fst] in Hnd, Hnotin.
          apply NoDup_cons_iff in Hnd as [Hk0 _].
          unfold JsMap.keys. rewrite map_app. intros Hin.
          apply in_app_or in Hin as [Hin|[Heq|[]]]; [now apply Hk0|].
          apply Hnotin. left. now symmetry. }
        rewrite (delete_head k0 e0 _ Hk0), <- app_assoc. cbn [app].
        exists before, (rest ++ [(k, e')])%list. split; [reflexivity|].
        rewrite length_app. simpl. lia.
      * rewrite <- app_assoc. cbn [app].
        exists before, (rest ++ [(k, e')])%list. split; [reflexivity|].
        rewrite length_app. simpl. lia.
  - pose proof (holds_get key e a c Hnd Hh) as Hg.
    destruct (String.eqb_spec k key) as [->|Hne].
    + destruct Ho as [Ho|Ho]; [congruence|].
      now rewrite (get_live CACHE_TTL now key c e Hg Ho).
    + unfold QueryCache.getCachedQuery.
      destruct (JsMap.get k c) as [e'|]; simpl;
        [destruct (now - QueryCache.timestamp e' <? CACHE_TTL); simpl|];
        try exact Hh; now apply holds_delete.
Qed.

Lemma run_keeps_entry key e (ops : list (QueryCache.op V)) :
  forall a c,
    QueryCache.cache_ok MAX_SIZE c ->
    Trace.holds key e a c ->
    Trace.leavesAlone CACHE_TTL key (QueryCache.timestamp e) ops = true ->
    (S a + List.length (QueryCache.puts ops) <= MAX_SIZE)%nat ->
    JsMap.get key (QueryCache.run CACHE_TTL MAX_SIZE ops c) = Some e.
Proof.
  induction ops as [|o ops IH]; intros a c Hok Hh Halone Hroom.
  - destruct Hok as [Hnd _]. now apply (holds_get key e a).
  - cbn [Trace.leavesAlone forallb] in Halone.
    apply andb_true_iff in Halone as [Ho Halone].
    simpl QueryCache.run.
    apply (IH (match o with QueryCache.Put _ _ _ => S a | _ => a end)).
    + now apply step_ok.
    + apply holds_step; [exact Hok | exact Hh|].
      destruct o as [k d now | k now].
      * apply negb_true_iff in Ho.
        destruct (String.eqb_spec k key); [discriminate|].
        split; [assumption|]. simpl in Hroom. lia.
      * apply orb_true_iff in Ho as [Ho|Ho].
        -- apply negb_true_iff in Ho.
           destruct (String.eqb_spec k key); [discriminate | now left].
        -- right. now apply Z.ltb_lt.
    + exact Halone.
    + destruct o as [k d now | k now]; simpl in Hroom |- *; lia.
Qed.
End KeepsEntry.

Lemma get_set_other {E : Type} (key k : string) (e : E) (m : JsMap.t E) :
  k <> key -> JsMap.get k (JsMap.set key e m) = JsMap.get k m.
Proof.
  intros Hne. unfold JsMap.set. destruct (JsMap.has key m).
  - now apply replace_get_other.
  - rewrite get_app. destruct (JsMap.get k m); [reflexivity|].
    simpl. destruct (String.eqb_spec key k); [congruence | reflexivity].
Qed.

Lemma get_delete_absent {E : Type} (key k : string) (m : JsMap.t E) :
  JsMap.get key m = None -> JsMap.get key (JsMap.delete k m) = None.
Proof.
  intros Hg. destruct (string_dec k key) as [->|Hne].
  - apply get_delete_same.
  - now rewrite get_delete_other.
Qed.

(** Calls that never store under a key leave it absent. *)
Lemma run_keeps_absent {V : Type} (CACHE_TTL : Z) (MAX_SIZE : nat)
    (key : string) (ops : list (QueryCache.op V)) :
  forall c,
    JsMap.get key c = None ->
    Trace.neverStores key ops = true ->
    JsMap.get key (QueryCache.run CACHE_TTL MAX_SIZE ops c) = None.
Proof.
  induction ops as [|o ops IH]; intros c Hg Hops; [exact Hg|].
  cbn [Trace.neverStores forallb] in Hops.
  apply andb_true_iff in Hops as [Ho Hops].
  simpl QueryCache.run. apply IH; [|exact Hops].
  destruct o as [k d now | k now]; simpl.
  - apply negb_true_iff in Ho.
    destruct (String.eqb_spec k key) as [|Hne]; [discriminate|].
    unfold QueryCache.setCachedQuery.
    set (m := JsMap.set k (QueryCache.mkEntry d now) c).
    assert (Hm : JsMap.get key m = None)
      by (unfold m; rewrite get_set_other by congruence; exact Hg).
    destruct (MAX_SIZE <? JsMap.size m)%nat; [|exact Hm].
    destruct (JsMap.firstKey m); [now apply get_delete_absent | exact Hm].
  - unfold QueryCache.getCachedQuery.
    destruct (JsMap.get k c) as [e|]; simpl;
      [destruct (now - QueryCache.timestamp e <? CACHE_TTL); simpl|];
      try exact Hg; now apply get_delete_absent.
Qed.

Lemma run_ok {V : Type} (CACHE_TTL : Z) (MAX_SIZE : nat)
    (ops : list (QueryCache.op V)) :
  forall c,
    QueryCache.cache_ok MAX_SIZE c ->
    QueryCache.cache_ok MAX_SIZE (QueryCache.run CACHE_TTL MAX_SIZE ops c).
Proof.
  induction ops as [|o ops IH]; intros c Hok; [exact Hok|].
  simpl. apply IH. now apply step_ok.
Qed.

(** X6. A handler that missed at [t1] and, after its awaits, stored its
    response at [t2] has that response served to a request with the same
    key made before the TTL has elapsed since [t2], whatever a fresh
    computation would give.  This holds as long as no other handler stored
    under the key while the first one awaited, and the calls made on the
    cache after the store are fewer than [MAX_SIZE] stores, none under that
    key, and reads, none of that key after its expiry (and no
    invalidation): reads never evict the entry, and the stores have not
    yet pushed it out. *)
Theorem response_served_again_within_ttl
    {V : Type} (CACHE_TTL : Z) (MAX_SIZE : nat)
    (params : Json.object) (t1 t2 t3 : Z) (response : V)
    (c : QueryCache.cache V) (during ops : list (QueryCache.op V)) :
  QueryCache.cache_ok MAX_SIZE c ->
  fst (CachedRoute.lookup CACHE_TTL params t1 c) = None ->
  Trace.neverStores (getCacheKey params) during = true ->
  Trace.leavesAlone CACHE_TTL (getCacheKey params) t2 ops = true ->
  (List.length (QueryCache.puts ops) < MAX_SIZE)%nat ->
  t3 - t2 < CACHE_TTL ->
  let atStore := QueryCache.run CACHE_TTL MAX_SIZE during
                   (snd (CachedRoute.lookup CACHE_TTL params t1 c)) in
  let res := CachedRoute.store MAX_SIZE params t2
               (CachedRoute.Computed response) atStore in
  let later := QueryCache.run CACHE_TTL MAX_SIZE ops (snd res) in
  fst res = response
  /\ CachedRoute.lookup CACHE_TTL params t3 later = (Some response, later)
  /\ forall t4 other,
       CachedRoute.serve CACHE_TTL MAX_SIZE params t3 t4 other later
       = (response, later).
Proof.
  intros Hok Hmiss Hduring Halone Hputs Ht3 atStore res later.
  unfold CachedRoute.lookup in Hmiss, atStore.
  set (key := getCacheKey params) in *.
  set (e := QueryCache.mkEntry response t2).
  pose proof (get_miss CACHE_TTL t1 key c Hmiss) as Hc1.
  assert (Hok0 : QueryCache.cache_ok MAX_SIZE atStore).
  { unfold atStore. apply run_ok. now apply getCachedQuery_ok. }
  assert (Habsent : JsMap.get key atStore = None).
  { unfold atStore. apply run_keeps_absent; [|exact Hduring].
    rewrite Hc1. apply get_delete_same. }
  assert (Hnotin : ~ In key (JsMap.keys atStore))
    by now apply get_none_notin.
  assert (Hres : res = (response,
                        QueryCache.setCachedQuery MAX_SIZE t2 key response
                          atStore)) by reflexivity.
  assert (Hholds : Trace.holds key e 0 (snd res)).
  { rewrite Hres. cbn [snd].
    rewrite setCachedQuery_appends by (assumption || lia).
    destruct (JsMap.size atStore <? MAX_SIZE)%nat;
      eexists _, []; (split; [reflexivity | simpl; lia]). }
  assert (Hok1 : QueryCache.cache_ok MAX_SIZE (snd res)).
  { rewrite Hres. cbn [snd]. now apply setCachedQuery_ok. }
  assert (Hg : JsMap.get key later = Some e).
  { unfold later.
    apply (run_keeps_entry CACHE_TTL MAX_SIZE key e ops 0%nat);
      [exact Hok1 | exact Hholds | exact Halone | lia]. }
  assert (Hhit : CachedRoute.lookup CACHE_TTL params t3 later
                 = (Some response, later)).
  { unfold CachedRoute.lookup. fold key.
    now rewrite (get_live CACHE_TTL t3 key later e Hg Ht3). }
  split; [reflexivity|]. split; [exact Hhit|].
  intros t4 other. unfold CachedRoute.serve. now rewrite Hhit.
Qed.

Lemma response_served_again_within_ttl_witness :
  let atStore := QueryCache.run Papers.CACHE_TTL Papers.MAX_SIZE
                   [QueryCache.Put (getCacheKey (Samples.paperDetail "6"))
                      4%nat 2]
                   (snd (CachedRoute.lookup Papers.CACHE_TTL
                           (Samples.paperDetail "7") 0 JsMap.empty)) in
  let res := CachedRoute.store Papers.MAX_SIZE (Samples.paperDetail "7") 5
               (CachedRoute.Computed 1%nat) atStore in
  let later := QueryCache.run Papers.CACHE_TTL Papers.MAX_SIZE
                 [QueryCache.Put (getCacheKey (Samples.paperDetail "8"))
                    2%nat 10;
                  QueryCache.Get (getCacheKey (Samples.paperDetail "9")) 20;
                  QueryCache.Get (getCacheKey (Samples.paperDetail "7")) 30]
                 (snd res) in
  CachedRoute.lookup Papers.CACHE_TTL (Samples.paperDetail "7") 40 later
  = (Some 1%nat, later).
Proof.
  intros atStore res later.
  destruct (response_served_again_within_ttl
              Papers.CACHE_TTL Papers.MAX_SIZE (Samples.paperDetail "7")
              0 5 40 1%nat JsMap.empty
              [QueryCache.Put (getCacheKey (Samples.paperDetail "6")) 4%nat 2]
              [QueryCache.Put (getCacheKey (Samples.paperDetail "8")) 2%nat 10;
               QueryCache.Get (getCacheKey (Samples.paperDetail "9")) 20;
               QueryCache.Get (getCacheKey (Samples.paperDetail "7")) 30])
    as [_ [H _]].
  - split; [constructor | unfold JsMap.size, Papers.MAX_SIZE; simpl; lia].
  - reflexivity.
  - vm_compute. reflexivity.
  - vm_compute. reflexivity.
  - unfold Papers.MAX_SIZE. simpl. lia.
  - unfold Papers.CACHE_TTL. lia.
  - exact H.
Defined.

(** X7. A response sent on a path that does not store it (404, 500) leaves
    no entry for the request: the handler only drops what was stored under
    the key and the next request for it misses again, at any instant. *)
Theorem failed_response_is_not_cached
    {V : Type} (CACHE_TTL : Z) (MAX_SIZE : nat)
    (params : Json.object) (t1 t2 : Z) (response : V)
    (c : QueryCache.cache V) :
  fst (QueryCache.getCachedQuery CACHE_TTL t1 (getCacheKey params) c) = None ->
  let res := CachedRoute.serve CACHE_TTL MAX_SIZE params t1 t2
               (CachedRoute.Failed response) c in
  res = (response, JsMap.delete (getCacheKey params) c)
  /\ forall params' t3,
       Json.defined params' = Json.defined params ->
       fst (QueryCache.getCachedQuery CACHE_TTL t3 (getCacheKey params')
              (snd res)) = None.
Proof.
  intros Hmiss res.
  assert (Hres : res = (response, JsMap.delete (getCacheKey params) c)).
  { unfold res, CachedRoute.serve, CachedRoute.lookup, CachedRoute.store.
    pose proof (get_miss CACHE_TTL t1 (getCacheKey params) c Hmiss) as Hs.
    destruct (QueryCache.getCachedQuery CACHE_TTL t1 (getCacheKey params) c)
      as [[v|] c0]; [discriminate|]. simpl in Hs. now subst c0. }
  split; [exact Hres|].
  intros params' t3 Hdef. rewrite Hres. simpl.
  rewrite (key_of_defined params' params Hdef).
  rewrite get_absent; [reflexivity | apply get_delete_same].
Qed.

Lemma failed_response_is_not_cached_witness :
  CachedRoute.serve Papers.CACHE_TTL Papers.MAX_SIZE
    (Samples.paperDetail "7") 0 5 (CachedRoute.Failed 404%nat) JsMap.empty
  = (404%nat, JsMap.delete (getCacheKey (Samples.paperDetail "7"))
                JsMap.empty).
Proof.
  apply (failed_response_is_not_cached Papers.CACHE_TTL Papers.MAX_SIZE
           (Samples.paperDetail "7") 0 5 404%nat JsMap.empty).
  reflexivity.
Defined.

(** ** Keys and requests *)

Lemma written_is_undefined (x : Json.value) :
  Json.written x = Json.Undefined -> x = Json.Undefined.
Proof.
  destruct x as [| |b|n|s|items|props]; cbn [Json.written];
    try discriminate; [reflexivity|].
  destruct (JsNumber.isFinite n); discriminate.
Qed.

Lemma writtenProperties_cons (name : string) (x : Json.value)
    (o : Json.object) :
  Json.writtenProperties ((name, x) :: o)
  = match x with
    | Json.Undefined => Json.writtenProperties o
    | _ => (name, Json.written x) :: Json.writtenProperties o
    end.
Proof.
  cbn [Json.writtenProperties].
  destruct (Json.written x) eqn:Hw;
    try (destruct x; try reflexivity; discriminate Hw).
  apply written_is_undefined in Hw. now subst x.
Qed.

Lemma writtenProperties_names (o : Json.object) (name : string)
    (w : Json.value) :
  In (name, w) (Json.writtenProperties o) -> In name (map fst o).
Proof.
  induction o as [|[n x] o IH]; [intros []|].
  rewrite writtenProperties_cons. cbn [map fst].
  destruct x; try (intros [[= <- _]|Hin]; [now left | right; now apply IH]).
  intros Hin. right. now apply IH.
Qed.

Lemma writtenAlike_written (P1 P2 : Json.object) :
  Reads.writtenAlike P1 P2 ->
  Json.writtenProperties P1 = Json.writtenProperties P2.
Proof.
  induction 1 as [|[n x] [m y] P1 P2 [Hn Hw] _ IH]; [reflexivity|].
  cbn [fst snd] in Hn, Hw. subst m.
  cbn [Json.writtenProperties]. rewrite Hw, IH. reflexivity.
Qed.

(** Two objects with the same distinct property names of which the same
    is written have values that are written the same, name by name. *)
Lemma written_same_names (P1 : Json.object) : forall P2,
  map fst P1 = map fst P2 ->
  NoDup (map fst P1) ->
  Json.writtenProperties P1 = Json.writtenProperties P2 ->
  Reads.writtenAlike P1 P2.
Proof.
  induction P1 as [|[n x] P1 IH]; intros [|[m y] P2] Hnames Hnd Heq;
    try discriminate Hnames; [constructor|].
  cbn [map fst] in Hnames, Hnd. injection Hnames as <- Hnames.
  apply NoDup_cons_iff in Hnd as [Hn Hnd].
  rewrite !writtenProperties_cons in Heq.
  assert (Hskip : forall o w rest,
            map fst o = map fst P1 ->
            Json.writtenProperties o = (n, w) :: rest -> False).
  { intros o w rest Ho Hw. apply Hn. rewrite <- Ho.
    apply (writtenProperties_names o n w). rewrite Hw. now left. }
  assert (Hdone : Json.written x = Json.written y
                  /\ Json.writtenProperties P1 = Json.writtenProperties P2).
  { destruct x, y;
      first [ split; congruence
            | exfalso; eapply (Hskip P1); [reflexivity | exact Heq]
            | exfalso; eapply (Hskip P2);
              [now symmetry | symmetry; exact Heq] ]. }
  destruct Hdone as [Hw Hrest].
  constructor; [split; [reflexivity | exact Hw]|].
  now apply IH.
Qed.

Lemma lookup_written_skip (name n : string) (x : Json.value)
    (o : Json.object) :
  n <> name ->
  Json.lookup name (Json.writtenProperties ((n, x) :: o))
  = Json.lookup name (Json.writtenProperties o).
Proof.
  intros Hne. rewrite writtenProperties_cons.
  destruct x; cbn [Json.lookup];
    destruct (String.eqb_spec n name); contradiction || reflexivity.
Qed.

Lemma papers_key_alike (r1 r2 : Reads.papersRead) :
  getCacheKey (Reads.papersParams r1) = getCacheKey (Reads.papersParams r2) ->
  Reads.papersRoute r1 = Reads.papersRoute r2
  /\ Reads.writtenAlike (Reads.papersParams r1) (Reads.papersParams r2).
Proof.
  intros Hkey. apply written_of_key in Hkey.
  destruct r1, r2;
    try (split; [reflexivity|];
         apply written_same_names;
         [reflexivity
         | apply distinctb_NoDup; reflexivity
         | exact Hkey]);
    exfalso; cbn [Reads.papersParams] in Hkey;
    rewrite !writtenProperties_cons in Hkey; discriminate Hkey.
Qed.

(** X8. In the papers routes two cached reads get the same key exactly
    when they are reads of the same route whose parameters are written the
    same one by one.  A key never answers another route, and it answers a
    request with other parameter values only where [JSON.stringify] does
    not tell the values apart: a [page], [limit] or [minRating] that is
    [Infinity] or [-Infinity], both written [null]. *)
Theorem papers_key_determines_request (r1 r2 : Reads.papersRead) :
  (getCacheKey (Reads.papersParams r1) = getCacheKey (Reads.papersParams r2)
   <-> Reads.papersRoute r1 = Reads.papersRoute r2
       /\ Reads.writtenAlike (Reads.papersParams r1) (Reads.papersParams r2))
  /\ getCacheKey (Reads.papersParams
                    (Reads.PaperList (JsNumber.Infinity false) 12
                       Json.Undefined Json.Undefined))
     = getCacheKey (Reads.papersParams
                      (Reads.PaperList (JsNumber.Infinity true) 12
                         Json.Undefined Json.Undefined)).
Proof.
  split; [|reflexivity]. split.
  - apply papers_key_alike.
  - intros [_ Halike]. apply key_of_written.
    now apply writtenAlike_written.
Qed.

Lemma type_of_written (o1 o2 : Json.object) :
  Json.writtenProperties o1 = Json.writtenProperties o2 ->
  Json.lookup "type" (Json.writtenProperties o1)
  = Json.lookup "type" (Json.writtenProperties o2).
Proof. now intros ->. Qed.

Ltac skip_to_type H :=
  apply type_of_written in H;
  rewrite ?(lookup_written_skip "type" "userId"),
    ?(lookup_written_skip "type" "page"),
    ?(lookup_written_skip "type" "limit"),
    ?(lookup_written_skip "type" "fieldId"),
    ?(lookup_written_skip "type" "dateFrom"),
    ?(lookup_written_skip "type" "dateTo") in H by discriminate;
  rewrite !writtenProperties_cons in H;
  cbn [Json.lookup String.eqb Ascii.eqb Bool.eqb Json.written
         Json.writtenProperties] in H;
  discriminate H.

(** X9. In the interactions routes two cached reads get the same key
    exactly when they are reads of the same route whose parameters are
    written the same one by one; the [type] property keeps the four
    per-user reads apart.  A key answers a request with other parameter
    values only where [JSON.stringify] does not tell the values apart: a
    [userId] that failed to parse ([NaN]) and one that overflowed
    ([Infinity]) are both written [null]. *)
Theorem interactions_key_determines_request
    (r1 r2 : Reads.interactionsRead) :
  (getCacheKey (Reads.interactionsParams r1)
     = getCacheKey (Reads.interactionsParams r2)
   <-> Reads.interactionsRoute r1 = Reads.interactionsRoute r2
       /\ Reads.writtenAlike (Reads.interactionsParams r1)
            (Reads.interactionsParams r2))
  /\ getCacheKey (Reads.interactionsParams (Reads.DownloadStats JsNumber.NaN))
     = getCacheKey (Reads.interactionsParams
                      (Reads.DownloadStats (JsNumber.Infinity false))).
Proof.
  split; [|reflexivity]. split.
  - intros Hkey. apply written_of_key in Hkey.
    destruct r1, r2;
      try (split; [reflexivity|];
           apply written_same_names;
           [reflexivity
           | apply distinctb_NoDup; reflexivity
           | exact Hkey]);
      exfalso; cbn [Reads.interactionsParams] in Hkey;
      first [ rewrite !writtenProperties_cons in Hkey; discriminate Hkey
            | skip_to_type Hkey ].
  - intros [_ Halike]. apply key_of_written.
    now apply writtenAlike_written.
Qed.

(** ** The score *)

Lemma caseWhen_bounds (b : bool) (w : Z) :
  0 <= w -> 0 <= Search.caseWhen b w <= w.
Proof. intros Hw. destruct b; simpl; lia. Qed.

Lemma term_parts_bounds (title : string) (terms : list string) :
  0 <= fold_right Z.add 0
         (map (fun term => Search.caseWhen
                 (Search.like title (Search.termPattern term)) 100) terms)
    <= 100 * Z.of_nat (List.length terms).
Proof.
  induction terms as [|t terms IH]; [simpl; lia|].
  cbn [map fold_right List.length].
  pose proof (caseWhen_bounds
                (Search.like title (Search.termPattern t)) 100) as Hb.
  lia.
Qed.

Lemma relevanceScore_parts (q : string) (p : Search.paper) :
  Search.relevanceScore q p
  = Search.caseWhen (Search.like (Search.Title p) (Search.searchPattern q)) 1000
    + fold_right Z.add 0
        (map (fun term => Search.caseWhen
                (Search.like (Search.Title p) (Search.termPattern term)) 100)
             (Search.searchTerms q))
    + Search.caseWhen (Search.keywordsMatch p (Search.searchPattern q)) 500
    + Search.caseWhen (Search.like (Search.Abstract p) (Search.searchPattern q))
        200
    + Search.caseWhen
        (Search.likeNullable (Search.Field_Name p) (Search.searchPattern q)) 150
    + Search.caseWhen (Search.authorsMatch p (Search.searchPattern q)) 300.
Proof.
  unfold Search.relevanceScore, Search.relevanceScoreParts.
  cbn [app fold_right]. rewrite fold_right_app. cbn [fold_right].
  set (tail := _ + (_ + (_ + (_ + 0)))).
  assert (Hfold : forall (l : list Z) acc,
            fold_right Z.add acc l = fold_right Z.add 0 l + acc).
  { induction l as [|x l IH]; intros acc; simpl; [lia|]. rewrite IH. lia. }
  rewrite Hfold. unfold tail. lia.
Qed.

(** X10. The relevance score is never negative and never exceeds 2150 plus
    100 for each search term. *)
Theorem relevanceScore_bounds (q : string) (p : Search.paper) :
  0 <= Search.relevanceScore q p
    <= 2150 + 100 * Z.of_nat (List.length (Search.searchTerms q)).
Proof.
  rewrite relevanceScore_parts.
  pose proof (term_parts_bounds (Search.Title p) (Search.searchTerms q)).
  pose proof (caseWhen_bounds
                (Search.like (Search.Title p) (Search.searchPattern q)) 1000).
  pose proof (caseWhen_bounds
                (Search.keywordsMatch p (Search.searchPattern q)) 500).
  pose proof (caseWhen_bounds
                (Search.like (Search.Abstract p) (Search.searchPattern q)) 200).
  pose proof (caseWhen_bounds
                (Search.likeNullable (Search.Field_Name p)
                   (Search.searchPattern q)) 150).
  pose proof (caseWhen_bounds
                (Search.authorsMatch p (Search.searchPattern q)) 300).
  lia.
Qed.

(** X11. A paper that passes the base search condition has a score of at
    least 150, unless the query text was found in its field description
    only: the description is searched but carries no weight. *)
Theorem matched_paper_scores_unless_description_only
    (q : string) (p : Search.paper) :
  Search.baseCondition q p = true ->
  Search.likeNullable (Search.Field_Description p) (Search.searchPattern q)
    = false ->
  150 <= Search.relevanceScore q p.
Proof.
  intros Hbase Hdesc. rewrite relevanceScore_parts.
  pose proof (term_parts_bounds (Search.Title p) (Search.searchTerms q)).
  unfold Search.baseCondition in Hbase. rewrite Hdesc in Hbase.
  rewrite orb_false_r in Hbase.
  destruct (Search.like (Search.Title p) (Search.searchPattern q));
    destruct (Search.like (Search.Abstract p) (Search.searchPattern q));
    destruct (Search.likeNullable (Search.Field_Name p)
                (Search.searchPattern q));
    destruct (Search.keywordsMatch p (Search.searchPattern q));
    destruct (Search.authorsMatch p (Search.searchPattern q));
    simpl in Hbase; try discriminate Hbase; cbn [Search.caseWhen]; lia.
Qed.

Lemma matched_paper_scores_unless_description_only_witness :
  150 <= Search.relevanceScore "neural networks" Samples.abstractPhrase.
Proof.
  apply (matched_paper_scores_unless_description_only
           "neural networks" Samples.abstractPhrase); reflexivity.
Defined.

(** ** Pattern characters in the query *)

Lemma likeMatch_all_percent (s : string) :
  JsString.allChars (Ascii.eqb "%") s = true ->
  forall text, Search.likeMatch (Search.AnyString :: Search.likeTokens s) text
               = true.
Proof.
  induction s as [|c s IH]; intros Hs text.
  - apply likeMatch_any.
  - cbn [JsString.allChars] in Hs. apply andb_true_iff in Hs as [Hc Hs].
    apply Ascii.eqb_eq in Hc. subst c.
    cbn [Search.likeTokens]. unfold Search.likeTokenOf.
    change (Ascii.eqb "%" "%") with true. cbv iota.
    rewrite likeMatch_star, (IH Hs). reflexivity.
Qed.

Lemma like_all_percent (q text : string) :
  JsString.allChars (Ascii.eqb "%") q = true ->
  Search.like text ("%" ++ q ++ "%") = true.
Proof.
  intros Hq. unfold Search.like.
  change ("%" ++ q ++ "%") with (String "%" (q ++ "%")).
  cbn [Search.likeTokens]. unfold Search.likeTokenOf at 1.
  change (Ascii.eqb "%" "%") with true. cbv iota.
  apply likeMatch_all_percent.
  rewrite allChars_app, Hq. reflexivity.
Qed.

(** X12. The query text reaches [LIKE] unescaped: a query made of percent
    signs only (after trimming) matches every paper, and every paper gets
    the 1000 points of a title match. *)
Theorem percent_query_matches_every_paper (q : string) (p : Search.paper) :
  JsString.allChars (Ascii.eqb "%") (JsString.trim q) = true ->
  Search.baseCondition q p = true /\ 1000 <= Search.relevanceScore q p.
Proof.
  intros Hq.
  assert (Ht : Search.like (Search.Title p) (Search.searchPattern q) = true)
    by now apply like_all_percent.
  split.
  - unfold Search.baseCondition. now rewrite Ht.
  - rewrite relevanceScore_parts, Ht.
    pose proof (term_parts_bounds (Search.Title p) (Search.searchTerms q)).
    pose proof (caseWhen_bounds
                  (Search.keywordsMatch p (Search.searchPattern q)) 500).
    pose proof (caseWhen_bounds
                  (Search.like (Search.Abstract p) (Search.searchPattern q))
                  200).
    pose proof (caseWhen_bounds
                  (Search.likeNullable (Search.Field_Name p)
                     (Search.searchPattern q)) 150).
    pose proof (caseWhen_bounds
                  (Search.authorsMatch p (Search.searchPattern q)) 300).
    cbn [Search.caseWhen]. lia.
Qed.

Lemma percent_query_matches_every_paper_witness :
  Search.baseCondition " % " Samples.abstractWord = true
  /\ 1000 <= Search.relevanceScore " % " Samples.abstractWord.
Proof.
  apply (percent_query_matches_every_paper " % " Samples.abstractWord).
  reflexivity.
Defined.

(** ** Search terms *)

Lemma termsFrom_wellformed (s : string) : forall cur,
  JsString.allChars (fun c => negb (JsString.isWhiteSpace c)) cur = true ->
  Forall (fun t => t <> ""
                   /\ JsString.allChars
                        (fun c => negb (JsString.isWhiteSpace c)) t = true)
         (Spec.termsFrom cur s).
Proof.
  induction s as [|c s IH]; intros cur Hcur; cbn [Spec.termsFrom].
  - destruct cur; simpl; constructor; [|constructor].
    split; [discriminate | exact Hcur].
  - destruct (JsString.isWhiteSpace c) eqn:Hc.
    + destruct cur as [|a cur]; simpl.
      * now apply IH.
      * constructor; [split; [discriminate | exact Hcur]|]. now apply IH.
    + apply IH. rewrite allChars_app, Hcur. simpl. now rewrite Hc.
Qed.

Lemma termsFrom_nonempty (s : string) : forall cur,
  cur <> "" \/ Spec.blank s = false -> Spec.termsFrom cur s <> [].
Proof.
  unfold Spec.blank.
  induction s as [|c s IH]; intros cur H; cbn [Spec.termsFrom].
  - destruct H as [H|H]; [|discriminate].
    destruct cur; [congruence | simpl; discriminate].
  - destruct (JsString.isWhiteSpace c) eqn:Hc.
    + destruct cur as [|a cur]; simpl; [|discriminate].
      apply IH. right. destruct H as [H|H]; [congruence|].
      simpl in H. now rewrite Hc in H.
    + apply IH. left. destruct cur; discriminate.
Qed.

Lemma termsFrom_blank (s : string) :
  Spec.blank s = true -> Spec.termsFrom "" s = [].
Proof.
  unfold Spec.blank. induction s as [|c s IH]; [reflexivity|].
  simpl. intros H. apply andb_true_iff in H as [Hc Hs].
  rewrite Hc. now apply IH.
Qed.

(** X13. Every search term the handler extracts is non-empty and free of
    white space; a query that passes the guard has at least one term, and a
    blank one has none. *)
Theorem searchTerms_wellformed (q : string) :
  Forall (fun t => t <> ""
                   /\ JsString.allChars
                        (fun c => negb (JsString.isWhiteSpace c)) t = true)
         (Search.searchTerms q)
  /\ (Guard.rejectsQueryParam (Json.Str q) = false -> Search.searchTerms q <> [])
  /\ (Guard.rejectsQueryParam (Json.Str q) = true -> Search.searchTerms q = []).
Proof.
  rewrite searchTerms_terms. unfold Spec.terms.
  assert (Hg : Guard.rejectsQueryParam (Json.Str q) = Spec.blank q).
  { unfold Guard.rejectsQueryParam, Guard.queryParamVerdict.
    cbn [Json.truthy]. rewrite trim_empty_iff_blank.
    destruct (String.length q =? 0)%nat eqn:Hlen; cbn [negb];
      [now rewrite (blank_of_empty q Hlen)|].
    now destruct (Spec.blank q). }
  rewrite Hg. split; [now apply termsFrom_wellformed|]. split.
  - intros Hb. apply termsFrom_nonempty. now right.
  - apply termsFrom_blank.
Qed.

Lemma searchTerms_wellformed_witness :
  Search.searchTerms "  neural   networks " <> [].
Proof.
  destruct (searchTerms_wellformed "  neural   networks ") as [_ [H _]].
  apply H. reflexivity.
Defined.

(** ** The count query *)

Lemma filter_map_comm {A B : Type} (f : B -> bool) (g : A -> B) (l : list A) :
  filter f (map g l) = map g (filter (fun x => f (g x)) l).
Proof.
  induction l as [|x l IH]; simpl; [reflexivity|].
  destruct (f (g x)); simpl; now rewrite IH.
Qed.

Lemma filter_filter_and {A : Type} (f g : A -> bool) (l : list A) :
  filter f (filter g l) = filter (fun x => g x && f x) l.
Proof.
  induction l as [|x l IH]; simpl; [reflexivity|].
  destruct (g x); simpl; [destruct (f x); simpl|]; now rewrite IH.
Qed.

Lemma NoDup_map_filter {A B : Type} (g : A -> B) (f : A -> bool)
    (l : list A) :
  NoDup (map g l) -> NoDup (map g (filter f l)).
Proof.
  induction l as [|x l IH]; simpl; [auto|].
  intros Hnd. apply NoDup_cons_iff in Hnd as [Hx Hnd].
  destruct (f x); simpl; [|now apply IH].
  constructor; [|now apply IH].
  intros Hin. apply Hx. apply in_map_iff in Hin as [y [Hy Hin]].
  apply filter_In in Hin as [Hin _]. apply in_map_iff. now exists y.
Qed.

Lemma rating_floor_agrees (r : Search.request) (q : string)
    (p : Search.paper) :
  Search.havingConditions r (Search.searchRow q p)
  = if Qle_bool (Search.minRating r) 0 then true
    else match CountQuery.averageRatingNullable (Search.Ratings p) with
         | Some a => Qle_bool (Search.minRating r) a
         | None => false
         end.
Proof.
  unfold Search.havingConditions, Search.searchRow,
    CountQuery.averageRatingNullable. simpl.
  destruct (Qle_bool (Search.minRating r) 0) eqn:Hm; [reflexivity|].
  destruct (Search.Ratings p); [simpl; exact Hm | reflexivity].
Qed.

(** X14. When the stored papers have pairwise different ids, the total the
    count query reports is the number of rows the search query selects
    before paging, for every request: the two statements apply the same
    text, field and date filters, and the rating floor excludes unreviewed
    papers in both. *)
Theorem count_matches_result_rows
    (r : Search.request) (papers : list Search.paper) :
  NoDup (map Search.Paper_ID papers) ->
  CountQuery.total r papers = List.length (Search.searchResults r papers).
Proof.
  intros Hnd. unfold CountQuery.total, Search.searchResults.
  rewrite nodup_fixed_point by now apply NoDup_map_filter.
  rewrite filter_map_comm, !length_map, filter_filter_and.
  f_equal. apply filter_ext. intros p. unfold CountQuery.countCondition.
  now rewrite rating_floor_agrees.
Qed.

Lemma count_matches_result_rows_witness :
  CountQuery.total (Samples.unfiltered "neural networks" "relevance")
    [Samples.titled; Samples.abstractWord; Samples.abstractPhrase]
  = List.length
      (Search.searchResults (Samples.unfiltered "neural networks" "relevance")
         [Samples.titled; Samples.abstractWord; Samples.abstractPhrase]).
Proof.
  apply (count_matches_result_rows
           (Samples.unfiltered "neural networks" "relevance")
           [Samples.titled; Samples.abstractWord; Samples.abstractPhrase]).
  simpl. repeat constructor; simpl; intuition discriminate.
Defined.

(** ** Paging *)

Lemma firstn_plus {A : Type} (a b : nat) (l : list A) :
  firstn (a + b) l = (firstn a l ++ firstn b (skipn a l))%list.
Proof.
  revert l. induction a as [|a IH]; intros l; [reflexivity|].
  destruct l as [|x l]; simpl.
  - now rewrite firstn_nil.
  - now rewrite IH.
Qed.

Lemma offsetOf_nat (k : nat) (limit : Z) :
  1 <= limit ->
  Z.to_nat (Paging.offsetOf (Z.of_nat (S k)) limit)
  = (k * Z.to_nat limit)%nat.
Proof.
  intros Hl. unfold Paging.offsetOf.
  replace (Z.of_nat (S k) - 1) with (Z.of_nat k) by lia.
  rewrite Z2Nat.inj_mul by lia. now rewrite Nat2Z.id.
Qed.

(** X15. For a fixed ordered result and a limit of at least 1, pages
    1, 2, ..., n laid end to end are the first [n * limit] rows of the
    result: consecutive pages neither overlap nor leave a gap, and no page
    holds more than [limit] rows. *)
Theorem pages_tile_the_result
    {A : Type} (limit : Z) (ordered : list A) (n : nat) :
  1 <= limit ->
  List.concat (map (fun k => Paging.pageRows (Z.of_nat k) limit ordered) (seq 1 n))
    = firstn (n * Z.to_nat limit) ordered
  /\ forall page, 1 <= page ->
       (List.length (Paging.pageRows page limit ordered)
        <= Z.to_nat limit)%nat.
Proof.
  intros Hl. split.
  - induction n as [|n IH]; [reflexivity|].
    rewrite seq_S, map_app, concat_app, IH. cbn [map List.concat].
    rewrite app_nil_r. unfold Paging.pageRows at 1.
    change (1 + n)%nat with (S n). rewrite (offsetOf_nat n limit Hl).
    rewrite <- firstn_plus. f_equal. lia.
  - intros page _. unfold Paging.pageRows. apply firstn_le_length.
Qed.

Lemma pages_tile_the_result_witness :
  List.concat (map (fun k => Paging.pageRows (Z.of_nat k) 2 [1; 2; 3; 4; 5]%nat)
              (seq 1 3))
  = firstn (3 * Z.to_nat 2) [1; 2; 3; 4; 5]%nat.
Proof.
  apply (pages_tile_the_result 2 [1; 2; 3; 4; 5]%nat 3). lia.
Defined.

(** ** Ratings *)

Lemma sum_bounds (ratings : list Z) :
  (forall x, In x ratings -> 1 <= x <= 5) ->
  Z.of_nat (List.length ratings) <= fold_right Z.add 0 ratings
    <= 5 * Z.of_nat (List.length ratings).
Proof.
  induction ratings as [|x l IH]; intros H; [simpl; lia|].
  assert (Hx : 1 <= x <= 5) by (apply H; now left).
  assert (Hl : Z.of_nat (List.length l) <= fold_right Z.add 0 l
               <= 5 * Z.of_nat (List.length l))
    by (apply IH; intros y Hy; apply H; now right).
  cbn [fold_right List.length]. lia.
Qed.

(** X16. A paper without reviews has average rating 0 and fails every
    positive rating floor.  When the stored ratings are between 1 and 5, as
    the review handlers enforce, the average of a reviewed paper, a
    double, is between 1 and 5. *)
Theorem average_rating_range (r : Search.request) (q : string)
    (p : Search.paper) :
  (Search.Ratings p = [] ->
     Qeq (Search.Average_Rating (Search.searchRow q p)) 0
     /\ (Qlt 0 (Search.minRating r) ->
         Search.havingConditions r (Search.searchRow q p) = false))
  /\ (Search.Ratings p <> [] ->
      (forall x, In x (Search.Ratings p) -> 1 <= x <= 5) ->
      Qle 1 (Search.Average_Rating (Search.searchRow q p))
      /\ Qle (Search.Average_Rating (Search.searchRow q p)) 5).
Proof.
  split.
  - intros Hr. unfold Search.searchRow, Search.havingConditions. simpl.
    rewrite Hr. simpl. split; [reflexivity|].
    intros Hpos.
    destruct (Qle_bool (Search.minRating r) 0) eqn:Hle; [|reflexivity].
    apply Qle_bool_iff in Hle. exfalso.
    apply (Qlt_irrefl 0). now apply Qlt_le_trans with (Search.minRating r).
  - intros Hne Hrange. unfold Search.searchRow. simpl.
    pose proof (sum_bounds _ Hrange) as [Hlo Hhi].
    destruct (Search.Ratings p) as [|x l] eqn:Hr; [congruence|].
    unfold Search.averageRating.
    set (n := Z.of_nat (List.length (x :: l))) in *.
    set (s := fold_right Z.add 0 (x :: l)) in *.
    assert (Hn : 0 < n) by (unfold n; simpl List.length; lia).
    assert (HnQ : Qlt 0 (inject_Z n)).
    { change 0%Q with (inject_Z 0). now rewrite <- Zlt_Qlt. }
    assert (H1 : Qle (inject_Z 1) (inject_Z s / inject_Z n)).
    { apply Qle_shift_div_l; [exact HnQ|].
      rewrite <- inject_Z_mult, <- Zle_Qle. lia. }
    assert (H5 : Qle (inject_Z s / inject_Z n) (inject_Z 5)).
    { apply Qle_shift_div_r; [exact HnQ|].
      rewrite <- inject_Z_mult, <- Zle_Qle. lia. }
    apply (round_between _ 1 5); [lia | | exact H1 | exact H5].
    apply Z.le_trans with 3; [|lia].
    apply exponent_le; [lia | |].
    + apply Qlt_le_trans with (inject_Z 1); [reflexivity | exact H1].
    + apply Qle_trans with (inject_Z 5); [exact H5|].
      rewrite <- Zle_Qle. simpl. lia.
Qed.

Lemma average_rating_range_witness :
  Search.havingConditions
    (Search.mkRequest "neural" None (4 # 1) None None
       (Json.Str "rating") 0 12)
    (Search.searchRow "neural" Samples.abstractWord) = false.
Proof.
  destruct (average_rating_range
              (Search.mkRequest "neural" None (4 # 1) None None
       (Json.Str "rating") 0 12)
              "neural" Samples.abstractWord) as [H _].
  destruct (H eq_refl) as [_ H']. apply H'. reflexivity.
Defined.

(** ** Keys no invalidation touches *)

Lemma noQuoteThen_excludes (c : ascii) (rest s : string) :
  Scan.noQuoteThen c s = true ->
  JsString.includes s (String JsString.dquote (String c rest)) = false.
Proof.
  induction s as [|a s IH]; [reflexivity|].
  cbn [Scan.noQuoteThen JsString.includes]. intros H.
  apply andb_true_iff in H as [Hhead Hs]. rewrite (IH Hs), orb_false_r.
  cbn [String.prefix].
  destruct (ascii_dec JsString.dquote a) as [<-|Hne]; [|reflexivity].
  rewrite Ascii.eqb_refl in Hhead. simpl in Hhead.
  destruct s as [|b s]; [reflexivity|].
  cbn [String.prefix].
  destruct (ascii_dec c b) as [<-|Hne]; [|reflexivity].
  now rewrite Ascii.eqb_refl in Hhead.
Qed.

Lemma noQuoteThen_quoteless (c : ascii) (n rest : string) :
  Scan.quoteless n = true ->
  Scan.noQuoteThen c (n ++ rest) = Scan.noQuoteThen c rest.
Proof.
  unfold Scan.quoteless. induction n as [|a n IH]; [reflexivity|].
  cbn [JsString.allChars]. intros H. apply andb_true_iff in H as [Ha Hn].
  change (String a n ++ rest) with (String a (n ++ rest)).
  cbn [Scan.noQuoteThen]. apply negb_true_iff in Ha.
  rewrite Ha, (IH Hn). reflexivity.
Qed.

Lemma allChars_weaken (f g : ascii -> bool) (s : string) :
  (forall c, f c = true -> g c = true) ->
  JsString.allChars f s = true -> JsString.allChars g s = true.
Proof.
  intros Hfg. induction s as [|c s IH]; [reflexivity|].
  cbn [JsString.allChars]. intros H. apply andb_true_iff in H as [Hc Hs].
  now rewrite (Hfg c Hc), IH.
Qed.

Lemma numeralChar_not_quote (a : ascii) :
  JsonRead.isNumeralChar a = true ->
  negb (Ascii.eqb a JsString.dquote) = true.
Proof.
  intros H. destruct (numeralChar_not_keyword a H) as [-> _]. reflexivity.
Qed.

(** The text written for a number holds no quote. *)
Lemma numberText_quoteless (n : JsNumber.number) :
  Scan.quoteless (Json.numberText n) = true.
Proof.
  unfold Json.numberText. destruct (JsNumber.isFinite n) eqn:Hfin.
  - apply (allChars_weaken JsonRead.isNumeralChar);
      [exact numeralChar_not_quote | now apply toString_numeral].
  - reflexivity.
Qed.

Lemma popular_key_scan (c : ascii) (limit days : JsNumber.number) :
  c = "u"%char \/ c = "r"%char ->
  Scan.noQuoteThen c
    (getCacheKey (Reads.interactionsParams (Reads.PopularSearches limit days)))
  = true.
Proof.
  intros Hc.
  unfold getCacheKey, Json.stringify, Reads.interactionsParams.
  cbn [Json.members Json.serializeProperty Json.serialize fst snd
         String.concat].
  unfold Json.memberText, Json.quote.
  change (Json.escape "popular") with "popular".
  change (Json.escape "limit") with "limit".
  change (Json.escape "days") with "days".
  destruct Hc as [-> | ->];
    repeat (first [ rewrite (noQuoteThen_quoteless _ _ _
                               (numberText_quoteless _))
                  | rewrite append_assoc
                  | progress cbn -[Json.numberText Reads.orDefault] ]);
    reflexivity.
Qed.

(** X17. The entry of the popular-searches read mentions no user, whatever
    its [limit] and [days]: [invalidateUserCache] leaves it in place for
    every user id, so writes by individual users never force the shared
    list to be recomputed before its TTL. *)
Theorem popular_searches_survive_invalidation
    {V : Type} (limit days u : JsNumber.number) (c : QueryCache.cache V) :
  let key := getCacheKey
               (Reads.interactionsParams (Reads.PopularSearches limit days)) in
  Interactions.mentionsUser u key = false
  /\ JsMap.get key (Interactions.invalidateUserCache u c) = JsMap.get key c.
Proof.
  intros key.
  assert (Hm : Interactions.mentionsUser u key = false).
  { unfold Interactions.mentionsUser, Interactions.userIdPattern,
      Interactions.researcherIdPattern.
    change ("userId" ++ ?x) with (String "u" ("serId" ++ x)).
    change ("researcherId" ++ ?x) with (String "r" ("esearcherId" ++ x)).
    unfold key.
    rewrite (noQuoteThen_excludes "u" _ _
               (popular_key_scan "u" limit days (or_introl eq_refl))).
    rewrite (noQuoteThen_excludes "r" _ _
               (popular_key_scan "r" limit days (or_intror eq_refl))).
    reflexivity. }
  split; [exact Hm|]. now rewrite invalidate_get, Hm.
Qed.
(** ** What a hit returns *)

Lemma get_delete_some {E : Type} (key k : string) (e : E) (m : JsMap.t E) :
  JsMap.get key (JsMap.delete k m) = Some e -> JsMap.get key m = Some e.
Proof.
  destruct (String.eqb_spec k key) as [->|Hne].
  - now rewrite get_delete_same.
  - now rewrite get_delete_other.
Qed.

Lemma setCachedQuery_get_cases {V : Type} (MAX_SIZE : nat) (now : Z)
    (k key : string) (d : V) (c : QueryCache.cache V)
    (e : QueryCache.entry V) :
  JsMap.get key (QueryCache.setCachedQuery MAX_SIZE now k d c) = Some e ->
  (k = key /\ e = QueryCache.mkEntry d now)
  \/ (k <> key /\ JsMap.get key c = Some e).
Proof.
  unfold QueryCache.setCachedQuery.
  set (c1 := JsMap.set k (QueryCache.mkEntry d now) c).
  assert (H1 : JsMap.get key c1 = Some e ->
               (k = key /\ e = QueryCache.mkEntry d now)
               \/ (k <> key /\ JsMap.get key c = Some e)).
  { unfold c1. destruct (String.eqb_spec k key) as [->|Hne].
    - rewrite get_set_same. intros [= <-]. now left.
    - rewrite get_set_other by congruence. intros H. now right. }
  destruct (MAX_SIZE <? JsMap.size c1)%nat; [|exact H1].
  destruct (JsMap.firstKey c1); [|exact H1].
  intros H. apply H1. eapply get_delete_some. exact H.
Qed.

Lemma lastPut_snoc {V : Type} (key : string) (ops : list (QueryCache.op V))
    (o : QueryCache.op V) :
  Trace.lastPut key (ops ++ [o])
  = match o with
    | QueryCache.Put k d t =>
        if String.eqb k key then Some (d, t) else Trace.lastPut key ops
    | QueryCache.Get _ _ => Trace.lastPut key ops
    end.
Proof.
  induction ops as [|o' ops IH]; simpl.
  - destruct o as [k d t|k t]; [destruct (String.eqb k key)|]; reflexivity.
  - rewrite IH. destruct o as [k d t|k t].
    + destruct (String.eqb k key); [reflexivity|].
      now destruct (Trace.lastPut key ops).
    + reflexivity.
Qed.

Lemma stored_is_last_put {V : Type} (CACHE_TTL : Z) (MAX_SIZE : nat)
    (ops : list (QueryCache.op V)) :
  forall key e,
    JsMap.get key (QueryCache.run CACHE_TTL MAX_SIZE ops JsMap.empty) = Some e ->
    Trace.lastPut key ops
    = Some (QueryCache.data e, QueryCache.timestamp e).
Proof.
  induction ops as [|o ops IH] using rev_ind; intros key e Hg;
    [discriminate|].
  unfold QueryCache.run in Hg. rewrite fold_left_app in Hg. simpl in Hg.
  fold (QueryCache.run CACHE_TTL MAX_SIZE ops JsMap.empty) in Hg.
  rewrite lastPut_snoc. destruct o as [k d t|k t]; simpl in Hg.
  - apply setCachedQuery_get_cases in Hg as [[-> ->]|[Hne Hg]].
    + now rewrite String.eqb_refl.
    + destruct (String.eqb_spec k key); [contradiction | now apply IH].
  - apply IH. unfold QueryCache.getCachedQuery in Hg.
    destruct (JsMap.get k (QueryCache.run CACHE_TTL MAX_SIZE ops JsMap.empty))
      as [e'|]; simpl in Hg;
      [destruct (t - QueryCache.timestamp e' <? CACHE_TTL); simpl in Hg|];
      try exact Hg; eapply get_delete_some; exact Hg.
Qed.

(** X18. After any sequence of cache calls on the empty map, a value that
    [getCachedQuery(key)] returns at instant [now] is the value of the
    latest [setCachedQuery(key, ...)] of the sequence, and that call was
    made less than [CACHE_TTL] before [now]: a hit never returns a value
    stored under another key, an overwritten value, or an expired one. *)
Theorem hit_returns_latest_stored_value
    {V : Type} (CACHE_TTL : Z) (MAX_SIZE : nat)
    (ops : list (QueryCache.op V)) (key : string) (now : Z) (d : V) :
  fst (QueryCache.getCachedQuery CACHE_TTL now key
         (QueryCache.run CACHE_TTL MAX_SIZE ops JsMap.empty)) = Some d ->
  exists t, Trace.lastPut key ops = Some (d, t) /\ now - t < CACHE_TTL.
Proof.
  intros Hhit.
  destruct (QueryCache.getCachedQuery CACHE_TTL now key
              (QueryCache.run CACHE_TTL MAX_SIZE ops JsMap.empty))
    as [v c'] eqn:Hget.
  simpl in Hhit. subst v.
  apply get_hit in Hget as [_ [e [Hg [Hd Ht]]]].
  exists (QueryCache.timestamp e). split; [|exact Ht].
  rewrite (stored_is_last_put CACHE_TTL MAX_SIZE ops key e Hg).
  now rewrite Hd.
Qed.

Lemma hit_returns_latest_stored_value_witness :
  exists t, Trace.lastPut "a"
              [QueryCache.Put "a" 1%nat 0; QueryCache.Put "b" 2%nat 1;
               QueryCache.Put "a" 3%nat 2; QueryCache.Get "b" 3]
            = Some (3%nat, t)
            /\ 10 - t < Papers.CACHE_TTL.
Proof.
  apply (hit_returns_latest_stored_value Papers.CACHE_TTL Papers.MAX_SIZE
           [QueryCache.Put "a" 1%nat 0; QueryCache.Put "b" 2%nat 1;
            QueryCache.Put "a" 3%nat 2; QueryCache.Get "b" 3] "a" 10 3%nat).
  reflexivity.
Defined.

(** ** Answers exist *)













(** ** Which entries an invalidation removes *)

Lemma prefix_app_delimited (f : ascii -> bool) (U V rest : string) :
  JsString.allChars f U = true ->
  match rest with
  | EmptyString => True
  | String c _ => f c = false
  end ->
  String.prefix U (V ++ rest) = String.prefix U V.
Proof.
  revert V. induction U as [|a U IH]; intros V HU Hrest.
  - now destruct V, rest.
  - cbn [JsString.allChars] in HU. apply andb_true_iff in HU as [Ha HU].
    destruct V as [|v V].
    + cbn [append]. destruct rest as [|b rest]; [reflexivity|].
      cbn [String.prefix]. destruct (ascii_dec a b) as [->|]; [|reflexivity].
      congruence.
    + change (String v V ++ rest) with (String v (V ++ rest)).
      cbn [String.prefix]. destruct (ascii_dec a v); [|reflexivity].
      now apply IH.
Qed.

Lemma includes_skips_quoteless (N rest needle : string) :
  Scan.quoteless N = true ->
  JsString.includes (N ++ rest) (String JsString.dquote needle)
  = JsString.includes rest (String JsString.dquote needle).
Proof.
  unfold Scan.quoteless. induction N as [|a N IH]; [reflexivity|].
  cbn [JsString.allChars]. intros H. apply andb_true_iff in H as [Ha HN].
  change (String a N ++ rest) with (String a (N ++ rest)).
  cbn [JsString.includes String.prefix].
  destruct (ascii_dec JsString.dquote a) as [<-|_].
  - discriminate Ha.
  - now rewrite (IH HN).
Qed.

Lemma numeralChar_numberChar (c : ascii) :
  JsonRead.isNumeralChar c = true -> Scan.isNumberChar c = true.
Proof. intros H. unfold Scan.isNumberChar. now rewrite H. Qed.

(** The text of a number, finite or not, is made of number characters. *)
Lemma toString_numberChars (x : JsNumber.number) :
  JsString.allChars Scan.isNumberChar (JsNumber.toString x) = true.
Proof.
  destruct (JsNumber.isFinite x) eqn:Hfin.
  - apply (allChars_weaken JsonRead.isNumeralChar);
      [exact numeralChar_numberChar | now apply toString_numeral].
  - destruct x as [|[|]| |d]; try discriminate Hfin; reflexivity.
Qed.

Ltac scan_key :=
  unfold Interactions.mentionsUser, Interactions.userIdPattern,
    Interactions.researcherIdPattern, getCacheKey, Json.stringify,
    Reads.interactionsParams;
  cbn [Json.members Json.serializeProperty Json.serialize fst snd
         String.concat];
  unfold Json.memberText, Json.quote;
  repeat match goal with
         | |- context [Json.escape ?s] =>
             let e := eval vm_compute in (Json.escape s) in
             change (Json.escape s) with e
         end;
  repeat (first [ rewrite append_assoc | progress cbn [append] ]);
  repeat (first
            [ rewrite (includes_skips_quoteless _ _ _
                         (numberText_quoteless _))
            | progress cbn -[JsNumber.toString Json.numberText
                               Reads.orDefault append] ]).

(** X20. For the keys of a user's review list and download statistics,
    [invalidateUserCache(u)] removes the entry of user [v] exactly when the
    text of the number [u] is a prefix of the text written for [v]: always
    when [u = v] is finite, also when the text of [v] merely starts with
    that of [u] (1 and 12, 1 and 1e+21), and never otherwise.  An entry
    stored for a user id that is not finite (a [userId] that failed to
    parse, or overflowed) is written with [null] and is never removed. *)
Theorem invalidation_hits_exactly_text_prefixes
    {V : Type} (u v page limit : JsNumber.number) (c : QueryCache.cache V) :
  let reviews := getCacheKey (Reads.interactionsParams
                                (Reads.UserReviews v page limit)) in
  let stats := getCacheKey (Reads.interactionsParams
                              (Reads.DownloadStats v)) in
  let hit := String.prefix (JsNumber.toString u) (Json.numberText v) in
  JsMap.get reviews (Interactions.invalidateUserCache u c)
    = (if hit then None else JsMap.get reviews c)
  /\ JsMap.get stats (Interactions.invalidateUserCache u c)
     = (if hit then None else JsMap.get stats c)
  /\ (u = v -> JsNumber.isFinite v = true -> hit = true)
  /\ (JsNumber.isFinite v = false -> hit = false).
Proof.
  intros reviews stats hit.
  assert (Hr : Interactions.mentionsUser u reviews = hit).
  { unfold reviews, hit. scan_key.
    rewrite (prefix_app_delimited Scan.isNumberChar);
      [now rewrite !orb_false_r | apply toString_numberChars | reflexivity]. }
  assert (Hs : Interactions.mentionsUser u stats = hit).
  { unfold stats, hit. scan_key.
    rewrite (prefix_app_delimited Scan.isNumberChar);
      [now rewrite !orb_false_r | apply toString_numberChars | reflexivity]. }
  rewrite !invalidate_get, Hr, Hs. repeat split.
  - intros -> Hfin. unfold hit, Json.numberText. rewrite Hfin.
    rewrite <- (append_nil_r (JsNumber.toString v)) at 2. apply prefix_app.
  - intros Hfin. unfold hit, Json.numberText. rewrite Hfin.
    destruct (JsNumber.isFinite u) eqn:Hu.
    + destruct (toString_first u Hu) as [a [r [-> Ha]]].
      cbn [String.prefix].
      destruct (numeralChar_not_keyword a Ha) as [_ [_ [_ [Hn _]]]].
      destruct (ascii_dec a "n") as [->|]; [discriminate Hn | reflexivity].
    + destruct u as [|[|]| |d]; try discriminate Hu; reflexivity.
Qed.

Lemma invalidation_hits_exactly_text_prefixes_witness :
  String.prefix (JsNumber.toString 7) (Json.numberText 7) = true.
Proof.
  destruct (invalidation_hits_exactly_text_prefixes
              (V := nat) 7 7 1 10 []) as [_ [_ [H _]]].
  apply H; reflexivity.
Defined.
(** ** What a write in the papers routes leaves cached *)

(** X21. A download or review recorded through the papers routes on paper
    [p] leaves every other cached read of the papers cache in place: list
    pages, search results, the top-rated list and the detail entries of
    other id texts are still served from the cache, with the counts and
    averages they held before the write, until they expire. *)
Theorem papers_write_keeps_other_reads
    {V : Type} (p : string) (u : JsNumber.number) (r : Reads.papersRead)
    (s : Routes.caches V) (w : Routes.write) :
  w = Routes.PapersDownload p u \/ w = Routes.PapersReview p u ->
  r <> Reads.PaperDetail p ->
  JsMap.get (getCacheKey (Reads.papersParams r))
    (Routes.papersCache (Routes.apply w s))
  = JsMap.get (getCacheKey (Reads.papersParams r)) (Routes.papersCache s).
Proof.
  intros Hw Hr.
  assert (Hc : Routes.papersCache (Routes.apply w s)
               = JsMap.delete
                   (getCacheKey (Reads.papersParams (Reads.PaperDetail p)))
                   (Routes.papersCache s))
    by (destruct Hw as [-> | ->]; reflexivity).
  rewrite Hc. apply get_delete_other.
  intros Heq. apply Hr.
  destruct (papers_key_alike _ _ Heq) as [Hroute Halike].
  destruct r; try discriminate Hroute.
  cbn [Reads.papersParams] in Halike.
  inversion Halike as [|? ? ? ? [_ Hw'] _]; subst.
  cbn [snd Json.written] in Hw'. now injection Hw' as <-.
Qed.

Lemma papers_write_keeps_other_reads_witness :
  JsMap.get
    (getCacheKey
       (Reads.papersParams
          (Reads.PaperList 1 12 Json.Undefined Json.Undefined)))
    (Routes.papersCache
       (Routes.apply (Routes.PapersReview "7" 3)
          (Routes.mkCaches
             [(getCacheKey
                 (Reads.papersParams
                    (Reads.PaperList 1 12 Json.Undefined Json.Undefined)),
               Samples.entryAt 1 0)] [])))
  = Some (Samples.entryAt 1 0).
Proof.
  rewrite (papers_write_keeps_other_reads "7" 3
             (Reads.PaperList 1 12 Json.Undefined Json.Undefined) _
             (Routes.PapersReview "7" 3) (or_intror eq_refl)).
  - vm_compute. reflexivity.
  - discriminate.
Defined.
(** ** Reading after one's own write *)

Lemma userOf_lookup (r : Reads.interactionsRead) (u : JsNumber.number) :
  Reads.userOf r = Some u ->
  Json.lookup "userId" (Json.defined (Reads.interactionsParams r))
  = Some (Json.Number u).
Proof.
  destruct r; cbn [Reads.userOf]; intros H; try discriminate H;
    injection H as ->; reflexivity.
Qed.

Lemma invalidate_ok {V : Type} (MAX_SIZE : nat) (u : JsNumber.number)
    (c : QueryCache.cache V) :
  QueryCache.cache_ok MAX_SIZE c ->
  QueryCache.cache_ok MAX_SIZE (Interactions.invalidateUserCache u c).
Proof.
  intros [Hnd Hsz]. rewrite invalidate_filter. split.
  - now apply keys_filter_nodup.
  - unfold JsMap.size in *.
    eapply Nat.le_trans; [apply filter_length_le | exact Hsz].
Qed.

(** X22. After a search, download or review handled in the interactions
    routes for user [u], none of that user's four cached views (search
    history, download history, download statistics, reviews) is in the
    cache, whatever was cached and however recently: a read that starts
    after the write misses, at any instant, and leaves the cache as it is
    until it stores.  The papers cache is not touched.  A read of such a
    view that missed before the write and stores after it puts the response
    it computed back under the key, and that response is what the next read
    within the TTL is served. *)
Theorem own_write_removes_cached_views
    {V : Type} (w : Routes.write) (r : Reads.interactionsRead)
    (s : Routes.caches V) :
  Routes.inPapersRoutes w = false ->
  Reads.userOf r = Some (Routes.writer w) ->
  JsNumber.isFinite (Routes.writer w) = true ->
  QueryCache.cache_ok Interactions.MAX_SIZE (Routes.interactionsCache s) ->
  let params := Reads.interactionsParams r in
  let c := Routes.interactionsCache (Routes.apply w s) in
  JsMap.get (getCacheKey params) c = None
  /\ (forall t1,
        CachedRoute.lookup Interactions.CACHE_TTL params t1 c = (None, c))
  /\ Routes.papersCache (Routes.apply w s) = Routes.papersCache s
  /\ (forall (earlier : V) (t2 t3 : Z),
        t3 - t2 < Interactions.CACHE_TTL ->
        let stored :=
          snd (CachedRoute.store Interactions.MAX_SIZE params t2
                 (CachedRoute.Computed earlier) c) in
        CachedRoute.lookup Interactions.CACHE_TTL params t3 stored
        = (Some earlier, stored)).
Proof.
  intros Hw Hr Hfin Hok params c.
  assert (Hc : c = Interactions.invalidateUserCache (Routes.writer w)
                     (Routes.interactionsCache s))
    by (unfold c; destruct w; try discriminate Hw; reflexivity).
  assert (Hg : JsMap.get (getCacheKey params) c = None).
  { unfold params. rewrite Hc, invalidate_get.
    now rewrite (key_mentions_user _ _ Hfin (userOf_lookup r _ Hr)). }
  split; [exact Hg|]. split.
  { intros t1. unfold CachedRoute.lookup. now apply get_absent. }
  split; [destruct w; try discriminate Hw; reflexivity|].
  intros earlier t2 t3 Ht stored.
  unfold CachedRoute.lookup, stored. cbn [CachedRoute.store snd].
  apply (get_live Interactions.CACHE_TTL t3 _ _
           (QueryCache.mkEntry earlier t2)); [|exact Ht].
  apply setCachedQuery_get.
  - rewrite Hc. now apply invalidate_ok.
  - unfold Interactions.MAX_SIZE. lia.
Qed.

Lemma own_write_removes_cached_views_witness :
  JsMap.get
    (getCacheKey (Reads.interactionsParams (Reads.UserReviews 3 1 10)))
    (Routes.interactionsCache
       (Routes.apply (Routes.SubmitReview (Json.Num 7) 3)
          (Routes.mkCaches []
             [(getCacheKey
                 (Reads.interactionsParams (Reads.UserReviews 3 1 10)),
               Samples.entryAt 2 0)])))
  = None.
Proof.
  destruct (own_write_removes_cached_views
              (Routes.SubmitReview (Json.Num 7) 3)
              (Reads.UserReviews 3 1 10)
              (Routes.mkCaches []
                 [(getCacheKey
                     (Reads.interactionsParams (Reads.UserReviews 3 1 10)),
                   Samples.entryAt 2 0)])
              eq_refl eq_refl eq_refl) as [H _].
  - split; [repeat constructor; intros []
           | unfold JsMap.size, Interactions.MAX_SIZE; simpl; lia].
  - exact H.
Defined.
(** ** The guards on every value *)


(** ** The rating floor *)

(** X24. The rating floor compares doubles.  With [minRating] 4, of three
    stored papers that match the query, one whose ten ratings average 3.9 is
    left out, one whose two ratings average 4 is listed, and one whose ten
    ratings average 3.7 is left out.  With [minRating] 3.7, the double
    nearest to 3.7, which lies above 37/10, the paper whose ratings sum to
    37 over 10 reviews is listed: its average is that same double.  A floor
    of 0, the value of a missing or unreadable [minRating], lists all
    three. *)
Theorem rating_floor_compares_doubles :
  let stored := [Samples.average39; Samples.average40; Samples.average37] in
  let floor37 := Double.round (37 # 10) in
  map Search.source
    (Search.searchResults (Samples.rated_at_least 4) stored)
  = [Samples.average40]
  /\ map Search.source
       (Search.searchResults (Samples.rated_at_least floor37) stored)
     = stored
  /\ Qlt (37 # 10) floor37
  /\ Qeq (Search.averageRating (Search.Ratings Samples.average37)) floor37
  /\ Qlt (Search.averageRating (Search.Ratings Samples.average39)) (39 # 10)
  /\ map Search.source
       (Search.searchResults (Samples.rated_at_least 0) stored)
     = stored.
Proof. vm_compute. repeat split. Qed.
